(** * mysql-mcp: the SQL construction and session layer

    A shallow embedding of [MySqlApi] (the database gateway), of the record
    argument validators and of the record tool handlers, followed by the
    properties of the specification that concern them.

    Conventions of the embedding.
    - A JS string is a [string]: a sequence of 8-bit code units.  Every
      character class of the source ([A-Za-z0-9_], [\s]) is decided inside
      that range.
    - A JS object used as a record ([Record<string, unknown>]) is the list of
      its [Object.entries], in iteration order.
    - A JS exception is an [Error] value carried by [Err]; an [async] method
      is a computation of the monad [M], which threads the fields of the
      [MySqlApi] instance, the state of the database driver and the log of the
      driver calls made so far.  One call runs to completion before the next
      one starts.
    - A JS number is an integer [VNum n]; [String(n)] prints it digit for
      digit when [n] is a safe integer, and the properties that read a number
      back as text are stated for such values ([plainRow]).
    - The MCP server of [index.ts] and the table of tool definitions are not
      embedded: no property below concerns them. *)

From Stdlib Require Import String Ascii List ZArith Bool Lia.
From Stdlib Require Import DecimalString.
Import ListNotations.

Local Open Scope string_scope.
Local Open Scope list_scope.

Infix "+++" := String.append (at level 60, right associativity).

(** ** Strings *)

Module Str.

Definition chars (s : string) : list ascii := list_ascii_of_string s.

Definition code (c : ascii) : nat := nat_of_ascii c.

Definition between (lo hi : nat) (c : ascii) : bool :=
  Nat.leb lo (code c) && Nat.leb (code c) hi.

Definition isUpper : ascii -> bool := between 65 90.
Definition isLower : ascii -> bool := between 97 122.
Definition isDigit : ascii -> bool := between 48 57.
Definition isUnderscore (c : ascii) : bool := Nat.eqb (code c) 95.

(** [\s] restricted to 8-bit code units: TAB, LF, VT, FF, CR, SPACE and
    NO-BREAK SPACE. *)
Definition isSpace (c : ascii) : bool :=
  between 9 13 c || Nat.eqb (code c) 32 || Nat.eqb (code c) 160.

(** The line feed of a template literal that spans lines. *)
Definition lf : string := String (ascii_of_nat 10) EmptyString.

(** [String.prototype.toUpperCase], code unit by code unit: the letters a-z
    go to A-Z and every other code unit is kept.  This is what JS does on
    the code units below 128; above, JS also maps the letters of Latin-1
    (and turns the sharp s into two code units), so a property that states
    the upper case of a token holds the token to the code units below 128
    ([asciiOnly]). *)
Definition upperChar (c : ascii) : ascii :=
  if isLower c then ascii_of_nat (code c - 32) else c.

Fixpoint toUpperCase (s : string) : string :=
  match s with
  | EmptyString => EmptyString
  | String c r => String (upperChar c) (toUpperCase r)
  end.

(** [Array.prototype.join]. *)
Fixpoint join (sep : string) (parts : list string) : string :=
  match parts with
  | [] => ""
  | [p] => p
  | p :: rest => p +++ sep +++ join sep rest
  end.

(** [String.prototype.split(/\s+/)]: the pieces between the maximal runs of
    white space; a leading or trailing run leaves an empty piece at that
    end.  [splitWs cur inRun s] scans [s] with the piece being read held
    reversed in [cur] and [inRun] telling whether the previous code unit
    was white space. *)
Fixpoint splitWs (cur : list ascii) (inRun : bool) (s : string) : list string :=
  match s with
  | EmptyString => [string_of_list_ascii (rev cur)]
  | String c r =>
      if isSpace c then
        if inRun then splitWs cur true r
        else string_of_list_ascii (rev cur) :: splitWs [] true r
      else splitWs (c :: cur) false r
  end.

Definition splitWhitespace (s : string) : list string := splitWs [] false s.

(** JS truthiness of a string. *)
Definition truthy (s : string) : bool :=
  match s with EmptyString => false | _ => true end.

End Str.

(** ** Regular expressions, as far as the source uses them *)

Module Regex.

Inductive re : Type :=
| Never
| Empty
| Class (p : ascii -> bool)
| Seq (r s : re)
| Alt (r s : re)
| Star (r : re).

Fixpoint nullable (r : re) : bool :=
  match r with
  | Never => false
  | Empty => true
  | Class _ => false
  | Seq r s => nullable r && nullable s
  | Alt r s => nullable r || nullable s
  | Star _ => true
  end.

Fixpoint deriv (c : ascii) (r : re) : re :=
  match r with
  | Never => Never
  | Empty => Never
  | Class p => if p c then Empty else Never
  | Seq r s =>
      if nullable r then Alt (Seq (deriv c r) s) (deriv c s)
      else Seq (deriv c r) s
  | Alt r s => Alt (deriv c r) (deriv c s)
  | Star r => Seq (deriv c r) (Star r)
  end.

(** [/^r$/.test(s)]: with both anchors and no flag the whole of [s] has to
    be matched by [r]. *)
Fixpoint test (r : re) (s : string) : bool :=
  match s with
  | EmptyString => nullable r
  | String c s' => test (deriv c r) s'
  end.

(** The language of a regular expression. *)
Inductive lang : re -> string -> Prop :=
| LEmpty : lang Empty ""
| LClass p c : p c = true -> lang (Class p) (String c "")
| LSeq r s u v : lang r u -> lang s v -> lang (Seq r s) (u +++ v)
| LAltL r s u : lang r u -> lang (Alt r s) u
| LAltR r s u : lang s u -> lang (Alt r s) u
| LStarNil r : lang (Star r) ""
| LStarCons r u v : lang r u -> lang (Star r) v -> lang (Star r) (u +++ v).

End Regex.

(** ** Errors and results *)

Inductive ErrorKind : Type :=
| ValidationError
| AuthError
| ApiError
| DriverError.   (* anything the driver throws: a plain [Error] *)

Record Error : Type := mkError { kind : ErrorKind; message : string }.

Inductive Result (A : Type) : Type :=
| Ok (a : A)
| Err (e : Error).

Arguments Ok {A} a.
Arguments Err {A} e.

Definition failsWith {A : Type} (k : ErrorKind) (r : Result A) : Prop :=
  exists msg, r = Err (mkError k msg).

Definition rbind {A B : Type} (r : Result A) (f : A -> Result B) : Result B :=
  match r with
  | Ok a => f a
  | Err e => Err e
  end.

(** [xs.map(f)] where [f] may throw: the first exception ends the loop. *)
Fixpoint mapR {A B : Type} (f : A -> Result B) (xs : list A) : Result (list B) :=
  match xs with
  | [] => Ok []
  | x :: rest =>
      rbind (f x) (fun y => rbind (mapR f rest) (fun ys => Ok (y :: ys)))
  end.

(** ** Identifiers (part_000, lines 38-50) *)

Definition identifierHead (c : ascii) : bool :=
  Str.isUpper c || Str.isLower c || Str.isUnderscore c.

Definition identifierTail (c : ascii) : bool :=
  Str.isUpper c || Str.isLower c || Str.isDigit c || Str.isUnderscore c.

(** [/^[A-Za-z_][A-Za-z0-9_]*$/] *)
Definition identifierPattern : Regex.re :=
  Regex.Seq (Regex.Class identifierHead) (Regex.Star (Regex.Class identifierTail)).

Definition invalidIdentifier (field : string) : Error :=
  mkError ValidationError
    ("Invalid parameter: " +++ field +++
     " must contain only letters, numbers, and underscore").

Definition assertIdentifier (value field : string) : Result string :=
  if negb (Regex.test identifierPattern value)
  then Err (invalidIdentifier field)
  else Ok value.

Definition escapeIdentifier (value field : string) : Result string :=
  rbind (assertIdentifier value field) (fun v => Ok ("`" +++ v +++ "`")).

(** ** JS values *)

#[warnings="-register-all"]
Inductive Value : Type :=
| VNull
| VBool (b : bool)
| VNum (n : Z)
| VStr (s : string)
| VArr (items : list Value)
| VObj (entries : list (string * Value)).

(** A [Record<string, unknown>], a [RowDataPacket] or an [UnknownObject]: the
    [Object.entries] of the object. *)
Definition Fields : Type := list (string * Value).

(** Property access [obj.key]; [None] is [undefined]. *)
Fixpoint prop (key : string) (obj : Fields) : option Value :=
  match obj with
  | [] => None
  | (k, v) :: rest => if String.eqb k key then Some v else prop key rest
  end.

Definition isNull (v : Value) : bool :=
  match v with VNull => true | _ => false end.

(** [String(v)].  A number is printed digit for digit, which is what JS does
    for the safe integers ([safeInteger]); beyond them JS prints the shortest
    digits that read back as the same double, and an exponent from 1e21 on. *)
Fixpoint jsString (v : Value) : string :=
  match v with
  | VNull => "null"
  | VBool true => "true"
  | VBool false => "false"
  | VNum n => NilZero.string_of_int (Z.to_int n)
  | VStr s => s
  | VArr items =>
      Str.join ","
        (map (fun x => match x with VNull => "" | _ => jsString x end) items)
  | VObj _ => "[object Object]"
  end.

Definition jsStringU (v : option Value) : string :=
  match v with
  | None => "undefined"
  | Some x => jsString x
  end.

(** Truthiness of a possibly undefined value. *)
Definition jsTruthy (v : option Value) : bool :=
  match v with
  | None => false
  | Some VNull => false
  | Some (VBool b) => b
  | Some (VNum n) => negb (Z.eqb n 0)
  | Some (VStr s) => Str.truthy s
  | Some _ => true
  end.

(** ** Types of types.ts and of the gateway *)

Module AuthSession.
Record t : Type := mk {
  host : string;
  port : Z;
  user : string;
  database : option string;   (* [None] is [null] *)
  ssl : bool
}.
End AuthSession.

Module MySqlAuthArgs.
Record t : Type := mk {
  host : string;
  port : option Z;
  user : string;
  password : string;
  database : option string;
  ssl : option bool
}.
End MySqlAuthArgs.

Module PoolOptions.
Record t : Type := mk {
  host : string;
  port : Z;
  user : string;
  password : string;
  database : option string;
  ssl : bool;                 (* [true] is [{}], [false] is [undefined] *)
  waitForConnections : bool;
  connectionLimit : Z;
  queueLimit : Z
}.
End PoolOptions.

Module HealthResponse.
Record t : Type := mk {
  ok : bool;
  authenticated : bool;
  message : string;
  serverTime : option string
}.
End HealthResponse.

Module DatabaseInfo.
Record t : Type := mk { name : string }.
End DatabaseInfo.

Module TableInfo.
Record t : Type := mk { database : string; name : string; type : string }.
End TableInfo.

Module ColumnInfo.
Record t : Type := mk {
  name : string;
  dataType : string;
  isNullable : bool;
  key : string;
  defaultValue : option Value;
  extra : string
}.
End ColumnInfo.

Module UseDatabaseArgs.
Record t : Type := mk { database : string }.
End UseDatabaseArgs.

Module DescribeTableArgs.
Record t : Type := mk { table : string; database : option string }.
End DescribeTableArgs.

Module SelectRowsArgs.
Record t : Type := mk {
  table : string;
  database : option string;
  columns : option (list string);
  where_ : option Fields;   (* [where] *)
  orderBy : option string;
  limit : option Z;
  offset : option Z
}.
End SelectRowsArgs.

Module InsertRowArgs.
Record t : Type := mk { table : string; database : option string; data : Fields }.
End InsertRowArgs.

Module UpdateRowsArgs.
Record t : Type := mk {
  table : string;
  database : option string;
  data : Fields;
  where_ : Fields             (* [where] *)
}.
End UpdateRowsArgs.

Module DeleteRowsArgs.
Record t : Type := mk { table : string; database : option string; where_ : Fields }.
End DeleteRowsArgs.

Module ExecuteSqlArgs.
Record t : Type := mk {
  sql : string;
  params : option (list Value);
  database : option string
}.
End ExecuteSqlArgs.

Module ResultSetHeader.
Record t : Type := mk { affectedRows : Z; changedRows : Z; insertId : Z }.
End ResultSetHeader.

(** What [connection.query] resolves to: [RowDataPacket[] | ResultSetHeader]. *)
Inductive QueryResult : Type :=
| Rows (rows : list Fields)
| Header (h : ResultSetHeader.t).

(** ** The driver (mysql2/promise)

    Pools and connections are opaque handles.  A driver call reads and
    changes the state of the outside world and either resolves or throws. *)

Inductive Pool : Type := PoolHandle (id : nat).
Inductive Connection : Type := ConnectionHandle (id : nat).

Record Driver (World : Type) : Type := mkDriver {
  createPool : PoolOptions.t -> World -> Result Pool * World;
  poolEnd : Pool -> World -> Result unit * World;
  poolQuery : Pool -> string -> list Value -> World -> Result (list Fields) * World;
  poolExecute : Pool -> string -> list Value -> World -> Result ResultSetHeader.t * World;
  getConnection : Pool -> World -> Result Connection * World;
  connectionQuery : Connection -> string -> list Value -> World -> Result QueryResult * World;
  connectionRelease : Connection -> World -> Result unit * World
}.

Arguments createPool {World} _ _ _.
Arguments poolEnd {World} _ _ _.
Arguments poolQuery {World} _ _ _ _ _.
Arguments poolExecute {World} _ _ _ _ _.
Arguments getConnection {World} _ _ _.
Arguments connectionQuery {World} _ _ _ _ _.
Arguments connectionRelease {World} _ _ _.

(** The driver calls a method makes, in order. *)
Inductive Call : Type :=
| CallCreatePool (options : PoolOptions.t)
| CallPoolEnd (p : Pool)
| CallPoolQuery (p : Pool) (sql : string) (values : list Value)
| CallPoolExecute (p : Pool) (sql : string) (values : list Value)
| CallGetConnection (p : Pool)
| CallConnectionQuery (c : Connection) (sql : string) (values : list Value)
| CallRelease (c : Connection).

(** ** The state of a [MySqlApi] instance and the monad of its methods *)

Record Machine (World : Type) : Type := mkMachine {
  pool : option Pool;                  (* [this.pool] *)
  session : option AuthSession.t;      (* [this.session] *)
  world : World;
  calls : list Call
}.

Arguments mkMachine {World} _ _ _ _.
Arguments pool {World} _.
Arguments session {World} _.
Arguments world {World} _.
Arguments calls {World} _.

Definition M (World A : Type) : Type := Machine World -> Result A * Machine World.

Section Monad.
Context {World : Type}.

Definition ret {A : Type} (a : A) : M World A := fun m => (Ok a, m).

Definition throw {A : Type} (e : Error) : M World A := fun m => (Err e, m).

Definition bind {A B : Type} (c : M World A) (k : A -> M World B) : M World B :=
  fun m =>
    match c m with
    | (Ok a, m') => k a m'
    | (Err e, m') => (Err e, m')
    end.

Definition liftR {A : Type} (r : Result A) : M World A := fun m => (r, m).

Definition getPool : M World (option Pool) := fun m => (Ok (pool m), m).

Definition getSession : M World (option AuthSession.t) := fun m => (Ok (session m), m).

Definition setPool (p : option Pool) : M World unit :=
  fun m => (Ok tt, mkMachine p (session m) (world m) (calls m)).

Definition setSession (s : option AuthSession.t) : M World unit :=
  fun m => (Ok tt, mkMachine (pool m) s (world m) (calls m)).

(** One awaited driver call. *)
Definition perform {A : Type} (c : Call) (f : World -> Result A * World) : M World A :=
  fun m =>
    let (r, w) := f (world m) in
    (r, mkMachine (pool m) (session m) w (calls m ++ [c])).

(** [try { body } catch (error) { handler }] *)
Definition tryCatch {A : Type} (body : M World A) (handler : Error -> M World A) : M World A :=
  fun m =>
    match body m with
    | (Ok a, m') => (Ok a, m')
    | (Err e, m') => handler e m'
    end.

(** [try { body } finally { final }]: [final] runs on every exit of [body];
    an exception of [final] replaces the outcome of [body]. *)
Definition tryFinally {A : Type} (body : M World A) (final : M World unit) : M World A :=
  fun m =>
    let (r, m') := body m in
    match final m' with
    | (Ok _, m'') => (r, m'')
    | (Err e, m'') => (Err e, m'')
    end.

End Monad.

Declare Scope api_scope.
Delimit Scope api_scope with api.
Notation "x <- c ;; k" := (bind c (fun x => k))
  (at level 61, c at next level, right associativity) : api_scope.
Notation "c ;;; k" := (bind c (fun _ => k))
  (at level 61, right associativity) : api_scope.

(** ** Results of the gateway methods *)

Module AuthResult.
Record t : Type := mk {
  authenticated : bool;
  host : string;
  port : Z;
  user : string;
  database : option string;
  ssl : bool
}.
End AuthResult.

Module AuthStatus.
Record t : Type := mk { authenticated : bool; session : option AuthSession.t }.
End AuthStatus.

Module LogoutResult.
Record t : Type := mk { message : string; authenticated : bool }.
End LogoutResult.

Module DescribeResult.
Record t : Type := mk {
  table : string;
  database : option string;
  columns : list ColumnInfo.t
}.
End DescribeResult.

Module SelectResult.
Record t : Type := mk { items : list Fields; count : Z }.
End SelectResult.

Module InsertResult.
Record t : Type := mk { insertedId : Z; affectedRows : Z }.
End InsertResult.

Module UseDatabaseResult.
Record t : Type := mk { message : string; database : string; authenticated : bool }.
End UseDatabaseResult.

Inductive ExecuteResult : Type :=
| QueryMode (sql : string) (database : option string) (count : Z) (items : list Fields)
| MutationMode (sql : string) (database : option string)
    (affectedRows changedRows insertId : Z).

Module WhereClause.
Record t : Type := mk { sql : string; values : list Value }.
End WhereClause.

(** ** MySqlApi (part_000) *)

Definition notAuthenticated : Error :=
  mkError AuthError "Not authenticated. Call auth_mysql first.".

Definition noDatabaseSelected : Error :=
  mkError ValidationError
    "No database selected. Call use_database, pass database parameter, or authenticate with a default database.".

(** [a ?? b] *)
Definition coalesce {A : Type} (a b : option A) : option A :=
  match a with
  | Some x => Some x
  | None => b
  end.

(** [this.session?.database] *)
Definition sessionDatabase (s : option AuthSession.t) : option string :=
  match s with
  | Some s => AuthSession.database s
  | None => None
  end.

(** The loop of [buildWhereClause] over [Object.entries(where)], with the two
    arrays it pushes to. *)
Fixpoint whereLoop (entries : Fields) (parts : list string) (values : list Value)
  : Result (list string * list Value) :=
  match entries with
  | [] => Ok (parts, values)
  | (key, value) :: rest =>
      rbind (escapeIdentifier key ("where." +++ key)) (fun escapedKey =>
        if isNull value
        then whereLoop rest (parts ++ [escapedKey +++ " IS NULL"]) values
        else whereLoop rest (parts ++ [escapedKey +++ " = ?"]) (values ++ [value]))
  end.

Definition buildWhereClause (where_ : option Fields) : Result WhereClause.t :=
  match where_ with
  | None => Ok (WhereClause.mk "" [])
  | Some entries =>
      if Nat.eqb (length entries) 0 then Ok (WhereClause.mk "" [])
      else
        rbind (whereLoop entries [] []) (fun pv =>
          Ok (WhereClause.mk (" WHERE " +++ Str.join " AND " (fst pv)) (snd pv)))
  end.

(** The [orderBy] block of [selectRows] (lines 278-285). *)
Definition orderByClause (orderBy : option string) : Result string :=
  match orderBy with
  | None => Ok ""
  | Some expression =>
      if Str.truthy expression then
        let tokens := Str.splitWhitespace expression in
        let column := hd "" tokens in
        let direction := nth_error tokens 1 in
        rbind (escapeIdentifier column "orderBy") (fun escaped =>
          let orderBySql := " ORDER BY " +++ escaped in
          match direction with
          | Some d =>
              if Str.truthy d then Ok (orderBySql +++ " " +++ Str.toUpperCase d)
              else Ok orderBySql
          | None => Ok orderBySql
          end)
      else Ok ""
  end.

(** The column list of [selectRows] (lines 271-273). *)
Definition columnList (columns : option (list string)) : Result string :=
  match columns with
  | Some (c :: cs) =>
      rbind
        (mapR (fun column => escapeIdentifier column ("columns." +++ column)) (c :: cs))
        (fun escaped => Ok (Str.join ", " escaped))
  | _ => Ok "*"
  end.

Section Gateway.
Context {World : Type} (driver : Driver World).
Local Open Scope api_scope.

Definition ensureAuthenticated : M World Pool :=
  p <- getPool ;;
  match p with
  | None => throw notAuthenticated
  | Some live => ret live
  end.

Definition escapeTableReference (table : string) (database : option string) : M World string :=
  escapedTable <- liftR (escapeIdentifier table "table") ;;
  s <- getSession ;;
  match coalesce database (sessionDatabase s) with
  | None => throw noDatabaseSelected
  | Some resolvedDatabase =>
      if negb (Str.truthy resolvedDatabase) then throw noDatabaseSelected
      else
        escapedDatabase <- liftR (escapeIdentifier resolvedDatabase "database") ;;
        ret (escapedDatabase +++ "." +++ escapedTable)
  end.

Definition resolveDatabase (database : option string) : M World string :=
  s <- getSession ;;
  match coalesce database (sessionDatabase s) with
  | None => throw noDatabaseSelected
  | Some resolved =>
      if negb (Str.truthy resolved) then throw noDatabaseSelected
      else liftR (assertIdentifier resolved "database")
  end.

Definition query (p : Pool) (sql : string) (values : list Value) : M World (list Fields) :=
  perform (CallPoolQuery p sql values) (poolQuery driver p sql values).

Definition execute (p : Pool) (sql : string) (values : list Value) : M World ResultSetHeader.t :=
  perform (CallPoolExecute p sql values) (poolExecute driver p sql values).

Definition authOptions (args : MySqlAuthArgs.t) : PoolOptions.t :=
  PoolOptions.mk
    (MySqlAuthArgs.host args)
    (match MySqlAuthArgs.port args with Some n => n | None => 3306%Z end)
    (MySqlAuthArgs.user args)
    (MySqlAuthArgs.password args)
    (MySqlAuthArgs.database args)
    (match MySqlAuthArgs.ssl args with Some b => b | None => false end)
    true 5 0.

Definition authSession (args : MySqlAuthArgs.t) (options : PoolOptions.t) : AuthSession.t :=
  AuthSession.mk
    (if Str.truthy (PoolOptions.host options)
     then PoolOptions.host options else MySqlAuthArgs.host args)
    (if Z.eqb (PoolOptions.port options) 0 then 3306%Z else PoolOptions.port options)
    (MySqlAuthArgs.user args)
    (MySqlAuthArgs.database args)
    (match MySqlAuthArgs.ssl args with Some b => b | None => false end).

Definition authMySql (args : MySqlAuthArgs.t) : M World AuthResult.t :=
  old <- getPool ;;
  match old with
  | Some p => perform (CallPoolEnd p) (poolEnd driver p)
  | None => ret tt
  end ;;;
  let options := authOptions args in
  tryCatch
    (p <- perform (CallCreatePool options) (createPool driver options) ;;
     query p "SELECT 1" [] ;;;
     setPool (Some p) ;;;
     let s := authSession args options in
     setSession (Some s) ;;;
     ret (AuthResult.mk true (AuthSession.host s) (AuthSession.port s)
            (AuthSession.user s) (AuthSession.database s) (AuthSession.ssl s)))
    (fun error =>
       setPool None ;;;
       setSession None ;;;
       throw (mkError AuthError ("MySQL authentication failed: " +++ message error))).

Definition getAuthStatus : M World AuthStatus.t :=
  p <- getPool ;;
  s <- getSession ;;
  ret (AuthStatus.mk (match p with Some _ => true | None => false end) s).

Definition logout : M World LogoutResult.t :=
  old <- getPool ;;
  match old with
  | Some p => perform (CallPoolEnd p) (poolEnd driver p)
  | None => ret tt
  end ;;;
  setPool None ;;;
  setSession None ;;;
  ret (LogoutResult.mk "MySQL session cleared" false).

Definition health : M World HealthResponse.t :=
  p <- getPool ;;
  match p with
  | None => ret (HealthResponse.mk false false "Not authenticated" None)
  | Some _ =>
      live <- ensureAuthenticated ;;
      rows <- query live "SELECT NOW() AS serverTime" [] ;;
      let serverTime :=
        match (match rows with
               | row :: _ => prop "serverTime" row
               | [] => None
               end) with
        | Some VNull | None => ""
        | Some v => jsString v
        end in
      ret (HealthResponse.mk true true "MySQL connection is healthy" (Some serverTime))
  end.

Definition listDatabases : M World (list DatabaseInfo.t) :=
  live <- ensureAuthenticated ;;
  rows <- query live "SHOW DATABASES" [] ;;
  ret (map (fun row : Fields =>
              DatabaseInfo.mk (jsStringU (option_map snd (hd_error row)))) rows).

(** The template literal of lines 207-212: it starts with a line feed, keeps
    the indentation of the source and ends with a line feed and the four
    spaces that precede the closing backtick. *)
Definition listTablesSql : string :=
  Str.lf
  +++ "      SELECT TABLE_SCHEMA AS databaseName, TABLE_NAME AS tableName, TABLE_TYPE AS tableType"
  +++ Str.lf
  +++ "      FROM information_schema.tables" +++ Str.lf
  +++ "      WHERE TABLE_SCHEMA = ?" +++ Str.lf
  +++ "      ORDER BY TABLE_NAME" +++ Str.lf
  +++ "    ".

Definition listTables (database : option string) : M World (list TableInfo.t) :=
  live <- ensureAuthenticated ;;
  targetDatabase <- resolveDatabase database ;;
  rows <- query live listTablesSql [VStr targetDatabase] ;;
  ret (map (fun row =>
              TableInfo.mk (jsStringU (prop "databaseName" row))
                (jsStringU (prop "tableName" row))
                (jsStringU (prop "tableType" row))) rows).

(** The template literal of lines 233-245, with its line feeds and its
    indentation. *)
Definition describeTableSql : string :=
  Str.lf
  +++ "      SELECT" +++ Str.lf
  +++ "        COLUMN_NAME AS columnName," +++ Str.lf
  +++ "        DATA_TYPE AS dataType," +++ Str.lf
  +++ "        IS_NULLABLE AS isNullable," +++ Str.lf
  +++ "        COLUMN_KEY AS columnKey," +++ Str.lf
  +++ "        COLUMN_DEFAULT AS defaultValue," +++ Str.lf
  +++ "        EXTRA AS extra" +++ Str.lf
  +++ "      FROM information_schema.columns" +++ Str.lf
  +++ "      WHERE TABLE_SCHEMA = ?" +++ Str.lf
  +++ "        AND TABLE_NAME = ?" +++ Str.lf
  +++ "      ORDER BY ORDINAL_POSITION" +++ Str.lf
  +++ "    ".

Definition orEmpty (v : option Value) : string :=
  if jsTruthy v then jsStringU v else "".

Definition describeTable (args : DescribeTableArgs.t) : M World DescribeResult.t :=
  live <- ensureAuthenticated ;;
  table <- liftR (assertIdentifier (DescribeTableArgs.table args) "table") ;;
  database <- resolveDatabase (DescribeTableArgs.database args) ;;
  rows <- query live describeTableSql [VStr database; VStr table] ;;
  if Nat.eqb (length rows) 0 then throw (mkError ApiError ("Table not found: " +++ table))
  else
    ret (DescribeResult.mk table (Some database)
           (map (fun row =>
                   ColumnInfo.mk (jsStringU (prop "columnName" row))
                     (jsStringU (prop "dataType" row))
                     (String.eqb (Str.toUpperCase (jsStringU (prop "isNullable" row))) "YES")
                     (orEmpty (prop "columnKey" row))
                     (prop "defaultValue" row)
                     (orEmpty (prop "extra" row))) rows)).

Definition offsetRequiresLimit : Error :=
  mkError ValidationError "Invalid parameter: offset requires limit".

Definition selectRows (args : SelectRowsArgs.t) : M World SelectResult.t :=
  live <- ensureAuthenticated ;;
  tableRef <- escapeTableReference (SelectRowsArgs.table args) (SelectRowsArgs.database args) ;;
  columns <- liftR (columnList (SelectRowsArgs.columns args)) ;;
  where_ <- liftR (buildWhereClause (SelectRowsArgs.where_ args)) ;;
  let values := WhereClause.values where_ in
  orderBySql <- liftR (orderByClause (SelectRowsArgs.orderBy args)) ;;
  let limited :=
    match SelectRowsArgs.limit args with
    | Some n => (" LIMIT ?", values ++ [VNum n])
    | None => ("", values)
    end in
  paged <-
    match SelectRowsArgs.offset args with
    | Some k =>
        match SelectRowsArgs.limit args with
        | None => throw offsetRequiresLimit
        | Some _ => ret (fst limited +++ " OFFSET ?", snd limited ++ [VNum k])
        end
    | None => ret limited
    end ;;
  let sql :=
    "SELECT " +++ columns +++ " FROM " +++ tableRef +++ WhereClause.sql where_
      +++ orderBySql +++ fst paged in
  rows <- query live sql (snd paged) ;;
  ret (SelectResult.mk rows (Z.of_nat (length rows))).

Definition dataCannotBeEmpty : Error :=
  mkError ValidationError "Invalid parameter: data cannot be empty".

Definition insertRow (args : InsertRowArgs.t) : M World InsertResult.t :=
  live <- ensureAuthenticated ;;
  tableRef <- escapeTableReference (InsertRowArgs.table args) (InsertRowArgs.database args) ;;
  let entries := InsertRowArgs.data args in
  if Nat.eqb (length entries) 0 then throw dataCannotBeEmpty
  else
    escaped <- liftR (mapR (fun e : string * Value =>
                              escapeIdentifier (fst e) ("data." +++ fst e)) entries) ;;
    let columns := Str.join ", " escaped in
    let placeholders := Str.join ", " (map (fun _ => "?") entries) in
    let values := map snd entries in
    let sql :=
      "INSERT INTO " +++ tableRef +++ " (" +++ columns +++ ") VALUES (" +++ placeholders +++ ")" in
    result <- execute live sql values ;;
    ret (InsertResult.mk (ResultSetHeader.insertId result) (ResultSetHeader.affectedRows result)).

Definition updateRows (args : UpdateRowsArgs.t) : M World Z :=
  live <- ensureAuthenticated ;;
  tableRef <- escapeTableReference (UpdateRowsArgs.table args) (UpdateRowsArgs.database args) ;;
  let entries := UpdateRowsArgs.data args in
  if Nat.eqb (length entries) 0 then throw dataCannotBeEmpty
  else
    assignments <- liftR (mapR (fun e : string * Value =>
                                  rbind (escapeIdentifier (fst e) ("data." +++ fst e))
                                    (fun k => Ok (k +++ " = ?"))) entries) ;;
    let setSql := Str.join ", " assignments in
    let setValues := map snd entries in
    where_ <- liftR (buildWhereClause (Some (UpdateRowsArgs.where_ args))) ;;
    if negb (Str.truthy (WhereClause.sql where_))
    then throw (mkError ValidationError "Invalid parameter: where cannot be empty for update_rows")
    else
      let sql := "UPDATE " +++ tableRef +++ " SET " +++ setSql +++ WhereClause.sql where_ in
      result <- execute live sql (setValues ++ WhereClause.values where_) ;;
      ret (ResultSetHeader.affectedRows result).

Definition deleteRows (args : DeleteRowsArgs.t) : M World Z :=
  live <- ensureAuthenticated ;;
  tableRef <- escapeTableReference (DeleteRowsArgs.table args) (DeleteRowsArgs.database args) ;;
  where_ <- liftR (buildWhereClause (Some (DeleteRowsArgs.where_ args))) ;;
  if negb (Str.truthy (WhereClause.sql where_))
  then throw (mkError ValidationError "Invalid parameter: where cannot be empty for delete_rows")
  else
    let sql := "DELETE FROM " +++ tableRef +++ WhereClause.sql where_ in
    result <- execute live sql (WhereClause.values where_) ;;
    ret (ResultSetHeader.affectedRows result).

Definition executeSql (args : ExecuteSqlArgs.t) : M World ExecuteResult :=
  live <- ensureAuthenticated ;;
  let params := match ExecuteSqlArgs.params args with Some ps => ps | None => [] end in
  connection <- perform (CallGetConnection live) (getConnection driver live) ;;
  tryFinally
    (s <- getSession ;;
     let inherited := sessionDatabase s in
     database <-
       match ExecuteSqlArgs.database args with
       | Some d =>
           if Str.truthy d then
             checked <- liftR (assertIdentifier d "database") ;;
             escaped <- liftR (escapeIdentifier checked "database") ;;
             perform (CallConnectionQuery connection ("USE " +++ escaped) [])
               (connectionQuery driver connection ("USE " +++ escaped) []) ;;;
             ret (Some checked)
           else ret inherited
       | None => ret inherited
       end ;;
     rows <- perform (CallConnectionQuery connection (ExecuteSqlArgs.sql args) params)
               (connectionQuery driver connection (ExecuteSqlArgs.sql args) params) ;;
     match rows with
     | Rows items =>
         ret (QueryMode (ExecuteSqlArgs.sql args) database (Z.of_nat (length items)) items)
     | Header h =>
         ret (MutationMode (ExecuteSqlArgs.sql args) database
                (ResultSetHeader.affectedRows h) (ResultSetHeader.changedRows h)
                (ResultSetHeader.insertId h))
     end)
    (perform (CallRelease connection) (connectionRelease driver connection)).

Definition useDatabaseSql : string :=
  "SELECT SCHEMA_NAME AS name FROM information_schema.schemata WHERE SCHEMA_NAME = ?".

Definition useDatabase (args : UseDatabaseArgs.t) : M World UseDatabaseResult.t :=
  live <- ensureAuthenticated ;;
  database <- liftR (assertIdentifier (UseDatabaseArgs.database args) "database") ;;
  rows <- query live useDatabaseSql [VStr database] ;;
  if Nat.eqb (length rows) 0 then throw (mkError ApiError ("Database not found: " +++ database))
  else
    s <- getSession ;;
    match s with
    | None => throw notAuthenticated
    | Some current =>
        setSession (Some (AuthSession.mk (AuthSession.host current) (AuthSession.port current)
                            (AuthSession.user current) (Some database)
                            (AuthSession.ssl current))) ;;;
        ret (UseDatabaseResult.mk ("Default database set to " +++ database) database true)
    end.

End Gateway.

(** ** Argument validators (part_001) *)

Declare Scope result_scope.
Delimit Scope result_scope with result.
Notation "x <~ r ;; k" := (rbind r (fun x => k))
  (at level 61, r at next level, right associativity) : result_scope.

Definition invalid (text : string) : Error := mkError ValidationError text.

(** Modelled from the spec: [requireObject] of validators/common.ts, which is
    not among the sources.  Section 4.3: a required field has to be present
    and of the expected container shape, and the failure is a Validation error
    naming the field. *)
Definition requireObject (value : option Value) (parameter : string) : Result Fields :=
  match value with
  | None => Err (invalid ("Missing required parameter: " +++ parameter))
  | Some (VObj entries) => Ok entries
  | Some _ => Err (invalid ("Invalid parameter: " +++ parameter +++ " must be an object"))
  end.

(** Modelled from the spec: [requireString] of validators/common.ts.  Section
    4.3: the validator confirms that the field is a non-empty string. *)
Definition requireString (value : option Value) (parameter : string) : Result string :=
  match value with
  | None => Err (invalid ("Missing required parameter: " +++ parameter))
  | Some (VStr s) =>
      if Str.truthy s then Ok s
      else Err (invalid ("Missing required parameter: " +++ parameter))
  | Some _ => Err (invalid ("Invalid parameter: " +++ parameter +++ " must be a string"))
  end.

(** Modelled from the spec: [optionalString] of validators/common.ts. *)
Definition optionalString (value : option Value) (parameter : string) : Result (option string) :=
  match value with
  | None => Ok None
  | Some (VStr s) => Ok (Some s)
  | Some _ => Err (invalid ("Invalid parameter: " +++ parameter +++ " must be a string"))
  end.

(** Modelled from the spec: [optionalInteger] of validators/common.ts. *)
Definition optionalInteger (value : option Value) (parameter : string) : Result (option Z) :=
  match value with
  | None => Ok None
  | Some (VNum n) => Ok (Some n)
  | Some _ => Err (invalid ("Invalid parameter: " +++ parameter +++ " must be an integer"))
  end.

(** Modelled from the spec: [assertStringArray] of validators/common.ts
    ("[columns], when present, must be a sequence of strings"). *)
Definition assertStringArray (value : Value) (parameter : string) : Result (list string) :=
  match value with
  | VArr items =>
      mapR (fun item =>
              match item with
              | VStr s => Ok s
              | _ => Err (invalid ("Invalid parameter: " +++ parameter
                                   +++ " must be an array of strings"))
              end) items
  | _ => Err (invalid ("Invalid parameter: " +++ parameter +++ " must be an array of strings"))
  end.

Definition isDirection (token : string) : bool :=
  String.eqb (Str.toUpperCase token) "ASC" || String.eqb (Str.toUpperCase token) "DESC".

Definition orderByFormat : Error :=
  invalid "Invalid parameter: orderBy must be in format column or column ASC|DESC".

(** Modelled from the spec: [parseOrderBy] of validators/collections.ts, which
    is not among the sources.  Section 4.2: the expression is split on white
    space; more than two tokens, a direction token that is present but is not
    ASC or DESC in any case, or a column that fails identifier validation is a
    Validation error.  An accepted expression is handed on as it is. *)
Definition parseOrderBy (value : string) : Result string :=
  let tokens := Str.splitWhitespace value in
  if Nat.ltb 2 (length tokens) then Err orderByFormat
  else
    match nth_error tokens 1 with
    | Some direction =>
        if isDirection direction
        then rbind (assertIdentifier (hd "" tokens) "orderBy") (fun _ => Ok value)
        else Err orderByFormat
    | None => rbind (assertIdentifier (hd "" tokens) "orderBy") (fun _ => Ok value)
    end.

Section Validators.
Local Open Scope result_scope.

Definition parseWhere (value : option Value) (parameter : string) : Result (option Fields) :=
  match value with
  | None => Ok None
  | Some _ =>
      where_ <~ requireObject value parameter ;;
      if Nat.eqb (length where_) 0
      then Err (invalid ("Invalid parameter: " +++ parameter +++ " cannot be an empty object"))
      else Ok (Some where_)
  end.

Definition parseSelectRowsArgs (args : Fields) : Result SelectRowsArgs.t :=
  table <~ requireString (prop "table" args) "table" ;;
  database <~ optionalString (prop "database" args) "database" ;;
  columns <~ match prop "columns" args with
             | None => Ok None
             | Some v => cs <~ assertStringArray v "columns" ;; Ok (Some cs)
             end ;;
  where_ <~ parseWhere (prop "where" args) "where" ;;
  raw <~ optionalString (prop "orderBy" args) "orderBy" ;;
  orderBy <~ match raw with
             | None => Ok None
             | Some expression => e <~ parseOrderBy expression ;; Ok (Some e)
             end ;;
  limit <~ optionalInteger (prop "limit" args) "limit" ;;
  _ <~ match limit with
       | Some n =>
           if Z.ltb n 1 then Err (invalid "Invalid parameter: limit must be greater than 0")
           else Ok tt
       | None => Ok tt
       end ;;
  offset <~ optionalInteger (prop "offset" args) "offset" ;;
  _ <~ match offset with
       | Some k =>
           if Z.ltb k 0 then Err (invalid "Invalid parameter: offset must be 0 or greater")
           else Ok tt
       | None => Ok tt
       end ;;
  Ok (SelectRowsArgs.mk table database columns where_ orderBy limit offset).

Definition parseInsertRowArgs (args : Fields) : Result InsertRowArgs.t :=
  table <~ requireString (prop "table" args) "table" ;;
  database <~ optionalString (prop "database" args) "database" ;;
  data <~ requireObject (prop "data" args) "data" ;;
  Ok (InsertRowArgs.mk table database data).

Definition whereCannotBeEmpty : Error :=
  invalid "Invalid parameter: where cannot be an empty object".

Definition parseUpdateRowsArgs (args : Fields) : Result UpdateRowsArgs.t :=
  where_ <~ requireObject (prop "where" args) "where" ;;
  if Nat.eqb (length where_) 0 then Err whereCannotBeEmpty
  else
    table <~ requireString (prop "table" args) "table" ;;
    database <~ optionalString (prop "database" args) "database" ;;
    data <~ requireObject (prop "data" args) "data" ;;
    Ok (UpdateRowsArgs.mk table database data where_).

Definition parseDeleteRowsArgs (args : Fields) : Result DeleteRowsArgs.t :=
  where_ <~ requireObject (prop "where" args) "where" ;;
  if Nat.eqb (length where_) 0 then Err whereCannotBeEmpty
  else
    table <~ requireString (prop "table" args) "table" ;;
    database <~ optionalString (prop "database" args) "database" ;;
    Ok (DeleteRowsArgs.mk table database where_).

Definition parseExecuteSqlArgs (args : Fields) : Result ExecuteSqlArgs.t :=
  sql <~ requireString (prop "sql" args) "sql" ;;
  database <~ optionalString (prop "database" args) "database" ;;
  params <~ match prop "params" args with
            | None => Ok None
            | Some (VArr items) => Ok (Some items)
            | Some _ => Err (invalid "Invalid parameter: params must be an array")
            end ;;
  Ok (ExecuteSqlArgs.mk sql params database).

End Validators.

(** ** Record tool handlers (src/tool-handlers/records.ts)

    [async (args) => api.selectRows(parseSelectRowsArgs(args))]: the
    validator runs first, and its exception rejects the call before the
    gateway is entered. *)

Section Handlers.
Context {World : Type} (driver : Driver World).
Local Open Scope api_scope.

Definition select_rows (args : Fields) : M World SelectResult.t :=
  parsed <- liftR (parseSelectRowsArgs args) ;; selectRows driver parsed.

Definition insert_row (args : Fields) : M World InsertResult.t :=
  parsed <- liftR (parseInsertRowArgs args) ;; insertRow driver parsed.

Definition update_rows (args : Fields) : M World Z :=
  parsed <- liftR (parseUpdateRowsArgs args) ;; updateRows driver parsed.

Definition delete_rows (args : Fields) : M World Z :=
  parsed <- liftR (parseDeleteRowsArgs args) ;; deleteRows driver parsed.

Definition execute_sql (args : Fields) : M World ExecuteResult :=
  parsed <- liftR (parseExecuteSqlArgs args) ;; executeSql driver parsed.

End Handlers.

(** ** Sequences of calls

    The calls a client can make on one [MySqlApi] instance, and the state the
    instance is left in after a sequence of them. *)

Inductive Request : Type :=
| ReqAuthMySql (args : MySqlAuthArgs.t)
| ReqGetAuthStatus
| ReqLogout
| ReqHealth
| ReqListDatabases
| ReqListTables (database : option string)
| ReqDescribeTable (args : DescribeTableArgs.t)
| ReqUseDatabase (args : UseDatabaseArgs.t)
| ReqSelectRows (args : SelectRowsArgs.t)
| ReqInsertRow (args : InsertRowArgs.t)
| ReqUpdateRows (args : UpdateRowsArgs.t)
| ReqDeleteRows (args : DeleteRowsArgs.t)
| ReqExecuteSql (args : ExecuteSqlArgs.t).

Definition after {World A : Type} (c : M World A) (m : Machine World) : Machine World :=
  snd (c m).

Definition serve {World : Type} (driver : Driver World) (r : Request)
  (m : Machine World) : Machine World :=
  match r with
  | ReqAuthMySql args => after (authMySql driver args) m
  | ReqGetAuthStatus => after getAuthStatus m
  | ReqLogout => after (logout driver) m
  | ReqHealth => after (health driver) m
  | ReqListDatabases => after (listDatabases driver) m
  | ReqListTables database => after (listTables driver database) m
  | ReqDescribeTable args => after (describeTable driver args) m
  | ReqUseDatabase args => after (useDatabase driver args) m
  | ReqSelectRows args => after (selectRows driver args) m
  | ReqInsertRow args => after (insertRow driver args) m
  | ReqUpdateRows args => after (updateRows driver args) m
  | ReqDeleteRows args => after (deleteRows driver args) m
  | ReqExecuteSql args => after (executeSql driver args) m
  end.

Definition serveAll {World : Type} (driver : Driver World) (rs : list Request)
  (m : Machine World) : Machine World :=
  fold_left (fun state r => serve driver r state) rs m.

(** ** A small server to run the methods on

    The server knows a list of schemas and may be down.  The catalog lookup
    of [useDatabase] answers from the list of schemas; any statement whose
    text is [BOOM] is rejected. *)

Module Demo.

Record server : Type := mkServer { schemas : list string; up : bool; handles : nat }.

Definition refused : Error := mkError DriverError "connect ECONNREFUSED".

Definition sample : Fields := [("id", VNum 1); ("email", VStr "admin@example.com")].

Definition answer (sql : string) (values : list Value) (w : server) : list Fields :=
  if String.eqb sql useDatabaseSql then
    match values with
    | [VStr name] =>
        if existsb (String.eqb name) (schemas w) then [[("name", VStr name)]] else []
    | _ => []
    end
  else [sample].

Definition driver : Driver server :=
  mkDriver server
    (fun _ w => (Ok (PoolHandle (handles w)), mkServer (schemas w) (up w) (S (handles w))))
    (fun _ w => (Ok tt, w))
    (fun _ sql values w =>
       if up w then
         if String.eqb sql "BOOM" then (Err (mkError DriverError "syntax error"), w)
         else (Ok (answer sql values w), w)
       else (Err refused, w))
    (fun _ sql _ w =>
       if up w then (Ok (ResultSetHeader.mk 1 1 42), w) else (Err refused, w))
    (fun _ w =>
       if up w then (Ok (ConnectionHandle (handles w)), mkServer (schemas w) (up w) (S (handles w)))
       else (Err refused, w))
    (fun _ sql values w =>
       if String.eqb sql "BOOM" then (Err (mkError DriverError "syntax error"), w)
       else (Ok (Rows (answer sql values w)), w))
    (fun _ w => (Ok tt, w)).

Definition online : server := mkServer ["shop"; "analytics"] true 0.
Definition offline : server := mkServer ["shop"] false 0.

(** A fresh [MySqlApi] instance. *)
Definition fresh (w : server) : Machine server := mkMachine None None w [].

(** An instance that authenticated as root on [shop]. *)
Definition loggedIn (w : server) : Machine server :=
  mkMachine (Some (PoolHandle 0))
    (Some (AuthSession.mk "127.0.0.1" 3306 "root" (Some "shop") false)) w [].

Definition rootArgs : MySqlAuthArgs.t :=
  MySqlAuthArgs.mk "127.0.0.1" None "root" "secret" (Some "shop") None.

End Demo.

(** ** A driver whose pool cannot be ended

    Ending a pool and releasing a connection throw; statements on a
    connection answer with a header. *)

Module Stuck.

Definition busy : Error := mkError DriverError "Pool is closed.".

Definition driver : Driver unit :=
  mkDriver unit
    (fun _ w => (Ok (PoolHandle 1), w))
    (fun _ w => (Err busy, w))
    (fun _ _ _ w => (Ok [], w))
    (fun _ _ _ w => (Ok (ResultSetHeader.mk 0 0 0), w))
    (fun _ w => (Ok (ConnectionHandle 1), w))
    (fun _ _ _ w => (Ok (Header (ResultSetHeader.mk 3 2 0)), w))
    (fun _ w => (Err busy, w)).

Definition loggedIn : Machine unit :=
  mkMachine (Some (PoolHandle 0))
    (Some (AuthSession.mk "db.internal" 3307 "app" None true)) tt [].

End Stuck.

(** ** Resources (part_000, lines 425-436 and 471-485) *)

Module ResourceInfo.
Record t : Type := mk {
  uri : string;
  name : string;
  description : string;
  mimeType : string
}.
End ResourceInfo.

Module ResourceContent.
Record t : Type := mk { uri : string; mimeType : string; text : string }.
End ResourceContent.

(** The pattern that matches exactly the string [s]. *)
Fixpoint regexLiteral (s : string) : Regex.re :=
  match s with
  | EmptyString => Regex.Empty
  | String c rest => Regex.Seq (Regex.Class (Ascii.eqb c)) (regexLiteral rest)
  end.

(** [r+] *)
Definition regexPlus (r : Regex.re) : Regex.re := Regex.Seq r (Regex.Star r).

(** [[^/]] *)
Definition notSlash (c : ascii) : bool := negb (Ascii.eqb c "/").

Definition resourcePrefix : string := "mysql://table/".

(** [/^mysql:\/\/table\/([^/]+)\/([^/]+)$/] without its groups. *)
Definition resourcePattern : Regex.re :=
  Regex.Seq (regexLiteral resourcePrefix)
    (Regex.Seq (regexPlus (Regex.Class notSlash))
       (Regex.Seq (Regex.Class (Ascii.eqb "/")) (regexPlus (Regex.Class notSlash)))).

Fixpoint stripPrefix (prefix s : string) : option string :=
  match prefix, s with
  | EmptyString, _ => Some s
  | String a p, String b r => if Ascii.eqb a b then stripPrefix p r else None
  | String _ _, EmptyString => None
  end.

(** The text before the first slash of [s] and, when there is a slash, the
    text after it. *)
Fixpoint untilSlash (s : string) : string * option string :=
  match s with
  | EmptyString => (EmptyString, None)
  | String c r =>
      if Ascii.eqb c "/" then (EmptyString, Some r)
      else let (head, tail) := untilSlash r in (String c head, tail)
  end.

(** [uri.match(pattern)]: [None] is [null]; otherwise the two groups.  Neither
    group can hold a slash, so the groups of a matching string are the text
    between the prefix and the next slash, and the text after that slash. *)
Definition matchResourceUri (uri : string) : option (string * string) :=
  if Regex.test resourcePattern uri then
    match stripPrefix resourcePrefix uri with
    | Some rest =>
        match untilSlash rest with
        | (database, Some table) => Some (database, table)
        | (_, None) => None
        end
    | None => None
    end
  else None.

Definition resourceOf (table : TableInfo.t) : ResourceInfo.t :=
  ResourceInfo.mk
    ("mysql://table/" +++ TableInfo.database table +++ "/" +++ TableInfo.name table)
    (TableInfo.database table +++ "." +++ TableInfo.name table)
    ("MySQL table " +++ TableInfo.database table +++ "." +++ TableInfo.name table)
    "application/json".

Section Resources.
Context {World : Type} (driver : Driver World).

(** [JSON.stringify(result, null, 2)] is left as a parameter: the properties
    below hold whatever text it produces. *)
Variable stringify : DescribeResult.t -> string.

Local Open Scope api_scope.

Definition listResources : M World (list ResourceInfo.t) :=
  s <- getSession ;;
  tables <- listTables driver (sessionDatabase s) ;;
  ret (map resourceOf tables).

Definition readResource (uri : string) : M World ResourceContent.t :=
  match matchResourceUri uri with
  | None => throw (mkError ValidationError "Invalid resource URI")
  | Some (database, table) =>
      result <- describeTable driver (DescribeTableArgs.mk table (Some database)) ;;
      ret (ResourceContent.mk uri "application/json" (stringify result))
  end.

End Resources.

(** ** Shapes used in the statements *)

(** The strings of [[A-Za-z_][A-Za-z0-9_]*], code unit by code unit. *)
Definition identifierShape (s : string) : Prop :=
  match s with
  | EmptyString => False
  | String c rest =>
      identifierHead c = true /\
      Forall (fun x => identifierTail x = true) (Str.chars rest)
  end.

Definition startsWithDigit (s : string) : Prop :=
  exists d rest, s = String d rest /\ Str.isDigit d = true.

(** One condition of a WHERE clause, as the specification words it. *)
Definition condition (entry : string * Value) : string :=
  ("`" +++ fst entry +++ "`") +++ (if isNull (snd entry) then " IS NULL" else " = ?").

(** The values of a filter that are bound: those that are not null. *)
Definition boundValues (entries : Fields) : list Value :=
  filter (fun v => negb (isNull v)) (map snd entries).

Definition validKeys (entries : Fields) : Prop :=
  Forall (fun entry => identifierShape (fst entry)) entries.

(** The text and the bound values that pagination adds to a select. *)
Definition pagingSql (limit offset : option Z) : string :=
  (match limit with Some _ => " LIMIT ?" | None => "" end)
    +++ (match offset with Some _ => " OFFSET ?" | None => "" end).

Definition pagingValues (limit offset : option Z) : list Value :=
  (match limit with Some n => [VNum n] | None => [] end)
    ++ (match offset with Some k => [VNum k] | None => [] end).

Definition selectSql (columns tableRef whereSql orderBySql : string)
  (limit offset : option Z) : string :=
  "SELECT " +++ columns +++ " FROM " +++ tableRef +++ whereSql +++ orderBySql
    +++ pagingSql limit offset.

(** The fields of the instance agree: a session is recorded exactly when a
    pool is held. *)
Definition coherent {World : Type} (m : Machine World) : Prop :=
  pool m = None <-> session m = None.

Definition isConnectionQuery (c : Connection) (call : Call) : Prop :=
  exists sql values, call = CallConnectionQuery c sql values.

Definition withDatabase (s : AuthSession.t) (name : string) : AuthSession.t :=
  AuthSession.mk (AuthSession.host s) (AuthSession.port s) (AuthSession.user s)
    (Some name) (AuthSession.ssl s).

(** A computation that leaves [this.pool] and [this.session] as they are. *)
Definition preservesSession {World A : Type} (c : M World A) : Prop :=
  forall m, pool (snd (c m)) = pool m /\ session (snd (c m)) = session m.

(** A computation whose driver calls all satisfy [P]. *)
Definition logsOnly {World A : Type} (P : Call -> Prop) (c : M World A) : Prop :=
  forall m, exists made, calls (snd (c m)) = calls m ++ made /\ Forall P made.

(** [authMySql] has closed the pool it held, if any, without an exception,
    and the world is [w1] afterwards. *)
Definition priorClosed {World : Type} (driver : Driver World) (m : Machine World)
  (w1 : World) : Prop :=
  match pool m with
  | Some p => poolEnd driver p (world m) = (Ok tt, w1)
  | None => w1 = world m
  end.

(** From the world [w1], pool creation throws [cause], or the pool is created
    and the liveness probe throws [cause]. *)
Definition attemptFails {World : Type} (driver : Driver World) (options : PoolOptions.t)
  (w1 : World) (cause : Error) : Prop :=
  (exists w2, createPool driver options w1 = (Err cause, w2)) \/
  (exists p w2 w3,
      createPool driver options w1 = (Ok p, w2) /\
      poolQuery driver p "SELECT 1" [] w2 = (Err cause, w3)).

(** A result that, when it is an exception, is a ValidationError. *)
Definition validationOnly {A : Type} (r : Result A) : Prop :=
  forall e, r = Err e -> kind e = ValidationError.

(** A string without white space. *)
Definition spaceFree (s : string) : Prop :=
  Forall (fun c => Str.isSpace c = false) (Str.chars s).

(** The number of [?] placeholders in a statement. *)
Fixpoint placeholders (s : string) : nat :=
  match s with
  | EmptyString => 0
  | String c rest => (if Ascii.eqb c "?" then 1 else 0) + placeholders rest
  end.

(** A validated identifier between backticks. *)
Definition quote (identifier : string) : string := "`" +++ identifier +++ "`".


Definition updateSql (tableRef : string) (data where_ : Fields) : string :=
  "UPDATE " +++ tableRef +++ " SET "
    +++ Str.join ", " (map (fun e => quote (fst e) +++ " = ?") data)
    +++ " WHERE " +++ Str.join " AND " (map condition where_).

Definition deleteSql (tableRef : string) (where_ : Fields) : string :=
  "DELETE FROM " +++ tableRef +++ " WHERE " +++ Str.join " AND " (map condition where_).

(** The port a session records for the port given to [authMySql]. *)
Definition sessionPort (port : option Z) : Z :=
  match port with
  | None => 3306%Z
  | Some n => if Z.eqb n 0 then 3306%Z else n
  end.

Definition closesPrior {World : Type} (m : Machine World) : list Call :=
  match pool m with
  | Some old => [CallPoolEnd old]
  | None => []
  end.

Definition slashFree (s : string) : Prop :=
  Forall (fun c => notSlash c = true) (Str.chars s).

(** What [executeSql] resolves to for the result [r] of the statement. *)
Definition classify (sql : string) (database : option string) (r : QueryResult)
  : ExecuteResult :=
  match r with
  | Rows items => QueryMode sql database (Z.of_nat (length items)) items
  | Header h =>
      MutationMode sql database (ResultSetHeader.affectedRows h)
        (ResultSetHeader.changedRows h) (ResultSetHeader.insertId h)
  end.

(** The entry [listTables] makes of a catalog row. *)
Definition tableOfRow (row : Fields) : TableInfo.t :=
  TableInfo.mk (jsStringU (prop "databaseName" row)) (jsStringU (prop "tableName" row))
    (jsStringU (prop "tableType" row)).

(** A string of code units below 128. *)
Definition asciiOnly (s : string) : Prop :=
  Forall (fun c => Str.code c < 128) (Str.chars s).

(** [Number.isSafeInteger]: the integers of magnitude at most 2^53 - 1. *)
Definition safeInteger (n : Z) : Prop := (Z.abs n < 2 ^ 53)%Z.

(** A value whose numbers, at any depth of arrays, are safe integers. *)
Fixpoint plain (v : Value) : Prop :=
  match v with
  | VNum n => safeInteger n
  | VArr items =>
      (fix each (l : list Value) : Prop :=
         match l with
         | [] => True
         | x :: rest => plain x /\ each rest
         end) items
  | _ => True
  end.

(** A row of such values. *)
Definition plainRow (row : Fields) : Prop :=
  Forall (fun entry => plain (snd entry)) row.

(** * Properties *)

(** ** Strings *)

Lemma append_empty_r (s : string) : s +++ "" = s.
Proof. induction s as [|c s IH]; simpl; [reflexivity | now rewrite IH]. Qed.

Lemma append_eq_empty (u v : string) : u +++ v = "" -> u = "" /\ v = "".
Proof. destruct u; simpl; [auto | discriminate]. Qed.

Lemma append_assoc (u v w : string) : (u +++ v) +++ w = u +++ v +++ w.
Proof. induction u as [|c u IH]; simpl; [reflexivity | now rewrite IH]. Qed.

Lemma chars_append (u v : string) : Str.chars (u +++ v) = Str.chars u ++ Str.chars v.
Proof. induction u as [|c u IH]; simpl; [reflexivity | now rewrite IH]. Qed.

Lemma of_chars (s : string) : string_of_list_ascii (Str.chars s) = s.
Proof. apply string_of_list_ascii_of_string. Qed.

(** ** The matcher decides the language of the pattern *)

Lemma nullable_lang (r : Regex.re) : Regex.nullable r = true <-> Regex.lang r "".
Proof.
  split.
  - induction r; simpl; intros H; try discriminate.
    + constructor.
    + apply andb_true_iff in H as [H1 H2].
      change "" with ("" +++ ""). constructor; auto.
    + apply orb_true_iff in H as [H | H].
      * apply Regex.LAltL; auto.
      * apply Regex.LAltR; auto.
    + constructor.
  - intros H. remember "" as s eqn:E.
    induction H; simpl; try discriminate; auto.
    + apply append_eq_empty in E as [-> ->].
      rewrite IHlang1, IHlang2; auto.
    + rewrite IHlang; auto.
    + rewrite IHlang, orb_true_r; auto.
Qed.

Lemma deriv_sound (c : ascii) (r : Regex.re) :
  forall s, Regex.lang (Regex.deriv c r) s -> Regex.lang r (String c s).
Proof.
  induction r as [| |p|r1 IH1 r2 IH2|r1 IH1 r2 IH2|r IH]; simpl; intros s H.
  - inversion H.
  - inversion H.
  - destruct (p c) eqn:P; inversion H; subst. now constructor.
  - destruct (Regex.nullable r1) eqn:N.
    + inversion H as [| | | ? ? ? H1 | ? ? ? H1 | |]; subst.
      * inversion H1; subst.
        change (String c (u +++ v)) with (String c u +++ v).
        constructor; auto.
      * change (String c s) with ("" +++ String c s).
        constructor; [now apply nullable_lang | auto].
    + inversion H; subst.
      change (String c (u +++ v)) with (String c u +++ v).
      constructor; auto.
  - inversion H; subst; [apply Regex.LAltL | apply Regex.LAltR]; auto.
  - inversion H; subst.
    change (String c (u +++ v)) with (String c u +++ v).
    apply Regex.LStarCons; auto.
Qed.

Lemma deriv_complete (c : ascii) (r : Regex.re) (t : string) :
  Regex.lang r t -> forall s, t = String c s -> Regex.lang (Regex.deriv c r) s.
Proof.
  induction 1 as [|p d P|r1 r2 u v H1 IH1 H2 IH2|r1 r2 u H IH|r1 r2 u H IH
                 |r|r u v H1 IH1 H2 IH2]; intros s E; simpl.
  - discriminate.
  - injection E as -> <-. rewrite P. constructor.
  - destruct u as [|d u]; simpl in E.
    + apply nullable_lang in H1. rewrite H1.
      apply Regex.LAltR. auto.
    + injection E as -> <-.
      destruct (Regex.nullable r1).
      * apply Regex.LAltL. constructor; auto.
      * constructor; auto.
  - apply Regex.LAltL; auto.
  - apply Regex.LAltR; auto.
  - discriminate.
  - destruct u as [|d u]; simpl in E.
    + apply (IH2 s E).
    + injection E as -> <-. constructor; auto.
Qed.

Lemma test_lang (s : string) : forall r, Regex.test r s = true <-> Regex.lang r s.
Proof.
  induction s as [|c s IH]; intros r; simpl.
  - apply nullable_lang.
  - rewrite IH. split.
    + apply deriv_sound.
    + intros H. now apply (deriv_complete c r (String c s)).
Qed.

Lemma lang_star_class (p : ascii -> bool) (s : string) :
  Regex.lang (Regex.Star (Regex.Class p)) s <-> Forall (fun x => p x = true) (Str.chars s).
Proof.
  split.
  - intros H. remember (Regex.Star (Regex.Class p)) as r eqn:E.
    induction H; try discriminate.
    + constructor.
    + injection E as ->. inversion H; subst. simpl.
      constructor; auto.
  - induction s as [|c s IH]; simpl; intros H.
    + constructor.
    + inversion H; subst.
      change (String c s) with (String c "" +++ s).
      apply Regex.LStarCons; [now constructor | auto].
Qed.

Lemma lang_identifier (s : string) : Regex.lang identifierPattern s <-> identifierShape s.
Proof.
  unfold identifierPattern. split.
  - intros H. inversion H as [| |? ? ? ? H1 H2| | | |]; subst.
    inversion H1; subst. simpl. split; [assumption | now apply lang_star_class].
  - destruct s as [|c s]; simpl; [tauto | intros [Hc Hs]].
    change (String c s) with (String c "" +++ s).
    constructor; [now constructor | now apply lang_star_class].
Qed.

Lemma assertIdentifier_ok (value field : string) :
  identifierShape value -> assertIdentifier value field = Ok value.
Proof.
  intros H. unfold assertIdentifier.
  apply lang_identifier, test_lang in H. now rewrite H.
Qed.

Lemma assertIdentifier_err (value field : string) :
  ~ identifierShape value -> assertIdentifier value field = Err (invalidIdentifier field).
Proof.
  intros H. unfold assertIdentifier.
  destruct (Regex.test identifierPattern value) eqn:T; [|reflexivity].
  apply test_lang, lang_identifier in T. contradiction.
Qed.

Lemma assertIdentifier_inv (value field v : string) :
  assertIdentifier value field = Ok v -> v = value /\ identifierShape value.
Proof.
  unfold assertIdentifier.
  destruct (Regex.test identifierPattern value) eqn:T; simpl; [|discriminate].
  intros E. injection E as <-. split; [reflexivity|].
  now apply lang_identifier, test_lang.
Qed.

Lemma escapeIdentifier_ok (value field : string) :
  identifierShape value -> escapeIdentifier value field = Ok ("`" +++ value +++ "`").
Proof.
  intros H. unfold escapeIdentifier. now rewrite (assertIdentifier_ok _ _ H).
Qed.

Lemma escapeIdentifier_err (value field : string) :
  ~ identifierShape value -> escapeIdentifier value field = Err (invalidIdentifier field).
Proof.
  intros H. unfold escapeIdentifier. now rewrite (assertIdentifier_err _ _ H).
Qed.

Lemma escapeIdentifier_inv (value field q : string) :
  escapeIdentifier value field = Ok q -> q = "`" +++ value +++ "`" /\ identifierShape value.
Proof.
  unfold escapeIdentifier.
  destruct (assertIdentifier value field) as [v|e] eqn:A; simpl; [|discriminate].
  apply assertIdentifier_inv in A as [-> S]. intros E. injection E as <-. auto.
Qed.

Lemma escapeIdentifier_kind (value field : string) (e : Error) :
  escapeIdentifier value field = Err e -> kind e = ValidationError.
Proof.
  unfold escapeIdentifier, assertIdentifier.
  destruct (Regex.test identifierPattern value); simpl; [discriminate|].
  intros E. now injection E as <-.
Qed.

Lemma assertIdentifier_kind (value field : string) (e : Error) :
  assertIdentifier value field = Err e -> kind e = ValidationError.
Proof.
  unfold assertIdentifier.
  destruct (Regex.test identifierPattern value); simpl; [discriminate|].
  intros E. now injection E as <-.
Qed.

Lemma shape_chars (s : string) (c : ascii) :
  identifierShape s -> In c (Str.chars s) -> identifierTail c = true.
Proof.
  destruct s as [|h rest]; simpl; [tauto|].
  intros [Hh Hr] [<- | Hin].
  - unfold identifierHead in Hh. unfold identifierTail.
    apply orb_true_iff in Hh as [Hh | Hh].
    + apply orb_true_iff in Hh as [Hh | Hh]; rewrite Hh; simpl;
        rewrite ?orb_true_r; reflexivity.
    + rewrite Hh. now rewrite !orb_true_r.
  - rewrite Forall_forall in Hr. auto.
Qed.

Lemma digit_not_head (c : ascii) : Str.isDigit c = true -> identifierHead c = false.
Proof.
  unfold identifierHead, Str.isDigit, Str.isUpper, Str.isLower, Str.isUnderscore, Str.between.
  intros H. apply andb_true_iff in H as [H1 H2].
  apply Nat.leb_le in H1, H2.
  repeat match goal with
         | |- context [Nat.leb ?a ?b] => destruct (Nat.leb_spec a b)
         | |- context [Nat.eqb ?a ?b] => destruct (Nat.eqb_spec a b)
         end; simpl; try reflexivity; lia.
Qed.

(** C1.  Every string of the language of [^[A-Za-z_][A-Za-z0-9_]*$] passes
    [assertIdentifier] unchanged and is quoted by [escapeIdentifier] as
    itself between two backticks; the empty string, every string that holds a
    backtick, a space or a dot, and every string that starts with a digit is
    rejected by both with a ValidationError whose message names the field. *)
Theorem identifier_validation (value field : string) :
  (Regex.lang identifierPattern value ->
     assertIdentifier value field = Ok value /\
     escapeIdentifier value field = Ok ("`" +++ value +++ "`"))
  /\
  (value = "" \/ In "`"%char (Str.chars value) \/ In " "%char (Str.chars value) \/
   In "."%char (Str.chars value) \/ startsWithDigit value ->
     let rejected :=
       mkError ValidationError
         ("Invalid parameter: " +++ field +++
          " must contain only letters, numbers, and underscore") in
     assertIdentifier value field = Err rejected /\
     escapeIdentifier value field = Err rejected).
Proof.
  split.
  - intros H. apply lang_identifier in H. split.
    + now apply assertIdentifier_ok.
    + now apply escapeIdentifier_ok.
  - intros H rejected.
    assert (N : ~ identifierShape value).
    { intros S.
      destruct H as [-> | [H | [H | [H | (d & rest & -> & D)]]]].
      - exact S.
      - apply (shape_chars _ _ S) in H. discriminate.
      - apply (shape_chars _ _ S) in H. discriminate.
      - apply (shape_chars _ _ S) in H. discriminate.
      - destruct S as [Hh _]. rewrite (digit_not_head _ D) in Hh. discriminate. }
    split.
    + now apply assertIdentifier_err.
    + now apply escapeIdentifier_err.
Qed.

Lemma identifier_validation_witness :
  (assertIdentifier "order_items2" "table" = Ok "order_items2" /\
   escapeIdentifier "order_items2" "table" = Ok "`order_items2`") /\
  (assertIdentifier "a`; DROP" "table"
   = Err (mkError ValidationError
            "Invalid parameter: table must contain only letters, numbers, and underscore")).
Proof.
  split.
  - apply (proj1 (identifier_validation "order_items2" "table")).
    apply lang_identifier. simpl. repeat constructor.
  - apply (proj2 (identifier_validation "a`; DROP" "table")).
    right. left. simpl. auto.
Defined.

(** ** The WHERE clause *)

Lemma whereLoop_valid (entries : Fields) :
  validKeys entries ->
  forall parts values,
    whereLoop entries parts values
    = Ok (parts ++ map condition entries, values ++ boundValues entries).
Proof.
  induction 1 as [|[key value] rest Hk Hrest IH]; intros parts values; simpl.
  - now rewrite !app_nil_r.
  - simpl in Hk. rewrite (escapeIdentifier_ok _ _ Hk). simpl.
    unfold boundValues, condition. simpl.
    destruct (isNull value) eqn:N; simpl; rewrite IH, <- !app_assoc; reflexivity.
Qed.

Lemma whereLoop_invalid (entries : Fields) :
  ~ validKeys entries ->
  forall parts values,
    exists key, In key (map fst entries) /\ ~ identifierShape key /\
      whereLoop entries parts values = Err (invalidIdentifier ("where." +++ key)).
Proof.
  induction entries as [|[key value] rest IH]; intros N parts values.
  - exfalso. apply N. constructor.
  - cbn [whereLoop map fst].
    destruct (escapeIdentifier key ("where." +++ key)) as [q|e] eqn:E; cbn [rbind].
    + apply escapeIdentifier_inv in E as [-> S].
      assert (N' : ~ validKeys rest).
      { intros V. apply N. constructor; assumption. }
      destruct (isNull value);
        match goal with
        | |- context [whereLoop rest ?ps ?vs] =>
            destruct (IH N' ps vs) as (k & Hin & Hk & ->)
        end;
        exists k; simpl; auto.
    + exists key.
      assert (S : ~ identifierShape key).
      { intros S. rewrite (escapeIdentifier_ok _ _ S) in E. discriminate. }
      rewrite (escapeIdentifier_err _ _ S) in E. injection E as <-. simpl. auto.
Qed.

(** C5.  [buildWhereClause] of an absent or empty filter is the empty text
    with no bound value.  Of a non-empty filter whose keys are identifiers it
    is [" WHERE "] followed by the conditions joined by [" AND "] in iteration
    order, a condition being the backtick-quoted key followed by [" = ?"], or
    by [" IS NULL"] when the value is null, and the bound values are the
    non-null values in order.  Every key goes through identifier validation: a
    filter with a key that is not an identifier is rejected with the
    ValidationError of that key. *)
Theorem buildWhereClause_spec :
  buildWhereClause None = Ok (WhereClause.mk "" []) /\
  buildWhereClause (Some []) = Ok (WhereClause.mk "" []) /\
  buildWhereClause (Some [("a", VNum 1); ("b", VNull)])
  = Ok (WhereClause.mk " WHERE `a` = ? AND `b` IS NULL" [VNum 1]) /\
  (forall entries : Fields,
      entries <> [] ->
      (validKeys entries ->
         buildWhereClause (Some entries)
         = Ok (WhereClause.mk (" WHERE " +++ Str.join " AND " (map condition entries))
                 (boundValues entries))) /\
      (~ validKeys entries ->
         exists key, In key (map fst entries) /\ ~ identifierShape key /\
           buildWhereClause (Some entries)
           = Err (mkError ValidationError
                    ("Invalid parameter: where." +++ key +++
                     " must contain only letters, numbers, and underscore")))).
Proof.
  repeat split; try reflexivity.
  - intros V. unfold buildWhereClause.
    destruct entries as [|e rest]; [contradiction|].
    simpl Nat.eqb. cbv iota.
    rewrite (whereLoop_valid _ V). reflexivity.
  - intros N. unfold buildWhereClause.
    destruct entries as [|e rest]; [contradiction|].
    simpl Nat.eqb. cbv iota.
    destruct (whereLoop_invalid _ N [] []) as (key & Hin & Hk & ->).
    exists key. repeat split; auto.
Qed.

Lemma buildWhereClause_spec_witness :
  buildWhereClause (Some [("status", VStr "paid"); ("deleted_at", VNull); ("id", VNum 7)])
  = Ok (WhereClause.mk " WHERE `status` = ? AND `deleted_at` IS NULL AND `id` = ?"
          [VStr "paid"; VNum 7])
  /\
  exists key, In key ["id"; "a b"] /\ ~ identifierShape key /\
    buildWhereClause (Some [("id", VNum 7); ("a b", VNum 1)])
    = Err (mkError ValidationError
             ("Invalid parameter: where." +++ key +++
              " must contain only letters, numbers, and underscore")).
Proof.
  split.
  - apply (proj1 (proj2 (proj2 (proj2 buildWhereClause_spec))
                    [("status", VStr "paid"); ("deleted_at", VNull); ("id", VNum 7)]
                    ltac:(discriminate))).
    repeat constructor.
  - apply (proj2 (proj2 (proj2 (proj2 buildWhereClause_spec))
                    [("id", VNum 7); ("a b", VNum 1)] ltac:(discriminate))).
    intros V. inversion V as [|? ? _ V']. inversion V' as [|? ? B _].
    simpl in B. destruct B as [_ B]. inversion B as [|? ? C _]. discriminate.
Defined.

(** ** The monad: frame and log rules *)

Section MonadFacts.
Context {World : Type}.

Lemma preserves_ret {A : Type} (a : A) : preservesSession (@ret World A a).
Proof. intros m. split; reflexivity. Qed.

Lemma preserves_throw {A : Type} (e : Error) : preservesSession (@throw World A e).
Proof. intros m. split; reflexivity. Qed.

Lemma preserves_liftR {A : Type} (r : Result A) : preservesSession (@liftR World A r).
Proof. intros m. split; reflexivity. Qed.

Lemma preserves_getPool : preservesSession (@getPool World).
Proof. intros m. split; reflexivity. Qed.

Lemma preserves_getSession : preservesSession (@getSession World).
Proof. intros m. split; reflexivity. Qed.

Lemma preserves_perform {A : Type} (c : Call) (f : World -> Result A * World) :
  preservesSession (perform c f).
Proof. intros m. unfold perform. destruct (f (world m)). split; reflexivity. Qed.

Lemma preserves_bind {A B : Type} (c : M World A) (k : A -> M World B) :
  preservesSession c -> (forall a, preservesSession (k a)) -> preservesSession (bind c k).
Proof.
  intros Hc Hk m. unfold bind.
  specialize (Hc m). destruct (c m) as [[a|e] m1]; simpl in Hc.
  - destruct (Hk a m1) as [P S]. rewrite P, S. exact Hc.
  - exact Hc.
Qed.

Lemma preserves_tryFinally {A : Type} (body : M World A) (final : M World unit) :
  preservesSession body -> preservesSession final -> preservesSession (tryFinally body final).
Proof.
  intros Hb Hf m. unfold tryFinally.
  specialize (Hb m). destruct (body m) as [r m1]; simpl in Hb.
  specialize (Hf m1). destruct (final m1) as [[u|e] m2]; simpl in *;
    destruct Hf as [P S]; rewrite P, S; exact Hb.
Qed.

Lemma logs_ret {A : Type} (P : Call -> Prop) (a : A) : logsOnly P (@ret World A a).
Proof. intros m. exists []. simpl. now rewrite app_nil_r. Qed.

Lemma logs_throw {A : Type} (P : Call -> Prop) (e : Error) : logsOnly P (@throw World A e).
Proof. intros m. exists []. simpl. now rewrite app_nil_r. Qed.

Lemma logs_liftR {A : Type} (P : Call -> Prop) (r : Result A) : logsOnly P (@liftR World A r).
Proof. intros m. exists []. simpl. now rewrite app_nil_r. Qed.

Lemma logs_getSession (P : Call -> Prop) : logsOnly P (@getSession World).
Proof. intros m. exists []. simpl. now rewrite app_nil_r. Qed.

Lemma logs_perform {A : Type} (P : Call -> Prop) (c : Call) (f : World -> Result A * World) :
  P c -> logsOnly P (perform c f).
Proof.
  intros Hc m. exists [c]. unfold perform. destruct (f (world m)). simpl. auto.
Qed.

Lemma logs_bind {A B : Type} (P : Call -> Prop) (c : M World A) (k : A -> M World B) :
  logsOnly P c -> (forall a, logsOnly P (k a)) -> logsOnly P (bind c k).
Proof.
  intros Hc Hk m. unfold bind.
  destruct (Hc m) as (l1 & E1 & F1). destruct (c m) as [[a|e] m1]; simpl in E1.
  - destruct (Hk a m1) as (l2 & E2 & F2). exists (l1 ++ l2).
    rewrite E2, E1, app_assoc. split; [reflexivity | now apply Forall_app].
  - exists l1. auto.
Qed.

Lemma ensure_none {A : Type} (k : Pool -> M World A) (m : Machine World) :
  pool m = None -> bind ensureAuthenticated k m = (Err notAuthenticated, m).
Proof.
  intros H. unfold bind, ensureAuthenticated, getPool, bind. now rewrite H.
Qed.

Lemma ensure_some {A : Type} (k : Pool -> M World A) (m : Machine World) (p : Pool) :
  pool m = Some p -> bind ensureAuthenticated k m = k p m.
Proof.
  intros H. unfold bind, ensureAuthenticated, getPool, bind. now rewrite H.
Qed.

End MonadFacts.

Ltac frame :=
  cbv zeta;
  repeat first
    [ apply preserves_ret | apply preserves_throw | apply preserves_liftR
    | apply preserves_getPool | apply preserves_getSession | apply preserves_perform
    | apply preserves_tryFinally
    | apply preserves_bind; [|intros ?]
    | match goal with
      | |- preservesSession (match ?x with _ => _ end) => destruct x
      end ].

(** ** The session *)

Section SessionFacts.
Context {World : Type} (driver : Driver World).

(** C3.  When [authMySql] has closed the pool it held and then pool creation
    or the liveness probe throws, the call fails with an AuthError whose
    message carries the message of the cause, [this.pool] and [this.session]
    are both cleared, whatever they held before, and [getAuthStatus] reports
    [authenticated: false] with no session. *)
Theorem authenticate_failure (args : MySqlAuthArgs.t) (m : Machine World)
  (w1 : World) (cause : Error) :
  priorClosed driver m w1 ->
  attemptFails driver (authOptions args) w1 cause ->
  let out := authMySql driver args m in
  fst out = Err (mkError AuthError ("MySQL authentication failed: " +++ message cause)) /\
  pool (snd out) = None /\
  session (snd out) = None /\
  fst (getAuthStatus (snd out)) = Ok (AuthStatus.mk false None).
Proof.
  intros Hend Hfail out. subst out. unfold priorClosed, attemptFails in *.
  unfold authMySql, bind, getPool, tryCatch, bind, query, perform, setPool, setSession,
    throw, ret, getAuthStatus, bind, getPool, getSession.
  cbn [pool world session calls fst snd].
  destruct (pool m) as [old|].
  - rewrite Hend. cbn [pool world session calls fst snd].
    destruct Hfail as [(w2 & Hc) | (p & w2 & w3 & Hc & Hq)].
    + rewrite Hc. cbn. auto.
    + rewrite Hc. cbn [pool world session calls fst snd]. rewrite Hq. cbn. auto.
  - subst w1. cbn [pool world session calls fst snd].
    destruct Hfail as [(w2 & Hc) | (p & w2 & w3 & Hc & Hq)].
    + rewrite Hc. cbn. auto.
    + rewrite Hc. cbn [pool world session calls fst snd]. rewrite Hq. cbn. auto.
Qed.

(** C10.  Without a pool [health] does not throw: it resolves to
    [{ok: false, authenticated: false, message: "Not authenticated"}] and
    touches nothing.  With a pool, once the server-time query resolves it
    resolves to [ok: true], [authenticated: true]. *)
Theorem health_spec (m : Machine World) :
  (pool m = None ->
     health driver m
     = (Ok (HealthResponse.mk false false "Not authenticated" None), m)) /\
  (forall p rows w',
      pool m = Some p ->
      poolQuery driver p "SELECT NOW() AS serverTime" [] (world m) = (Ok rows, w') ->
      exists serverTime,
        fst (health driver m)
        = Ok (HealthResponse.mk true true "MySQL connection is healthy" (Some serverTime))).
Proof.
  split.
  - intros H. unfold health, bind, getPool. now rewrite H.
  - intros p rows w' H Q.
    unfold health, bind, getPool, ensureAuthenticated, bind, getPool, query, perform, ret.
    cbn [pool world session calls fst snd].
    rewrite H. cbn [pool world session calls fst snd]. rewrite H, Q.
    cbn [fst]. eexists. reflexivity.
Qed.

(** With a pool, an exception of the server-time query is the outcome of
    [health]: it never resolves to [ok: false] then. *)
Lemma health_propagates (m : Machine World) (p : Pool) (e : Error) (w' : World) :
  pool m = Some p ->
  poolQuery driver p "SELECT NOW() AS serverTime" [] (world m) = (Err e, w') ->
  fst (health driver m) = Err e.
Proof.
  intros H Q.
  unfold health, bind, getPool, ensureAuthenticated, bind, getPool, query, perform, ret.
  cbn [pool world session calls fst snd].
  rewrite H. cbn [pool world session calls fst snd]. now rewrite H, Q.
Qed.

End SessionFacts.

(** ** [useDatabase] and [executeSql] *)

Ltac logs :=
  cbv zeta;
  repeat first
    [ apply logs_ret | apply logs_throw | apply logs_liftR | apply logs_getSession
    | apply logs_perform; eexists; eexists; reflexivity
    | apply logs_bind; [|intros ?]
    | match goal with
      | |- logsOnly _ (match ?x with _ => _ end) => destruct x
      end ].

Section DatabaseFacts.
Context {World : Type} (driver : Driver World).

(** The three ways [useDatabase] can end. *)
Lemma useDatabase_outcome (args : UseDatabaseArgs.t) (m : Machine World) :
  let name := UseDatabaseArgs.database args in
  let out := useDatabase driver args m in
  (forall p w',
      pool m = Some p -> identifierShape name ->
      poolQuery driver p useDatabaseSql [VStr name] (world m) = (Ok [], w') ->
      fst out = Err (mkError ApiError ("Database not found: " +++ name)) /\
      session (snd out) = session m /\ pool (snd out) = pool m) /\
  (forall r,
      fst out = Ok r ->
      exists p s row rows w',
        pool m = Some p /\ session m = Some s /\ identifierShape name /\
        poolQuery driver p useDatabaseSql [VStr name] (world m) = (Ok (row :: rows), w') /\
        session (snd out) = Some (withDatabase s name) /\
        pool (snd out) = pool m /\
        r = UseDatabaseResult.mk ("Default database set to " +++ name) name true) /\
  (forall e, fst out = Err e -> session (snd out) = session m /\ pool (snd out) = pool m).
Proof.
  intros name out.
  assert (E : out = useDatabase driver args m) by reflexivity. clearbody out.
  unfold useDatabase in E. fold name in E.
  destruct (pool m) as [p|] eqn:P.
  2:{ rewrite (ensure_none _ _ P) in E. subst out. cbn.
      repeat split; intros; try discriminate; auto. }
  rewrite (ensure_some _ _ _ P) in E.
  unfold bind at 1, liftR at 1 in E.
  destruct (assertIdentifier name "database") as [checked|e0] eqn:A.
  2:{ subst out. cbn. repeat split; intros; try discriminate; auto.
      rewrite (assertIdentifier_ok name "database") in A by assumption. discriminate. }
  apply assertIdentifier_inv in A as [-> S].
  unfold bind at 1, query, perform in E.
  destruct (poolQuery driver p useDatabaseSql [VStr name] (world m)) as [[rows|e1] w1] eqn:Q.
  2:{ subst out. cbn. repeat split; intros; try discriminate; auto.
      match goal with H : Some _ = Some _ |- _ => injection H as <- end.
      rewrite Q in *. discriminate. }
  destruct rows as [|row rows].
  { subst out. cbn. repeat split; intros; try discriminate; auto. }
  cbn [length Nat.eqb] in E.
  unfold bind, getSession, setSession, throw, ret in E.
  cbn [pool world session calls fst snd] in E.
  destruct (session m) as [s|] eqn:Ss; subst out; cbn;
    repeat split; intros; try discriminate; auto;
    try (match goal with H : Some _ = Some _ |- _ => injection H as <- end;
         rewrite Q in *; discriminate).
  match goal with H : Ok _ = Ok _ |- _ => injection H as <- end.
  exists p, s, row, rows, w1. repeat split; auto.
Qed.

(** C8.  [useDatabase] looks the validated name up in the catalog before it
    touches the session.  When the lookup returns no row the call fails with
    the ApiError "Database not found" and the session is as before.  When the
    call succeeds the lookup returned at least one row for that name, and the
    session is the former one with its [database] set to the name, every
    other field and the pool being unchanged.  On every failure the session
    is as before. *)
Theorem useDatabase_spec (args : UseDatabaseArgs.t) (m : Machine World) :
  let name := UseDatabaseArgs.database args in
  let out := useDatabase driver args m in
  (forall p w',
      pool m = Some p -> identifierShape name ->
      poolQuery driver p useDatabaseSql [VStr name] (world m) = (Ok [], w') ->
      fst out = Err (mkError ApiError ("Database not found: " +++ name)) /\
      session (snd out) = session m /\ pool (snd out) = pool m) /\
  (forall r,
      fst out = Ok r ->
      exists p s row rows w',
        pool m = Some p /\ session m = Some s /\ identifierShape name /\
        poolQuery driver p useDatabaseSql [VStr name] (world m) = (Ok (row :: rows), w') /\
        session (snd out) = Some (withDatabase s name) /\
        pool (snd out) = pool m /\
        r = UseDatabaseResult.mk ("Default database set to " +++ name) name true) /\
  (forall e, fst out = Err e -> session (snd out) = session m /\ pool (snd out) = pool m).
Proof. exact (useDatabase_outcome args m). Qed.

Lemma executeSql_preserves (args : ExecuteSqlArgs.t) :
  preservesSession (executeSql driver args).
Proof. unfold executeSql, ensureAuthenticated. frame. Qed.

Lemma finally_release {A : Type} (P : Call -> Prop) (body : M World A) (c : Connection)
  (m : Machine World) :
  logsOnly P body ->
  exists middle,
    calls (snd (tryFinally body
                  (perform (CallRelease c) (connectionRelease driver c)) m))
    = calls m ++ middle ++ [CallRelease c] /\ Forall P middle.
Proof.
  intros Hb. destruct (Hb m) as (middle & E & F). exists middle.
  split; [|exact F].
  unfold tryFinally, perform. destruct (body m) as [r m1]. simpl in E.
  destruct (connectionRelease driver c (world m1)) as [[u|e] w]; simpl;
    now rewrite E, app_assoc.
Qed.

(** C9.  [executeSql] leaves [this.session], and so the active database, and
    [this.pool] as they were, with or without a [database] argument: the
    [USE] statement goes to the dedicated connection.  Once the connection
    has been acquired, the calls that follow are queries on that connection
    and then, last and on every path, the release of that very connection;
    when no connection is acquired nothing is released.  The tool
    [execute_sql], validator included, leaves the session and the pool as
    they were too. *)
Theorem executeSql_frame_and_release (args : ExecuteSqlArgs.t) (m : Machine World) :
  let out := executeSql driver args m in
  session (snd out) = session m /\
  pool (snd out) = pool m /\
  (forall p c w1,
      pool m = Some p ->
      getConnection driver p (world m) = (Ok c, w1) ->
      exists middle,
        calls (snd out) = calls m ++ [CallGetConnection p] ++ middle ++ [CallRelease c] /\
        Forall (isConnectionQuery c) middle) /\
  (forall p e w1,
      pool m = Some p ->
      getConnection driver p (world m) = (Err e, w1) ->
      fst out = Err e /\ calls (snd out) = calls m ++ [CallGetConnection p]) /\
  (pool m = None -> calls (snd out) = calls m) /\
  (forall raw,
      session (snd (execute_sql driver raw m)) = session m /\
      pool (snd (execute_sql driver raw m)) = pool m).
Proof.
  intros out. subst out.
  destruct (executeSql_preserves args m) as [P S].
  split; [exact S|]. split; [exact P|]. split; [|split; [|split]].
  - intros p c w1 Hp Hc.
    unfold executeSql. rewrite (ensure_some _ _ _ Hp). cbv zeta.
    unfold bind at 1, perform at 1. rewrite Hc.
    match goal with
    | |- context [tryFinally ?body _ ?m1] =>
        destruct (finally_release (isConnectionQuery c) body c m1) as (middle & E & F)
    end.
    { logs. }
    exists middle. split; [|exact F].
    rewrite E. cbn [calls]. now rewrite <- app_assoc.
  - intros p e w1 Hp Hc.
    assert (E : executeSql driver args m
                = (Err e, mkMachine (pool m) (session m) w1
                            (calls m ++ [CallGetConnection p]))).
    { unfold executeSql. rewrite (ensure_some _ _ _ Hp). cbv zeta.
      unfold bind at 1, perform at 1. now rewrite Hc. }
    rewrite E. split; reflexivity.
  - intros Hp. unfold executeSql. now rewrite (ensure_none _ _ Hp).
  - intros raw.
    assert (F : preservesSession (execute_sql driver raw)).
    { unfold execute_sql. apply preserves_bind; [apply preserves_liftR | intros parsed].
      apply executeSql_preserves. }
    destruct (F m) as [Hp Hs]. split; assumption.
Qed.

End DatabaseFacts.

(** ** Validation failures *)

Lemma validation_ok {A : Type} (a : A) : validationOnly (Ok a).
Proof. intros e H. discriminate. Qed.

Lemma validation_err {A : Type} (text : string) :
  validationOnly (@Err A (mkError ValidationError text)).
Proof. intros e H. now injection H as <-. Qed.

Lemma validation_rbind {A B : Type} (r : Result A) (k : A -> Result B) :
  validationOnly r -> (forall a, validationOnly (k a)) -> validationOnly (rbind r k).
Proof.
  intros Hr Hk e. destruct r as [a|e0]; simpl.
  - apply Hk.
  - intros H. injection H as <-. now apply Hr.
Qed.

Lemma validation_mapR {A B : Type} (f : A -> Result B) (xs : list A) :
  (forall x, validationOnly (f x)) -> validationOnly (mapR f xs).
Proof.
  intros Hf. induction xs as [|x xs IH]; simpl.
  - apply validation_ok.
  - apply validation_rbind; [apply Hf | intros y].
    apply validation_rbind; [apply IH | intros ys; apply validation_ok].
Qed.

Lemma validation_assertIdentifier (value field : string) :
  validationOnly (assertIdentifier value field).
Proof. intros e. apply assertIdentifier_kind. Qed.

Lemma validation_escapeIdentifier (value field : string) :
  validationOnly (escapeIdentifier value field).
Proof. intros e. apply escapeIdentifier_kind. Qed.

Ltac validation :=
  cbv zeta;
  repeat first
    [ apply validation_ok
    | apply validation_err
    | apply validation_assertIdentifier
    | apply validation_escapeIdentifier
    | apply validation_mapR; intros ?
    | apply validation_rbind; [|intros ?]
    | match goal with
      | |- validationOnly (match ?x with _ => _ end) => destruct x
      end ].

Lemma validation_whereLoop (entries : Fields) :
  forall parts values, validationOnly (whereLoop entries parts values).
Proof.
  induction entries as [|[key value] rest IH]; intros parts values; simpl.
  - apply validation_ok.
  - apply validation_rbind; [apply validation_escapeIdentifier | intros q].
    destruct (isNull value); apply IH.
Qed.

Lemma validation_buildWhereClause (where_ : option Fields) :
  validationOnly (buildWhereClause where_).
Proof.
  unfold buildWhereClause. destruct where_ as [entries|]; [|apply validation_ok].
  destruct (Nat.eqb (length entries) 0); [apply validation_ok|].
  apply validation_rbind; [apply validation_whereLoop | intros pv; apply validation_ok].
Qed.

Lemma validation_columnList (columns : option (list string)) :
  validationOnly (columnList columns).
Proof. unfold columnList. validation. Qed.

Lemma validation_orderByClause (orderBy : option string) :
  validationOnly (orderByClause orderBy).
Proof. unfold orderByClause. validation. Qed.

Lemma validation_parseOrderBy (value : string) : validationOnly (parseOrderBy value).
Proof. unfold parseOrderBy, orderByFormat, invalid. validation. Qed.

Lemma validation_parseWhere (value : option Value) (parameter : string) :
  validationOnly (parseWhere value parameter).
Proof. unfold parseWhere, requireObject, invalid. validation. Qed.

Lemma validation_parseSelectRowsArgs (args : Fields) :
  validationOnly (parseSelectRowsArgs args).
Proof.
  unfold parseSelectRowsArgs.
  apply validation_rbind; [unfold requireString, invalid; validation | intros table].
  apply validation_rbind; [unfold optionalString, invalid; validation | intros database].
  apply validation_rbind; [unfold assertStringArray, invalid; validation | intros columns].
  apply validation_rbind; [apply validation_parseWhere | intros where_].
  apply validation_rbind; [unfold optionalString, invalid; validation | intros raw].
  apply validation_rbind.
  { destruct raw; [|apply validation_ok].
    apply validation_rbind; [apply validation_parseOrderBy | intros; apply validation_ok]. }
  intros orderBy.
  unfold optionalInteger, invalid. validation.
Qed.

Lemma validation_parseInsertRowArgs (args : Fields) :
  validationOnly (parseInsertRowArgs args).
Proof.
  unfold parseInsertRowArgs, requireString, optionalString, requireObject, invalid.
  validation.
Qed.

Lemma validation_parseUpdateRowsArgs (args : Fields) :
  validationOnly (parseUpdateRowsArgs args).
Proof.
  unfold parseUpdateRowsArgs, whereCannotBeEmpty, requireString, optionalString,
    requireObject, invalid.
  validation.
Qed.

Lemma validation_parseDeleteRowsArgs (args : Fields) :
  validationOnly (parseDeleteRowsArgs args).
Proof.
  unfold parseDeleteRowsArgs, whereCannotBeEmpty, requireString, optionalString,
    requireObject, invalid.
  validation.
Qed.

Lemma validation_parseExecuteSqlArgs (args : Fields) :
  validationOnly (parseExecuteSqlArgs args).
Proof.
  unfold parseExecuteSqlArgs, requireString, optionalString, invalid.
  validation.
Qed.

Lemma parseSelectRowsArgs_inv (args : Fields) (a : SelectRowsArgs.t) :
  parseSelectRowsArgs args = Ok a ->
  requireString (prop "table" args) "table" = Ok (SelectRowsArgs.table a) /\
  optionalString (prop "database" args) "database" = Ok (SelectRowsArgs.database a) /\
  parseWhere (prop "where" args) "where" = Ok (SelectRowsArgs.where_ a) /\
  (exists raw,
      optionalString (prop "orderBy" args) "orderBy" = Ok raw /\
      match raw with
      | None => SelectRowsArgs.orderBy a = None
      | Some expression =>
          exists e, parseOrderBy expression = Ok e /\ SelectRowsArgs.orderBy a = Some e
      end) /\
  optionalInteger (prop "limit" args) "limit" = Ok (SelectRowsArgs.limit a) /\
  optionalInteger (prop "offset" args) "offset" = Ok (SelectRowsArgs.offset a).
Proof.
  unfold parseSelectRowsArgs. intros H.
  repeat match type of H with
         | rbind ?r _ = _ => destruct r eqn:?; cbn [rbind] in H; [|discriminate]
         end.
  injection H as <-. cbn.
  split; [reflexivity|]. split; [reflexivity|]. split; [reflexivity|].
  split; [|split; reflexivity].
  match goal with
  | E : optionalString (prop "orderBy" args) _ = Ok ?raw |- _ =>
      exists raw; split; [reflexivity|]; destruct raw as [expression|]
  end.
  - match goal with
    | E : rbind (parseOrderBy expression) _ = Ok _ |- _ =>
        destruct (parseOrderBy expression) as [e|] eqn:PO; cbn [rbind] in E;
        [injection E as <- | discriminate]
    end.
    exists e. auto.
  - match goal with E : Ok None = Ok _ |- _ => now injection E as <- end.
Qed.

(** ** [selectRows] *)

Section SelectFacts.
Context {World : Type} (driver : Driver World).

Lemma escapeTableReference_run (table : string) (database : option string)
  (m : Machine World) :
  exists r, escapeTableReference table database m = (r, m) /\ validationOnly r.
Proof.
  unfold escapeTableReference, bind, liftR, getSession, throw, ret.
  destruct (escapeIdentifier table "table") as [q|e] eqn:T.
  - destruct (coalesce database (sessionDatabase (session m))) as [d|].
    + destruct (Str.truthy d); cbn [negb].
      * destruct (escapeIdentifier d "database") as [qd|e] eqn:D.
        -- eexists. split; [reflexivity | apply validation_ok].
        -- eexists. split; [reflexivity|]. intros e' H. injection H as <-.
           now apply escapeIdentifier_kind in D.
      * eexists. split; [reflexivity | apply validation_err].
    + eexists. split; [reflexivity | apply validation_err].
  - eexists. split; [reflexivity|]. intros e' H. injection H as <-.
    now apply escapeIdentifier_kind in T.
Qed.

(** With a pool, [selectRows] given an offset and no limit stops at a
    ValidationError before any statement is sent. *)
Lemma selectRows_rejects (args : SelectRowsArgs.t) (m : Machine World) (p : Pool) (k : Z) :
  pool m = Some p ->
  SelectRowsArgs.offset args = Some k ->
  SelectRowsArgs.limit args = None ->
  exists e, selectRows driver args m = (Err e, m) /\ kind e = ValidationError.
Proof.
  intros Hp Ho Hl. unfold selectRows. rewrite (ensure_some _ _ _ Hp).
  unfold bind at 1.
  destruct (escapeTableReference_run (SelectRowsArgs.table args)
              (SelectRowsArgs.database args) m) as (r & -> & V).
  destruct r as [tableRef|e]; [|exists e; auto].
  unfold bind at 1, liftR at 1.
  destruct (columnList (SelectRowsArgs.columns args)) as [columns|e] eqn:C;
    [|exists e; split; [reflexivity | now apply validation_columnList in C]].
  unfold bind at 1, liftR at 1.
  destruct (buildWhereClause (SelectRowsArgs.where_ args)) as [w|e] eqn:W;
    [|exists e; split; [reflexivity | now apply validation_buildWhereClause in W]].
  cbv zeta. unfold bind at 1, liftR at 1.
  destruct (orderByClause (SelectRowsArgs.orderBy args)) as [o|e] eqn:O;
    [|exists e; split; [reflexivity | now apply validation_orderByClause in O]].
  rewrite Ho, Hl. exists offsetRequiresLimit. split; reflexivity.
Qed.

(** When every check passes, [selectRows] is the single statement
    [selectSql], sent with the values of the WHERE clause followed by the
    paging values. *)
Lemma selectRows_run (args : SelectRowsArgs.t) (m : Machine World) (p : Pool)
  (tableRef columns orderBySql : string) (w : WhereClause.t) :
  pool m = Some p ->
  fst (escapeTableReference (SelectRowsArgs.table args) (SelectRowsArgs.database args) m)
  = Ok tableRef ->
  columnList (SelectRowsArgs.columns args) = Ok columns ->
  buildWhereClause (SelectRowsArgs.where_ args) = Ok w ->
  orderByClause (SelectRowsArgs.orderBy args) = Ok orderBySql ->
  (SelectRowsArgs.offset args = None \/ SelectRowsArgs.limit args <> None) ->
  selectRows driver args m
  = bind (query driver p
            (selectSql columns tableRef (WhereClause.sql w) orderBySql
               (SelectRowsArgs.limit args) (SelectRowsArgs.offset args))
            (WhereClause.values w
               ++ pagingValues (SelectRowsArgs.limit args) (SelectRowsArgs.offset args)))
      (fun rows => ret (SelectResult.mk rows (Z.of_nat (length rows)))) m.
Proof.
  intros Hp Ht Hc Hw Ho Hpage. unfold selectRows. rewrite (ensure_some _ _ _ Hp).
  unfold bind at 1.
  destruct (escapeTableReference_run (SelectRowsArgs.table args)
              (SelectRowsArgs.database args) m) as (r & E & _).
  rewrite E in *. cbn [fst] in Ht. subst r.
  unfold bind at 1, liftR at 1. rewrite Hc.
  unfold bind at 1, liftR at 1. rewrite Hw.
  cbv zeta. unfold bind at 1, liftR at 1. rewrite Ho.
  unfold selectSql, pagingSql, pagingValues.
  destruct (SelectRowsArgs.offset args) as [k|], (SelectRowsArgs.limit args) as [n|];
    try (destruct Hpage as [H | H]; [discriminate | now contradiction H]);
    unfold bind at 1, ret at 1; cbn [fst snd String.append app];
    rewrite <- ?app_assoc, ?app_nil_r, ?append_empty_r; reflexivity.
Qed.

Lemma query_outcome {A : Type} (p : Pool) (sql : string) (values : list Value)
  (f : list Fields -> A) (m : Machine World) :
  let out := bind (query driver p sql values) (fun rows => ret (f rows)) m in
  calls (snd out) = calls m ++ [CallPoolQuery p sql values] /\
  pool (snd out) = pool m /\ session (snd out) = session m /\
  (forall rows w', poolQuery driver p sql values (world m) = (Ok rows, w') ->
                   fst out = Ok (f rows)) /\
  (forall e w', poolQuery driver p sql values (world m) = (Err e, w') -> fst out = Err e).
Proof.
  unfold bind, query, perform, ret.
  destruct (poolQuery driver p sql values (world m)) as [[rows|e] w1]; cbn;
    repeat split; intros; congruence.
Qed.

End SelectFacts.

(** ** Splitting on white space *)

Ltac char_arith :=
  unfold identifierTail, identifierHead, Str.isSpace, Str.isUpper, Str.isLower,
    Str.isDigit, Str.isUnderscore, Str.between;
  repeat match goal with
         | |- context [Nat.leb ?a ?b] => destruct (Nat.leb_spec a b)
         | |- context [Nat.eqb ?a ?b] => destruct (Nat.eqb_spec a b)
         end; simpl; intros; try reflexivity; try discriminate; lia.

Lemma tail_not_space (c : ascii) : identifierTail c = true -> Str.isSpace c = false.
Proof. char_arith. Qed.





Lemma shape_spaceFree (s : string) : identifierShape s -> spaceFree s.
Proof.
  intros S. apply Forall_forall. intros c Hin.
  apply tail_not_space. now apply (shape_chars s).
Qed.




Lemma shape_truthy (s : string) : identifierShape s -> Str.truthy s = true.
Proof. destruct s; [contradiction | reflexivity]. Qed.

Lemma splitWs_plain (s : string) :
  spaceFree s ->
  forall cur inRun,
    Str.splitWs cur inRun s = [string_of_list_ascii (rev cur ++ Str.chars s)].
Proof.
  unfold spaceFree. induction s as [|c s IH]; simpl; intros F cur inRun.
  - now rewrite app_nil_r.
  - inversion F as [|? ? Hc Hs]; subst. rewrite Hc, (IH Hs). simpl.
    now rewrite <- app_assoc.
Qed.

Lemma splitWs_separated (s t : string) :
  spaceFree s ->
  forall cur,
    Str.splitWs cur false (s +++ String " " t)
    = string_of_list_ascii (rev cur ++ Str.chars s) :: Str.splitWs [] true t.
Proof.
  unfold spaceFree. induction s as [|c s IH]; simpl; intros F cur.
  - now rewrite app_nil_r.
  - inversion F as [|? ? Hc Hs]; subst. rewrite Hc, (IH Hs). simpl.
    now rewrite <- app_assoc.
Qed.


Lemma split_two (s t : string) :
  spaceFree s -> spaceFree t -> Str.splitWhitespace (s +++ " " +++ t) = [s; t].
Proof.
  intros Fs Ft. unfold Str.splitWhitespace.
  change (s +++ " " +++ t) with (s +++ String " " t).
  rewrite (splitWs_separated s t Fs), (splitWs_plain t Ft). simpl.
  now rewrite !of_chars.
Qed.

(** ** ORDER BY *)






(** ** The record tools *)

Section ToolFacts.
Context {World : Type} (driver : Driver World).

Lemma handler_rejects {A B : Type} (r : Result A) (k : A -> M World B) (m : Machine World) :
  validationOnly r -> (forall a, r <> Ok a) ->
  failsWith ValidationError (fst (bind (liftR r) k m)) /\ snd (bind (liftR r) k m) = m.
Proof.
  intros V N. unfold bind, liftR. destruct r as [a|[k0 msg]].
  - now contradiction (N a).
  - specialize (V _ eq_refl). simpl in V. subst k0. split; [now exists msg | reflexivity].
Qed.

(** A tool is its validator followed by the gateway method: what the
    validator throws is what the call throws, and the instance is untouched. *)
Lemma handler_run {A B : Type} (r : Result A) (k : A -> M World B) (m : Machine World) :
  bind (liftR r) k m = match r with Ok a => k a m | Err e => (Err e, m) end.
Proof. unfold bind, liftR. now destruct r. Qed.

(** C4, as the code has it.  While no session is installed every row and
    schema method of the gateway (listDatabases, listTables, describeTable,
    useDatabase, selectRows, insertRow, updateRows, deleteRows, executeSql)
    fails with the AuthError of [ensureAuthenticated], whatever its
    arguments, and leaves the instance and the server untouched.  A record
    tool ([select_rows], [insert_row], [update_rows], [delete_rows],
    [execute_sql]) runs its validator before the gateway is entered: on
    arguments that pass the validator it fails with that AuthError, and on
    arguments that the validator rejects it fails with the exception of the
    validator, a ValidationError; the instance is untouched either way. *)
Theorem unauthenticated_operations (m : Machine World) :
  coherent m -> session m = None ->
  let rejected := mkError AuthError "Not authenticated. Call auth_mysql first." in
  (listDatabases driver m = (Err rejected, m) /\
   (forall database, listTables driver database m = (Err rejected, m)) /\
   (forall args, describeTable driver args m = (Err rejected, m)) /\
   (forall args, useDatabase driver args m = (Err rejected, m)) /\
   (forall args, selectRows driver args m = (Err rejected, m)) /\
   (forall args, insertRow driver args m = (Err rejected, m)) /\
   (forall args, updateRows driver args m = (Err rejected, m)) /\
   (forall args, deleteRows driver args m = (Err rejected, m)) /\
   (forall args, executeSql driver args m = (Err rejected, m))) /\
  (forall args,
      match parseSelectRowsArgs args with
      | Ok _ => select_rows driver args m = (Err rejected, m)
      | Err e => select_rows driver args m = (Err e, m) /\ kind e = ValidationError
      end) /\
  (forall args,
      match parseInsertRowArgs args with
      | Ok _ => insert_row driver args m = (Err rejected, m)
      | Err e => insert_row driver args m = (Err e, m) /\ kind e = ValidationError
      end) /\
  (forall args,
      match parseUpdateRowsArgs args with
      | Ok _ => update_rows driver args m = (Err rejected, m)
      | Err e => update_rows driver args m = (Err e, m) /\ kind e = ValidationError
      end) /\
  (forall args,
      match parseDeleteRowsArgs args with
      | Ok _ => delete_rows driver args m = (Err rejected, m)
      | Err e => delete_rows driver args m = (Err e, m) /\ kind e = ValidationError
      end) /\
  (forall args,
      match parseExecuteSqlArgs args with
      | Ok _ => execute_sql driver args m = (Err rejected, m)
      | Err e => execute_sql driver args m = (Err e, m) /\ kind e = ValidationError
      end).
Proof.
  intros C S rejected. apply C in S. split.
  - repeat split; intros; now apply ensure_none.
  - unfold select_rows, insert_row, update_rows, delete_rows, execute_sql.
    split; [|split; [|split; [|split]]]; intros args; rewrite handler_run.
    + pose proof (validation_parseSelectRowsArgs args) as V.
      destruct (parseSelectRowsArgs args) as [parsed|e];
        [now apply ensure_none | split; [reflexivity | now apply V]].
    + pose proof (validation_parseInsertRowArgs args) as V.
      destruct (parseInsertRowArgs args) as [parsed|e];
        [now apply ensure_none | split; [reflexivity | now apply V]].
    + pose proof (validation_parseUpdateRowsArgs args) as V.
      destruct (parseUpdateRowsArgs args) as [parsed|e];
        [now apply ensure_none | split; [reflexivity | now apply V]].
    + pose proof (validation_parseDeleteRowsArgs args) as V.
      destruct (parseDeleteRowsArgs args) as [parsed|e];
        [now apply ensure_none | split; [reflexivity | now apply V]].
    + pose proof (validation_parseExecuteSqlArgs args) as V.
      destruct (parseExecuteSqlArgs args) as [parsed|e];
        [now apply ensure_none | split; [reflexivity | now apply V]].
Qed.

(** With a pool, [updateRows] and [deleteRows] given an empty filter stop at
    a ValidationError before any statement is sent (lines 344-347, 360-363). *)
Lemma updateRows_rejects (args : UpdateRowsArgs.t) (m : Machine World) (p : Pool) :
  pool m = Some p -> UpdateRowsArgs.where_ args = [] ->
  exists e, updateRows driver args m = (Err e, m) /\ kind e = ValidationError.
Proof.
  intros Hp Hw. unfold updateRows. rewrite (ensure_some _ _ _ Hp).
  unfold bind at 1.
  destruct (escapeTableReference_run (UpdateRowsArgs.table args)
              (UpdateRowsArgs.database args) m) as (r & -> & V).
  destruct r as [tableRef|e]; [|exists e; auto].
  cbv zeta. destruct (Nat.eqb (length (UpdateRowsArgs.data args)) 0).
  { eexists. split; reflexivity. }
  unfold bind at 1, liftR at 1.
  match goal with
  | |- context [mapR ?f ?xs] =>
      assert (VM : validationOnly (mapR f xs)) by (apply validation_mapR; intros x; validation);
      destruct (mapR f xs) as [assignments|e]; [|exists e; auto]
  end.
  rewrite Hw. cbn. eexists. split; reflexivity.
Qed.

Lemma deleteRows_rejects (args : DeleteRowsArgs.t) (m : Machine World) (p : Pool) :
  pool m = Some p -> DeleteRowsArgs.where_ args = [] ->
  exists e, deleteRows driver args m = (Err e, m) /\ kind e = ValidationError.
Proof.
  intros Hp Hw. unfold deleteRows. rewrite (ensure_some _ _ _ Hp).
  unfold bind at 1.
  destruct (escapeTableReference_run (DeleteRowsArgs.table args)
              (DeleteRowsArgs.database args) m) as (r & -> & V).
  destruct r as [tableRef|e]; [|exists e; auto].
  rewrite Hw. cbn. eexists. split; reflexivity.
Qed.

(** C2, as the code has it.  [update_rows] and [delete_rows] fail with the
    ValidationError "where cannot be an empty object" whenever [where] is
    [{}], whatever the table, the database and the state; so does
    [select_rows], whose validator [parseWhere] rejects an empty object with a
    ValidationError.  The unfiltered select is what a select without [where]
    is: the validator leaves the filter absent, and [selectRows], given an
    absent or empty filter, sends a statement with no WHERE clause and returns
    every row the server answers. *)
Theorem empty_where (m : Machine World) :
  (forall args,
      prop "where" args = Some (VObj []) ->
      let rejected :=
        mkError ValidationError "Invalid parameter: where cannot be an empty object" in
      update_rows driver args m = (Err rejected, m) /\
      delete_rows driver args m = (Err rejected, m) /\
      failsWith ValidationError (fst (select_rows driver args m)) /\
      snd (select_rows driver args m) = m) /\
  (forall args parsed,
      prop "where" args = None ->
      parseSelectRowsArgs args = Ok parsed -> SelectRowsArgs.where_ parsed = None) /\
  (forall parsed p tableRef columns orderBySql,
      pool m = Some p ->
      SelectRowsArgs.where_ parsed = None \/ SelectRowsArgs.where_ parsed = Some [] ->
      fst (escapeTableReference (SelectRowsArgs.table parsed)
             (SelectRowsArgs.database parsed) m) = Ok tableRef ->
      columnList (SelectRowsArgs.columns parsed) = Ok columns ->
      orderByClause (SelectRowsArgs.orderBy parsed) = Ok orderBySql ->
      SelectRowsArgs.offset parsed = None \/ SelectRowsArgs.limit parsed <> None ->
      let sql :=
        selectSql columns tableRef "" orderBySql
          (SelectRowsArgs.limit parsed) (SelectRowsArgs.offset parsed) in
      let values :=
        pagingValues (SelectRowsArgs.limit parsed) (SelectRowsArgs.offset parsed) in
      calls (snd (selectRows driver parsed m)) = calls m ++ [CallPoolQuery p sql values] /\
      forall rows w',
        poolQuery driver p sql values (world m) = (Ok rows, w') ->
        fst (selectRows driver parsed m)
        = Ok (SelectResult.mk rows (Z.of_nat (length rows)))).
Proof.
  split; [|split].
  - intros args Hw rejected. subst rejected.
    unfold update_rows, delete_rows, parseUpdateRowsArgs, parseDeleteRowsArgs.
    rewrite Hw. cbn. repeat split.
    + apply handler_rejects; [apply validation_parseSelectRowsArgs|].
      intros a Ha. apply parseSelectRowsArgs_inv in Ha as (_ & _ & W & _).
      rewrite Hw in W. discriminate.
    + apply handler_rejects; [apply validation_parseSelectRowsArgs|].
      intros a Ha. apply parseSelectRowsArgs_inv in Ha as (_ & _ & W & _).
      rewrite Hw in W. discriminate.
  - intros args parsed Hw Hp.
    apply parseSelectRowsArgs_inv in Hp as (_ & _ & W & _).
    rewrite Hw in W. simpl in W. now injection W as <-.
  - intros parsed p tableRef columns orderBySql Hp Hw Ht Hc Ho Hpage sql values.
    assert (W : buildWhereClause (SelectRowsArgs.where_ parsed) = Ok (WhereClause.mk "" [])).
    { destruct Hw as [-> | ->]; reflexivity. }
    rewrite (selectRows_run driver parsed m p tableRef columns orderBySql _ Hp Ht Hc W Ho Hpage).
    cbn [WhereClause.sql WhereClause.values app].
    destruct (query_outcome driver p sql values
                (fun rows => SelectResult.mk rows (Z.of_nat (length rows))) m)
      as (Hcalls & _ & _ & Hok & _).
    split; [exact Hcalls | exact Hok].
Qed.

(** C6.  With a session, a [select_rows] call that supplies [offset] and no
    [limit] fails with a ValidationError, whatever the table, the database and
    the other arguments, and sends nothing; so does [selectRows] on parsed
    arguments.  When [limit] is present and every check passes, the text of
    the statement ends in [" LIMIT ?"], followed by [" OFFSET ?"] when
    [offset] is present, and the limit and then the offset are bound after the
    values of the WHERE clause. *)
Theorem select_paging (m : Machine World) (p : Pool) :
  pool m = Some p ->
  (forall args v,
      prop "offset" args = Some v -> prop "limit" args = None ->
      failsWith ValidationError (fst (select_rows driver args m)) /\
      snd (select_rows driver args m) = m) /\
  (forall parsed k,
      SelectRowsArgs.offset parsed = Some k -> SelectRowsArgs.limit parsed = None ->
      failsWith ValidationError (fst (selectRows driver parsed m)) /\
      snd (selectRows driver parsed m) = m) /\
  (forall parsed tableRef columns orderBySql w n,
      fst (escapeTableReference (SelectRowsArgs.table parsed)
             (SelectRowsArgs.database parsed) m) = Ok tableRef ->
      columnList (SelectRowsArgs.columns parsed) = Ok columns ->
      buildWhereClause (SelectRowsArgs.where_ parsed) = Ok w ->
      orderByClause (SelectRowsArgs.orderBy parsed) = Ok orderBySql ->
      SelectRowsArgs.limit parsed = Some n ->
      calls (snd (selectRows driver parsed m))
      = calls m ++
        [CallPoolQuery p
           ("SELECT " +++ columns +++ " FROM " +++ tableRef +++ WhereClause.sql w
              +++ orderBySql +++ " LIMIT ?"
              +++ match SelectRowsArgs.offset parsed with
                  | Some _ => " OFFSET ?"
                  | None => ""
                  end)
           (WhereClause.values w ++ VNum n ::
              match SelectRowsArgs.offset parsed with
              | Some k => [VNum k]
              | None => []
              end)]).
Proof.
  intros Hp. split; [|split].
  - intros args v Ho Hl. unfold select_rows.
    destruct (parseSelectRowsArgs args) as [parsed|e] eqn:P.
    + apply parseSelectRowsArgs_inv in P as (_ & _ & _ & _ & L & O).
      rewrite Hl in L. simpl in L. injection L as L.
      rewrite Ho in O. destruct v; simpl in O; try discriminate. injection O as O.
      unfold bind, liftR.
      destruct (selectRows_rejects driver parsed m p n Hp (eq_sym O) (eq_sym L))
        as ([k0 msg] & -> & K).
      simpl in K. subst k0. split; [now exists msg | reflexivity].
    + apply handler_rejects; [|discriminate].
      rewrite <- P. apply validation_parseSelectRowsArgs.
  - intros parsed k Ho Hl.
    destruct (selectRows_rejects driver parsed m p k Hp Ho Hl) as ([k0 msg] & -> & K).
    simpl in K. subst k0. split; [now exists msg | reflexivity].
  - intros parsed tableRef columns orderBySql w n Ht Hc Hw Ho Hl.
    rewrite (selectRows_run driver parsed m p tableRef columns orderBySql w Hp Ht Hc Hw Ho).
    2:{ right. rewrite Hl. discriminate. }
    match goal with
    | |- context [bind (query driver p ?sql ?vals) (fun rows => ret (@?f rows)) m] =>
        destruct (query_outcome driver p sql vals f m) as (Hcalls & _)
    end.
    rewrite Hcalls, Hl. unfold selectSql, pagingSql, pagingValues.
    destruct (SelectRowsArgs.offset parsed); reflexivity.
Qed.


End ToolFacts.

(** C2 as stated fails: [select_rows] with [where: {}] on an authenticated
    instance is rejected by the validator and sends nothing. *)
Lemma select_rows_empty_where_fails :
  select_rows Demo.driver [("table", VStr "users"); ("where", VObj [])]
    (Demo.loggedIn Demo.online)
  = (Err (mkError ValidationError "Invalid parameter: where cannot be an empty object"),
     Demo.loggedIn Demo.online).
Proof. reflexivity. Qed.

(** C4 as stated fails: on an instance that never authenticated,
    [update_rows] with [where: {}] is rejected by its validator with a
    ValidationError, not with an AuthError. *)
Lemma update_rows_unauthenticated_validation :
  session (Demo.fresh Demo.online) = None /\
  update_rows Demo.driver
    [("table", VStr "users"); ("data", VObj [("email", VStr "x")]); ("where", VObj [])]
    (Demo.fresh Demo.online)
  = (Err (mkError ValidationError "Invalid parameter: where cannot be an empty object"),
     Demo.fresh Demo.online) /\
  ~ failsWith AuthError
      (fst (update_rows Demo.driver
              [("table", VStr "users"); ("data", VObj [("email", VStr "x")]);
               ("where", VObj [])]
              (Demo.fresh Demo.online))).
Proof.
  split; [reflexivity|]. split; [reflexivity|].
  intros (msg & H). discriminate H.
Qed.

(** ** The session invariant *)

Section Invariant.
Context {World : Type} (driver : Driver World).

Lemma coherent_fresh (w : World) (made : list Call) : coherent (mkMachine None None w made).
Proof. unfold coherent. simpl. tauto. Qed.

Lemma preserves_coherent {A : Type} (c : M World A) (m : Machine World) :
  preservesSession c -> coherent m -> coherent (snd (c m)).
Proof. intros H C. unfold coherent. destruct (H m) as [-> ->]. exact C. Qed.

Lemma authMySql_coherent (args : MySqlAuthArgs.t) (m : Machine World) :
  coherent m -> coherent (snd (authMySql driver args m)).
Proof.
  intros C.
  unfold authMySql, bind, getPool, tryCatch, bind, query, perform, setPool, setSession,
    throw, ret.
  cbn [pool world session calls fst snd].
  destruct (pool m) as [old|] eqn:P.
  - destruct (poolEnd driver old (world m)) as [[u|e] w1];
      cbn [pool world session calls fst snd].
    + destruct (createPool driver (authOptions args) w1) as [[p|e] w2];
        cbn [pool world session calls fst snd].
      * destruct (poolQuery driver p "SELECT 1" [] w2) as [[rows|e] w3];
          cbn; unfold coherent; cbn; split; intros; congruence.
      * cbn. unfold coherent. cbn. tauto.
    + exact C.
  - cbn [pool world session calls fst snd].
    destruct (createPool driver (authOptions args) (world m)) as [[p|e] w2];
      cbn [pool world session calls fst snd].
    + destruct (poolQuery driver p "SELECT 1" [] w2) as [[rows|e] w3];
        cbn; unfold coherent; cbn; split; intros; congruence.
    + cbn. unfold coherent. cbn. tauto.
Qed.

Lemma logout_coherent (m : Machine World) : coherent m -> coherent (snd (logout driver m)).
Proof.
  intros C. unfold logout, bind, getPool, perform, setPool, setSession, ret.
  cbn [pool world session calls fst snd].
  destruct (pool m) as [old|] eqn:P.
  - destruct (poolEnd driver old (world m)) as [[u|e] w1]; cbn.
    + unfold coherent. cbn. tauto.
    + exact C.
  - cbn. unfold coherent. cbn. tauto.
Qed.

Lemma useDatabase_coherent (args : UseDatabaseArgs.t) (m : Machine World) :
  coherent m -> coherent (snd (useDatabase driver args m)).
Proof.
  intros C.
  destruct (useDatabase_outcome driver args m) as (_ & Hok & Herr).
  destruct (fst (useDatabase driver args m)) as [r|e] eqn:E.
  - destruct (Hok r eq_refl) as (p & s & row & rows & w' & Hp & Hs & _ & _ & Hs' & Hp' & _).
    unfold coherent. rewrite Hs', Hp', Hp. split; discriminate.
  - destruct (Herr e eq_refl) as [Hs Hp]. unfold coherent. now rewrite Hs, Hp.
Qed.

Lemma escapeTableReference_preserves (table : string) (database : option string) :
  preservesSession (@escapeTableReference World table database).
Proof. unfold escapeTableReference. frame. Qed.

Lemma resolveDatabase_preserves (database : option string) :
  preservesSession (@resolveDatabase World database).
Proof. unfold resolveDatabase. frame. Qed.

Ltac frame_method :=
  unfold ensureAuthenticated, query, execute; cbv zeta;
  repeat first
    [ apply escapeTableReference_preserves | apply resolveDatabase_preserves
    | apply preserves_ret | apply preserves_throw | apply preserves_liftR
    | apply preserves_getPool | apply preserves_getSession | apply preserves_perform
    | apply preserves_tryFinally
    | apply preserves_bind; [|intros ?]
    | match goal with
      | |- preservesSession (match ?x with _ => _ end) => destruct x
      end ].

Lemma health_preserves : preservesSession (health driver).
Proof. unfold health. frame_method. Qed.

Lemma getAuthStatus_preserves : preservesSession (@getAuthStatus World).
Proof. unfold getAuthStatus. frame_method. Qed.

Lemma listDatabases_preserves : preservesSession (listDatabases driver).
Proof. unfold listDatabases. frame_method. Qed.

Lemma listTables_preserves (database : option string) :
  preservesSession (listTables driver database).
Proof. unfold listTables. frame_method. Qed.

Lemma describeTable_preserves (args : DescribeTableArgs.t) :
  preservesSession (describeTable driver args).
Proof. unfold describeTable. frame_method. Qed.

Lemma selectRows_preserves (args : SelectRowsArgs.t) :
  preservesSession (selectRows driver args).
Proof. unfold selectRows. frame_method. Qed.

Lemma insertRow_preserves (args : InsertRowArgs.t) :
  preservesSession (insertRow driver args).
Proof. unfold insertRow. frame_method. Qed.

Lemma updateRows_preserves (args : UpdateRowsArgs.t) :
  preservesSession (updateRows driver args).
Proof. unfold updateRows. frame_method. Qed.

Lemma deleteRows_preserves (args : DeleteRowsArgs.t) :
  preservesSession (deleteRows driver args).
Proof. unfold deleteRows. frame_method. Qed.

Lemma serve_coherent (r : Request) (m : Machine World) :
  coherent m -> coherent (serve driver r m).
Proof.
  intros C. destruct r; unfold serve, after.
  - now apply authMySql_coherent.
  - now apply preserves_coherent; [apply getAuthStatus_preserves|].
  - now apply logout_coherent.
  - now apply preserves_coherent; [apply health_preserves|].
  - now apply preserves_coherent; [apply listDatabases_preserves|].
  - now apply preserves_coherent; [apply listTables_preserves|].
  - now apply preserves_coherent; [apply describeTable_preserves|].
  - now apply useDatabase_coherent.
  - now apply preserves_coherent; [apply selectRows_preserves|].
  - now apply preserves_coherent; [apply insertRow_preserves|].
  - now apply preserves_coherent; [apply updateRows_preserves|].
  - now apply preserves_coherent; [apply deleteRows_preserves|].
  - now apply preserves_coherent; [apply executeSql_preserves|].
Qed.

(** Whatever calls were made on a new instance, it records a session exactly
    when it holds a pool. *)
Lemma session_iff_pool (rs : list Request) (w : World) :
  coherent (serveAll driver rs (mkMachine None None w [])).
Proof.
  unfold serveAll.
  assert (G : forall m, coherent m ->
                        coherent (fold_left (fun state r => serve driver r state) rs m)).
  { induction rs as [|r rest IH]; intros m C; simpl; [exact C|].
    apply IH. now apply serve_coherent. }
  apply G, coherent_fresh.
Qed.

End Invariant.

(** ** The theorems at work on the small server *)

Lemma unauthenticated_operations_witness :
  coherent (Demo.fresh Demo.online) /\
  session (Demo.fresh Demo.online) = None /\
  selectRows Demo.driver
    (SelectRowsArgs.mk "users" (Some "shop") None None None None None)
    (Demo.fresh Demo.online)
  = (Err (mkError AuthError "Not authenticated. Call auth_mysql first."),
     Demo.fresh Demo.online) /\
  executeSql Demo.driver (ExecuteSqlArgs.mk "SELECT 1" None None) (Demo.fresh Demo.online)
  = (Err (mkError AuthError "Not authenticated. Call auth_mysql first."),
     Demo.fresh Demo.online) /\
  delete_rows Demo.driver [("table", VStr "users"); ("where", VObj [("id", VNum 1)])]
    (Demo.fresh Demo.online)
  = (Err (mkError AuthError "Not authenticated. Call auth_mysql first."),
     Demo.fresh Demo.online) /\
  select_rows Demo.driver [("table", VStr "users"); ("limit", VNum 0)]
    (Demo.fresh Demo.online)
  = (Err (mkError ValidationError "Invalid parameter: limit must be greater than 0"),
     Demo.fresh Demo.online).
Proof.
  pose proof (unauthenticated_operations Demo.driver (Demo.fresh Demo.online)
                (coherent_fresh Demo.online []) eq_refl) as H.
  cbv zeta in H.
  destruct H as ((_ & _ & _ & _ & Hselect & _ & _ & _ & Hexecute)
                 & (Htool & _ & _ & Hdelete & _)).
  split; [apply coherent_fresh|]. split; [reflexivity|].
  split; [apply Hselect|]. split; [apply Hexecute|].
  split.
  - exact (Hdelete [("table", VStr "users"); ("where", VObj [("id", VNum 1)])]).
  - exact (proj1 (Htool [("table", VStr "users"); ("limit", VNum 0)])).
Defined.

Lemma authenticate_failure_witness :
  fst (authMySql Demo.driver Demo.rootArgs (Demo.loggedIn Demo.offline))
  = Err (mkError AuthError "MySQL authentication failed: connect ECONNREFUSED") /\
  pool (snd (authMySql Demo.driver Demo.rootArgs (Demo.loggedIn Demo.offline))) = None /\
  session (snd (authMySql Demo.driver Demo.rootArgs (Demo.loggedIn Demo.offline))) = None /\
  fst (getAuthStatus (snd (authMySql Demo.driver Demo.rootArgs (Demo.loggedIn Demo.offline))))
  = Ok (AuthStatus.mk false None).
Proof.
  apply (authenticate_failure Demo.driver Demo.rootArgs (Demo.loggedIn Demo.offline)
           Demo.offline Demo.refused).
  - reflexivity.
  - right.
    exists (PoolHandle 0), (Demo.mkServer ["shop"] false 1), (Demo.mkServer ["shop"] false 1).
    split; reflexivity.
Defined.

Lemma health_spec_witness :
  health Demo.driver (Demo.fresh Demo.online)
  = (Ok (HealthResponse.mk false false "Not authenticated" None), Demo.fresh Demo.online) /\
  exists serverTime,
    fst (health Demo.driver (Demo.loggedIn Demo.online))
    = Ok (HealthResponse.mk true true "MySQL connection is healthy" (Some serverTime)).
Proof.
  split.
  - apply (proj1 (health_spec Demo.driver (Demo.fresh Demo.online))). reflexivity.
  - apply (proj2 (health_spec Demo.driver (Demo.loggedIn Demo.online))
             (PoolHandle 0) [Demo.sample] Demo.online); reflexivity.
Defined.

Lemma useDatabase_spec_witness :
  (fst (useDatabase Demo.driver (UseDatabaseArgs.mk "nope") (Demo.loggedIn Demo.online))
   = Err (mkError ApiError "Database not found: nope") /\
   session (snd (useDatabase Demo.driver (UseDatabaseArgs.mk "nope")
                   (Demo.loggedIn Demo.online)))
   = session (Demo.loggedIn Demo.online)) /\
  exists p s row rows w',
    pool (Demo.loggedIn Demo.online) = Some p /\
    session (Demo.loggedIn Demo.online) = Some s /\
    poolQuery Demo.driver p useDatabaseSql [VStr "analytics"] Demo.online
    = (Ok (row :: rows), w') /\
    session (snd (useDatabase Demo.driver (UseDatabaseArgs.mk "analytics")
                    (Demo.loggedIn Demo.online)))
    = Some (withDatabase s "analytics").
Proof.
  split.
  - destruct (proj1 (useDatabase_spec Demo.driver (UseDatabaseArgs.mk "nope")
                       (Demo.loggedIn Demo.online))
                (PoolHandle 0) Demo.online eq_refl) as (E & S & _).
    + simpl. repeat constructor.
    + reflexivity.
    + split; [exact E | exact S].
  - destruct (proj1 (proj2 (useDatabase_spec Demo.driver (UseDatabaseArgs.mk "analytics")
                              (Demo.loggedIn Demo.online)))
                (UseDatabaseResult.mk "Default database set to analytics" "analytics" true)
                eq_refl)
      as (p & s & row & rows & w' & Hp & Hs & _ & Hq & Hs' & _).
    exists p, s, row, rows, w'. repeat split; assumption.
Defined.

Lemma executeSql_frame_and_release_witness :
  fst (executeSql Demo.driver (ExecuteSqlArgs.mk "BOOM" None (Some "analytics"))
         (Demo.loggedIn Demo.online))
  = Err (mkError DriverError "syntax error") /\
  session (snd (executeSql Demo.driver (ExecuteSqlArgs.mk "BOOM" None (Some "analytics"))
                  (Demo.loggedIn Demo.online)))
  = Some (AuthSession.mk "127.0.0.1" 3306 "root" (Some "shop") false) /\
  exists middle,
    calls (snd (executeSql Demo.driver (ExecuteSqlArgs.mk "BOOM" None (Some "analytics"))
                  (Demo.loggedIn Demo.online)))
    = [] ++ [CallGetConnection (PoolHandle 0)] ++ middle ++ [CallRelease (ConnectionHandle 0)] /\
    Forall (isConnectionQuery (ConnectionHandle 0)) middle.
Proof.
  destruct (executeSql_frame_and_release Demo.driver
              (ExecuteSqlArgs.mk "BOOM" None (Some "analytics")) (Demo.loggedIn Demo.online))
    as (S & _ & R & _).
  split; [reflexivity|]. split; [exact S|].
  apply (R (PoolHandle 0) (ConnectionHandle 0) (Demo.mkServer ["shop"; "analytics"] true 1));
    reflexivity.
Defined.

Lemma empty_where_witness :
  update_rows Demo.driver
    [("table", VStr "users"); ("data", VObj [("email", VStr "x")]); ("where", VObj [])]
    (Demo.fresh Demo.online)
  = (Err (mkError ValidationError "Invalid parameter: where cannot be an empty object"),
     Demo.fresh Demo.online) /\
  calls (snd (selectRows Demo.driver
                (SelectRowsArgs.mk "users" None None (Some []) None None None)
                (Demo.loggedIn Demo.online)))
  = [CallPoolQuery (PoolHandle 0) "SELECT * FROM `shop`.`users`" []] /\
  fst (selectRows Demo.driver
         (SelectRowsArgs.mk "users" None None (Some []) None None None)
         (Demo.loggedIn Demo.online))
  = Ok (SelectResult.mk [Demo.sample] 1).
Proof.
  destruct (empty_where Demo.driver (Demo.fresh Demo.online)) as (Hreject & _).
  destruct (empty_where Demo.driver (Demo.loggedIn Demo.online)) as (_ & _ & Hselect).
  split.
  - apply (Hreject [("table", VStr "users"); ("data", VObj [("email", VStr "x")]);
                    ("where", VObj [])]).
    reflexivity.
  - destruct (Hselect (SelectRowsArgs.mk "users" None None (Some []) None None None)
                (PoolHandle 0) "`shop`.`users`" "*" ""
                eq_refl (or_intror eq_refl) eq_refl eq_refl eq_refl (or_introl eq_refl))
      as (Hcalls & Hrows).
    split; [exact Hcalls|].
    apply (Hrows [Demo.sample] Demo.online). reflexivity.
Defined.

Lemma select_paging_witness :
  pool (Demo.loggedIn Demo.online) = Some (PoolHandle 0) /\
  failsWith ValidationError
    (fst (select_rows Demo.driver [("table", VStr "users"); ("offset", VNum 5)]
            (Demo.loggedIn Demo.online))) /\
  calls (snd (selectRows Demo.driver
                (SelectRowsArgs.mk "users" None None (Some [("id", VNum 3)]) None
                   (Some 10%Z) (Some 5%Z))
                (Demo.loggedIn Demo.online)))
  = [CallPoolQuery (PoolHandle 0)
       "SELECT * FROM `shop`.`users` WHERE `id` = ? LIMIT ? OFFSET ?"
       [VNum 3; VNum 10; VNum 5]].
Proof.
  destruct (select_paging Demo.driver (Demo.loggedIn Demo.online) (PoolHandle 0) eq_refl)
    as (Htool & _ & Hbound).
  split; [reflexivity|]. split.
  - apply (Htool [("table", VStr "users"); ("offset", VNum 5)] (VNum 5)); reflexivity.
  - apply (Hbound (SelectRowsArgs.mk "users" None None (Some [("id", VNum 3)]) None
                     (Some 10%Z) (Some 5%Z))
             "`shop`.`users`" "*" "" (WhereClause.mk " WHERE `id` = ?" [VNum 3]) 10%Z);
      reflexivity.
Defined.


(** ** Some runs *)

(** [$] without the [m] flag is the end of the input: a trailing line feed is
    not overlooked. *)
Example trailing_line_feed_rejected :
  assertIdentifier ("users" +++ String "010"%char "") "table"
  = Err (invalidIdentifier "table").
Proof. reflexivity. Qed.

Example select_rows_full_statement :
  calls (snd (select_rows Demo.driver
                [("table", VStr "users");
                 ("columns", VArr [VStr "id"; VStr "email"]);
                 ("where", VObj [("status", VStr "active"); ("deleted_at", VNull)]);
                 ("orderBy", VStr "id desc");
                 ("limit", VNum 10);
                 ("offset", VNum 20)]
                (Demo.loggedIn Demo.online)))
  = [CallPoolQuery (PoolHandle 0)
       "SELECT `id`, `email` FROM `shop`.`users` WHERE `status` = ? AND `deleted_at` IS NULL ORDER BY `id` DESC LIMIT ? OFFSET ?"
       [VStr "active"; VNum 10; VNum 20]].
Proof. reflexivity. Qed.

Example authenticate_then_use_database :
  session (serveAll Demo.driver
             [ReqAuthMySql Demo.rootArgs;
              ReqUseDatabase (UseDatabaseArgs.mk "analytics");
              ReqUseDatabase (UseDatabaseArgs.mk "missing");
              ReqExecuteSql (ExecuteSqlArgs.mk "SELECT 1" None (Some "shop"))]
             (Demo.fresh Demo.online))
  = Some (AuthSession.mk "127.0.0.1" 3306 "root" (Some "analytics") false).
Proof. reflexivity. Qed.

Example update_rows_statement :
  calls (snd (update_rows Demo.driver
                [("table", VStr "users");
                 ("data", VObj [("email", VStr "changed@example.com")]);
                 ("where", VObj [("id", VNum 1)])]
                (Demo.loggedIn Demo.online)))
  = [CallPoolExecute (PoolHandle 0)
       "UPDATE `shop`.`users` SET `email` = ? WHERE `id` = ?"
       [VStr "changed@example.com"; VNum 1]].
Proof. reflexivity. Qed.

(** * Further properties of the gateway *)

(** ** Identifiers and placeholders *)

Lemma identifierShape_dec (s : string) : identifierShape s \/ ~ identifierShape s.
Proof.
  destruct (Regex.test identifierPattern s) eqn:T.
  - left. now apply lang_identifier, test_lang.
  - right. intros S. apply lang_identifier, test_lang in S. congruence.
Qed.

Lemma validKeys_dec (entries : Fields) : validKeys entries \/ ~ validKeys entries.
Proof.
  induction entries as [|e rest IH].
  - left. constructor.
  - destruct (identifierShape_dec (fst e)) as [S | S].
    + destruct IH as [V | V].
      * left. now constructor.
      * right. intros H. inversion H. contradiction.
    + right. intros H. inversion H. contradiction.
Qed.

Lemma placeholders_append (a b : string) :
  placeholders (a +++ b) = placeholders a + placeholders b.
Proof. induction a as [|c a IH]; simpl; [reflexivity | rewrite IH; lia]. Qed.

Lemma tail_not_placeholder (c : ascii) :
  identifierTail c = true -> Ascii.eqb c "?" = false.
Proof.
  intros H. destruct (Ascii.eqb_spec c "?") as [-> |]; [discriminate H | reflexivity].
Qed.

Lemma tail_not_backtick (c : ascii) : identifierTail c = true -> c <> "`"%char.
Proof. intros H ->. discriminate H. Qed.

Lemma placeholders_shape (s : string) : identifierShape s -> placeholders s = 0.
Proof.
  intros S.
  assert (F : forall c, In c (Str.chars s) -> Ascii.eqb c "?" = false).
  { intros c Hin. apply tail_not_placeholder. now apply (shape_chars s). }
  clear S. induction s as [|c s IH]; simpl; [reflexivity|].
  rewrite (F c) by (simpl; auto). simpl. apply IH. intros x Hx. apply F. simpl. auto.
Qed.

Lemma placeholders_quote (s : string) : identifierShape s -> placeholders (quote s) = 0.
Proof.
  intros S. unfold quote. rewrite !placeholders_append, (placeholders_shape s S).
  reflexivity.
Qed.

Lemma placeholders_join (sep : string) (parts : list string) :
  placeholders sep = 0 ->
  placeholders (Str.join sep parts) = list_sum (map placeholders parts).
Proof.
  intros Z. induction parts as [|p rest IH]; simpl; [reflexivity|].
  destruct rest as [|q rest'].
  - simpl. lia.
  - rewrite !placeholders_append, Z, IH. simpl. lia.
Qed.

Lemma placeholders_conditions (entries : Fields) :
  validKeys entries ->
  list_sum (map placeholders (map condition entries)) = length (boundValues entries).
Proof.
  unfold boundValues. induction 1 as [|[key value] rest S _ IH]; [reflexivity|].
  assert (E : list_sum (map placeholders (map condition ((key, value) :: rest)))
              = placeholders (quote key +++ (if isNull value then " IS NULL" else " = ?"))
                + list_sum (map placeholders (map condition rest))) by reflexivity.
  rewrite E, placeholders_append, (placeholders_quote key S), IH.
  cbn [map snd filter]. destruct (isNull value); reflexivity.
Qed.

Lemma whereLoop_ok_valid (entries : Fields) :
  forall parts values r, whereLoop entries parts values = Ok r -> validKeys entries.
Proof.
  induction entries as [|[key value] rest IH]; intros parts values r H.
  - constructor.
  - cbn [whereLoop] in H.
    destruct (escapeIdentifier key ("where." +++ key)) as [q|e] eqn:E; cbn [rbind] in H;
      [|discriminate].
    apply escapeIdentifier_inv in E as [_ S].
    constructor; [exact S|]. destruct (isNull value); eapply IH; eassumption.
Qed.

(** What [buildWhereClause] does with a non-empty filter. *)
Lemma buildWhereClause_cases (entries : Fields) :
  entries <> [] ->
  (validKeys entries /\
   buildWhereClause (Some entries)
   = Ok (WhereClause.mk (" WHERE " +++ Str.join " AND " (map condition entries))
           (boundValues entries))) \/
  (exists key, In key (map fst entries) /\ ~ identifierShape key /\
     buildWhereClause (Some entries) = Err (invalidIdentifier ("where." +++ key))).
Proof.
  intros N. destruct entries as [|e rest]; [contradiction|].
  destruct (validKeys_dec (e :: rest)) as [V | V].
  - left. split; [exact V|]. unfold buildWhereClause. simpl Nat.eqb. cbv iota.
    now rewrite (whereLoop_valid _ V).
  - right. unfold buildWhereClause. simpl Nat.eqb. cbv iota.
    destruct (whereLoop_invalid _ V [] []) as (key & Hin & Hk & ->).
    exists key. auto.
Qed.

(** X1.  [assertIdentifier] accepts a string exactly when it is a letter or
    an underscore followed by letters, digits and underscores: any other
    code unit anywhere in the string makes it fail with the ValidationError
    of the field.  A quoted identifier therefore holds no backtick between
    its two delimiters and no placeholder. *)
Theorem assertIdentifier_exact (value field : string) :
  (assertIdentifier value field = Ok value <-> identifierShape value) /\
  (forall c, In c (Str.chars value) -> identifierTail c = false ->
             assertIdentifier value field = Err (invalidIdentifier field)) /\
  (forall q, escapeIdentifier value field = Ok q ->
             q = "`" +++ value +++ "`" /\
             ~ In "`"%char (Str.chars value) /\
             placeholders q = 0).
Proof.
  split; [|split].
  - split.
    + intros H. now apply assertIdentifier_inv in H.
    + apply assertIdentifier_ok.
  - intros c Hin Hc. apply assertIdentifier_err. intros S.
    rewrite (shape_chars _ _ S Hin) in Hc. discriminate.
  - intros q H. apply escapeIdentifier_inv in H as [-> S]. split; [reflexivity|].
    split.
    + intros Hin. now apply (tail_not_backtick _ (shape_chars _ _ S Hin)).
    + now apply placeholders_quote.
Qed.

Lemma assertIdentifier_exact_witness :
  assertIdentifier "na;me" "table" = Err (invalidIdentifier "table") /\
  placeholders "`name`" = 0.
Proof.
  split.
  - apply (proj1 (proj2 (assertIdentifier_exact "na;me" "table")) ";"%char).
    + simpl. auto.
    + reflexivity.
  - apply (proj2 (proj2 (assertIdentifier_exact "name" "table")) "`name`"). reflexivity.
Defined.

(** ** The WHERE clause *)

Lemma whereLoop_text (e1 : Fields) :
  forall e2 parts v1 v2,
    map fst e1 = map fst e2 ->
    map (fun e => isNull (snd e)) e1 = map (fun e => isNull (snd e)) e2 ->
    match whereLoop e1 parts v1, whereLoop e2 parts v2 with
    | Ok r1, Ok r2 => fst r1 = fst r2
    | Err a, Err b => a = b
    | _, _ => False
    end.
Proof.
  induction e1 as [|[k1 x1] rest1 IH]; intros [|[k2 x2] rest2] parts v1 v2 Hk Hn;
    try discriminate; cbn [whereLoop].
  - reflexivity.
  - simpl in Hk, Hn. injection Hk as <- Hk. injection Hn as Hx Hn.
    destruct (escapeIdentifier k1 ("where." +++ k1)) as [q|e]; cbn [rbind]; [|reflexivity].
    rewrite <- Hx. destruct (isNull x1); now apply IH.
Qed.

(** X2.  The text of a WHERE clause depends on the keys of the filter and on
    which of its values are null, and on nothing else: two filters with the
    same keys and the same null pattern give the same text, or the same
    exception, whatever their values are. *)
Theorem where_text_ignores_values (e1 e2 : Fields) :
  map fst e1 = map fst e2 ->
  map (fun e => isNull (snd e)) e1 = map (fun e => isNull (snd e)) e2 ->
  match buildWhereClause (Some e1), buildWhereClause (Some e2) with
  | Ok w1, Ok w2 => WhereClause.sql w1 = WhereClause.sql w2
  | Err a, Err b => a = b
  | _, _ => False
  end.
Proof.
  intros Hk Hn. unfold buildWhereClause.
  assert (L : length e1 = length e2).
  { rewrite <- (length_map fst e1), Hk. apply length_map. }
  rewrite <- L. destruct (Nat.eqb (length e1) 0); [reflexivity|].
  pose proof (whereLoop_text e1 e2 [] [] [] Hk Hn) as T.
  destruct (whereLoop e1 [] []) as [r1|a], (whereLoop e2 [] []) as [r2|b];
    cbn [rbind WhereClause.sql]; try contradiction; [now rewrite T | exact T].
Qed.

Lemma where_text_ignores_values_witness :
  match buildWhereClause (Some [("name", VStr "x' OR '1'='1"); ("gone", VNull)]),
        buildWhereClause (Some [("name", VNum 7); ("gone", VNull)]) with
  | Ok w1, Ok w2 => WhereClause.sql w1 = WhereClause.sql w2
  | Err a, Err b => a = b
  | _, _ => False
  end.
Proof.
  exact (where_text_ignores_values
           [("name", VStr "x' OR '1'='1"); ("gone", VNull)]
           [("name", VNum 7); ("gone", VNull)] eq_refl eq_refl).
Defined.

(** X3.  A WHERE clause built by [buildWhereClause] has exactly as many [?]
    placeholders as bound values. *)
Theorem where_placeholders (where_ : option Fields) (w : WhereClause.t) :
  buildWhereClause where_ = Ok w ->
  placeholders (WhereClause.sql w) = length (WhereClause.values w).
Proof.
  destruct where_ as [[|e rest]|]; try (intros H; injection H as <-; reflexivity).
  intros H.
  destruct (buildWhereClause_cases (e :: rest)) as [[V E] | (key & _ & _ & E)];
    [discriminate | |]; rewrite E in H; [|discriminate].
  injection H as <-.
  change (placeholders (" WHERE " +++ Str.join " AND " (map condition (e :: rest)))
          = length (boundValues (e :: rest))).
  rewrite placeholders_append, (placeholders_join " AND ") by reflexivity.
  rewrite (placeholders_conditions _ V). reflexivity.
Qed.

Lemma where_placeholders_witness :
  placeholders " WHERE `a` = ? AND `b` IS NULL AND `c` = ?" = 2.
Proof.
  exact (where_placeholders (Some [("a", VNum 1); ("b", VNull); ("c", VStr "?")])
           (WhereClause.mk " WHERE `a` = ? AND `b` IS NULL AND `c` = ?" [VNum 1; VStr "?"])
           eq_refl).
Defined.

(** ** The table reference *)

Section ResolutionFacts.
Context {World : Type}.

(** X4.  [escapeTableReference] checks the table first, then resolves the
    database: the [database] argument when there is one, otherwise the
    database of the session.  An empty [database] argument is not replaced by
    the database of the session: it is "No database selected", as is the
    absence of both. *)
Theorem tableReference_resolution (table : string) (database : option string)
  (m : Machine World) :
  let r := fst (escapeTableReference table database m) in
  (~ identifierShape table -> r = Err (invalidIdentifier "table")) /\
  (identifierShape table ->
     (forall d, database = Some d -> identifierShape d ->
                r = Ok (("`" +++ d +++ "`") +++ "." +++ ("`" +++ table +++ "`"))) /\
     (database = Some "" -> r = Err noDatabaseSelected) /\
     (forall d, database = None -> sessionDatabase (session m) = Some d ->
                identifierShape d ->
                r = Ok (("`" +++ d +++ "`") +++ "." +++ ("`" +++ table +++ "`"))) /\
     (database = None -> sessionDatabase (session m) = None ->
      r = Err noDatabaseSelected) /\
     (forall d, coalesce database (sessionDatabase (session m)) = Some d ->
                d <> "" -> ~ identifierShape d ->
                r = Err (invalidIdentifier "database"))).
Proof.
  intros r. subst r.
  unfold escapeTableReference, bind, liftR, getSession, throw, ret. split.
  - intros N. now rewrite (escapeIdentifier_err table "table" N).
  - intros S. rewrite (escapeIdentifier_ok table "table" S).
    cbn [fst snd session]. repeat split.
    + intros d -> Sd. cbn [coalesce]. rewrite (shape_truthy d Sd). cbn [negb].
      now rewrite (escapeIdentifier_ok d "database" Sd).
    + intros ->. reflexivity.
    + intros d -> -> Sd. cbn [coalesce]. rewrite (shape_truthy d Sd). cbn [negb].
      now rewrite (escapeIdentifier_ok d "database" Sd).
    + intros -> ->. reflexivity.
    + intros d -> Hd N. destruct d as [|c d]; [contradiction|]. cbn [Str.truthy negb].
      now rewrite (escapeIdentifier_err _ "database" N).
Qed.

End ResolutionFacts.

Lemma tableReference_resolution_witness :
  fst (escapeTableReference "users" (Some "analytics") (Demo.loggedIn Demo.online))
  = Ok "`analytics`.`users`" /\
  fst (escapeTableReference "users" (Some "") (Demo.loggedIn Demo.online))
  = Err noDatabaseSelected /\
  fst (escapeTableReference "users" None (Demo.loggedIn Demo.online))
  = Ok "`shop`.`users`".
Proof.
  pose proof (proj2 (tableReference_resolution "users" (Some "analytics")
                       (Demo.loggedIn Demo.online))) as H1.
  pose proof (proj2 (tableReference_resolution "users" (Some "")
                       (Demo.loggedIn Demo.online))) as H2.
  pose proof (proj2 (tableReference_resolution "users" None
                       (Demo.loggedIn Demo.online))) as H3.
  assert (S : identifierShape "users") by (simpl; repeat constructor).
  split; [|split].
  - apply (proj1 (H1 S) "analytics" eq_refl). simpl. repeat constructor.
  - apply (proj1 (proj2 (H2 S)) eq_refl).
  - apply (proj1 (proj2 (proj2 (H3 S))) "shop" eq_refl eq_refl). simpl. repeat constructor.
Defined.

(** ** Authentication and logout *)

Section AuthFacts.
Context {World : Type} (driver : Driver World).

(** X5.  A successful [authMySql] first ends the pool it held, if any, then
    creates the new pool and probes it with [SELECT 1], in that order.  It
    installs the new pool and a session with the host, the user, the database
    ([null] when absent) and the TLS flag of the arguments and with the port
    of the arguments, 3306 standing for an absent port and for port 0, and it
    returns that session with [authenticated: true]. *)
Theorem authenticate_success (args : MySqlAuthArgs.t) (m : Machine World)
  (w1 w2 w3 : World) (p : Pool) (rows : list Fields) :
  priorClosed driver m w1 ->
  createPool driver (authOptions args) w1 = (Ok p, w2) ->
  poolQuery driver p "SELECT 1" [] w2 = (Ok rows, w3) ->
  let out := authMySql driver args m in
  let installed :=
    AuthSession.mk (MySqlAuthArgs.host args) (sessionPort (MySqlAuthArgs.port args))
      (MySqlAuthArgs.user args) (MySqlAuthArgs.database args)
      (match MySqlAuthArgs.ssl args with Some b => b | None => false end) in
  fst out
  = Ok (AuthResult.mk true (AuthSession.host installed) (AuthSession.port installed)
          (AuthSession.user installed) (AuthSession.database installed)
          (AuthSession.ssl installed)) /\
  pool (snd out) = Some p /\
  session (snd out) = Some installed /\
  world (snd out) = w3 /\
  calls (snd out)
  = calls m ++ closesPrior m
      ++ [CallCreatePool (authOptions args); CallPoolQuery p "SELECT 1" []].
Proof.
  intros Hend Hc Hq out installed. subst out installed.
  unfold priorClosed, closesPrior in *.
  assert (Hhost : (if Str.truthy (MySqlAuthArgs.host args)
                   then MySqlAuthArgs.host args else MySqlAuthArgs.host args)
                  = MySqlAuthArgs.host args) by (destruct (Str.truthy _); reflexivity).
  assert (Hport : (if Z.eqb (match MySqlAuthArgs.port args with
                             | Some n => n | None => 3306%Z end) 0
                   then 3306%Z
                   else match MySqlAuthArgs.port args with
                        | Some n => n | None => 3306%Z end)
                  = sessionPort (MySqlAuthArgs.port args)).
  { unfold sessionPort. destruct (MySqlAuthArgs.port args); reflexivity. }
  unfold authMySql, bind, getPool, tryCatch, bind, query, perform, setPool, setSession,
    throw, ret, authSession.
  cbn [pool world session calls fst snd PoolOptions.host PoolOptions.port authOptions].
  destruct (pool m) as [old|].
  - rewrite Hend. cbn [pool world session calls fst snd]. rewrite Hc.
    cbn [pool world session calls fst snd]. rewrite Hq.
    cbn [pool world session calls fst snd AuthSession.host AuthSession.port
           AuthSession.user AuthSession.database AuthSession.ssl].
    rewrite Hhost, Hport, <- !app_assoc. repeat split; reflexivity.
  - subst w1. cbn [pool world session calls fst snd]. rewrite Hc.
    cbn [pool world session calls fst snd]. rewrite Hq.
    cbn [pool world session calls fst snd AuthSession.host AuthSession.port
           AuthSession.user AuthSession.database AuthSession.ssl].
    rewrite Hhost, Hport, <- !app_assoc. repeat split; reflexivity.
Qed.

(** X6.  When ending the pool it holds throws, [authMySql] and [logout]
    rethrow that exception as it is, and the instance keeps its pool and its
    session: no new pool is created and nothing is cleared. *)
Theorem end_failure_keeps_session (args : MySqlAuthArgs.t) (m : Machine World)
  (old : Pool) (e : Error) (w1 : World) :
  pool m = Some old ->
  poolEnd driver old (world m) = (Err e, w1) ->
  let kept := mkMachine (pool m) (session m) w1 (calls m ++ [CallPoolEnd old]) in
  authMySql driver args m = (Err e, kept) /\ logout driver m = (Err e, kept).
Proof.
  intros Hp He kept. subst kept.
  unfold authMySql, logout, bind, getPool, perform.
  cbn [pool world session calls fst snd]. rewrite Hp, He.
  cbn [pool world session calls fst snd]. rewrite ?Hp. split; reflexivity.
Qed.

(** X7.  [logout] without a pool makes no driver call and succeeds; with a
    pool whose end resolves it makes that one call.  Either way the pool and
    the session are cleared, [getAuthStatus] reports [authenticated: false]
    with no session, and the next [ensureAuthenticated] fails. *)
Theorem logout_clears (m : Machine World) (w1 : World) :
  priorClosed driver m w1 ->
  let out := logout driver m in
  fst out = Ok (LogoutResult.mk "MySQL session cleared" false) /\
  snd out = mkMachine None None w1 (calls m ++ closesPrior m) /\
  fst (getAuthStatus (snd out)) = Ok (AuthStatus.mk false None) /\
  fst (ensureAuthenticated (snd out)) = Err notAuthenticated.
Proof.
  intros Hend out. subst out. unfold priorClosed, closesPrior in *.
  unfold logout, bind, getPool, perform, setPool, setSession, ret.
  cbn [pool world session calls fst snd].
  destruct (pool m) as [old|].
  - rewrite Hend. cbn. repeat split; reflexivity.
  - subst w1. cbn. rewrite app_nil_r. repeat split; reflexivity.
Qed.

(** X8.  Only [authMySql] and [logout] change the pool of an instance, and
    besides them only [useDatabase] changes its session, which it does by
    replacing the database of the session in place and nothing else.  The two
    resource methods change neither. *)
Theorem session_transitions (r : Request) (m : Machine World) :
  (pool (serve driver r m) <> pool m ->
   (exists args, r = ReqAuthMySql args) \/ r = ReqLogout) /\
  (session (serve driver r m) <> session m ->
   (exists args, r = ReqAuthMySql args) \/ r = ReqLogout \/
   exists args s,
     r = ReqUseDatabase args /\ session m = Some s /\
     session (serve driver r m) = Some (withDatabase s (UseDatabaseArgs.database args))) /\
  preservesSession (listResources driver) /\
  (forall stringify uri, preservesSession (readResource driver stringify uri)).
Proof.
  assert (R : preservesSession (listResources driver) /\
              forall stringify uri, preservesSession (readResource driver stringify uri)).
  { split.
    - unfold listResources.
      apply preserves_bind; [apply preserves_getSession | intros s].
      apply preserves_bind; [apply listTables_preserves | intros tables].
      apply preserves_ret.
    - intros stringify uri. unfold readResource.
      destruct (matchResourceUri uri) as [[database table]|]; [|apply preserves_throw].
      apply preserves_bind; [apply describeTable_preserves | intros result].
      apply preserves_ret. }
  cut ((pool (serve driver r m) <> pool m ->
        (exists args, r = ReqAuthMySql args) \/ r = ReqLogout) /\
       (session (serve driver r m) <> session m ->
        (exists args, r = ReqAuthMySql args) \/ r = ReqLogout \/
        exists args s,
          r = ReqUseDatabase args /\ session m = Some s /\
          session (serve driver r m)
          = Some (withDatabase s (UseDatabaseArgs.database args)))).
  { intros [A B]. destruct R as [R1 R2].
    split; [exact A | split; [exact B | split; [exact R1 | exact R2]]]. }
  clear R.
  assert (K : forall A (c : M World A),
             preservesSession c ->
             (pool (after c m) <> pool m -> False) /\
             (session (after c m) <> session m -> False)).
  { intros A c H. unfold after. destruct (H m) as [-> ->]. split; intros N; now apply N. }
  assert (Q : forall A (c : M World A),
             preservesSession c ->
             (pool (after c m) <> pool m ->
              (exists args, r = ReqAuthMySql args) \/ r = ReqLogout) /\
             (session (after c m) <> session m ->
              (exists args, r = ReqAuthMySql args) \/ r = ReqLogout \/
              exists args s,
                r = ReqUseDatabase args /\ session m = Some s /\
                session (after c m) = Some (withDatabase s (UseDatabaseArgs.database args)))).
  { intros A c H. destruct (K A c H) as [P S]. split; intros N; exfalso; auto. }
  destruct r; cbn [serve].
  - split; intros _; left; eexists; reflexivity.
  - apply Q, getAuthStatus_preserves.
  - split; intros _; [right | right; left]; reflexivity.
  - apply Q, health_preserves.
  - apply Q, listDatabases_preserves.
  - apply Q, listTables_preserves.
  - apply Q, describeTable_preserves.
  - unfold after.
    destruct (useDatabase_outcome driver args m) as (_ & Hok & Herr).
    destruct (fst (useDatabase driver args m)) as [res|e] eqn:E.
    + destruct (Hok res eq_refl) as (p & s & row & rows & w' & _ & Hs & _ & _ & Hs' & Hp & _).
      split; intros H; [contradiction|].
      right. right. exists args, s. auto.
    + destruct (Herr e eq_refl) as [Hs Hp]. split; intros H; contradiction.
  - apply Q, selectRows_preserves.
  - apply Q, insertRow_preserves.
  - apply Q, updateRows_preserves.
  - apply Q, deleteRows_preserves.
  - apply Q, executeSql_preserves.
Qed.

End AuthFacts.

Lemma authenticate_success_witness :
  fst (authMySql Demo.driver
         (MySqlAuthArgs.mk "127.0.0.1" (Some 0%Z) "root" "secret" None (Some true))
         (Demo.loggedIn Demo.online))
  = Ok (AuthResult.mk true "127.0.0.1" 3306 "root" None true) /\
  calls (snd (authMySql Demo.driver
                (MySqlAuthArgs.mk "127.0.0.1" (Some 0%Z) "root" "secret" None (Some true))
                (Demo.loggedIn Demo.online)))
  = [CallPoolEnd (PoolHandle 0);
     CallCreatePool (authOptions
                       (MySqlAuthArgs.mk "127.0.0.1" (Some 0%Z) "root" "secret" None
                          (Some true)));
     CallPoolQuery (PoolHandle 0) "SELECT 1" []].
Proof.
  destruct (authenticate_success Demo.driver
              (MySqlAuthArgs.mk "127.0.0.1" (Some 0%Z) "root" "secret" None (Some true))
              (Demo.loggedIn Demo.online) Demo.online
              (Demo.mkServer ["shop"; "analytics"] true 1)
              (Demo.mkServer ["shop"; "analytics"] true 1)
              (PoolHandle 0) [Demo.sample] eq_refl eq_refl eq_refl)
    as (Hr & _ & _ & _ & Hc).
  split; [exact Hr | exact Hc].
Defined.

Lemma end_failure_keeps_session_witness :
  fst (authMySql Stuck.driver Demo.rootArgs Stuck.loggedIn) = Err Stuck.busy /\
  session (snd (authMySql Stuck.driver Demo.rootArgs Stuck.loggedIn))
  = session Stuck.loggedIn /\
  session (snd (logout Stuck.driver Stuck.loggedIn)) = session Stuck.loggedIn.
Proof.
  destruct (end_failure_keeps_session Stuck.driver Demo.rootArgs Stuck.loggedIn
              (PoolHandle 0) Stuck.busy tt eq_refl eq_refl) as (Ha & Hl).
  rewrite Ha, Hl. repeat split; reflexivity.
Defined.

Lemma logout_clears_witness :
  snd (logout Demo.driver (Demo.loggedIn Demo.online))
  = mkMachine None None Demo.online [CallPoolEnd (PoolHandle 0)] /\
  snd (logout Demo.driver (Demo.fresh Demo.online)) = Demo.fresh Demo.online.
Proof.
  split.
  - apply (logout_clears Demo.driver (Demo.loggedIn Demo.online) Demo.online). reflexivity.
  - apply (logout_clears Demo.driver (Demo.fresh Demo.online) Demo.online). reflexivity.
Defined.

Lemma session_transitions_witness :
  exists args s,
    ReqUseDatabase (UseDatabaseArgs.mk "analytics") = ReqUseDatabase args /\
    session (Demo.loggedIn Demo.online) = Some s /\
    session (serve Demo.driver (ReqUseDatabase (UseDatabaseArgs.mk "analytics"))
               (Demo.loggedIn Demo.online))
    = Some (withDatabase s (UseDatabaseArgs.database args)).
Proof.
  destruct (proj1 (proj2 (session_transitions Demo.driver
                            (ReqUseDatabase (UseDatabaseArgs.mk "analytics"))
                            (Demo.loggedIn Demo.online))))
    as [(args & H) | [H | H]].
  - discriminate.
  - discriminate H.
  - discriminate H.
  - exact H.
Defined.

(** ** The statements of the row methods *)

Lemma mapR_keys (prefix : string) (g : string -> string)
  (f : string * Value -> Result string) (entries : Fields) :
  (forall e, f e = rbind (escapeIdentifier (fst e) (prefix +++ fst e)) (fun k => Ok (g k))) ->
  (validKeys entries /\ mapR f entries = Ok (map (fun e => g (quote (fst e))) entries)) \/
  (exists key, In key (map fst entries) /\ ~ identifierShape key /\
     mapR f entries = Err (invalidIdentifier (prefix +++ key))).
Proof.
  intros Hf. induction entries as [|e rest IH].
  - left. split; [constructor | reflexivity].
  - cbn [mapR]. rewrite Hf.
    destruct (identifierShape_dec (fst e)) as [S | S].
    + rewrite (escapeIdentifier_ok _ _ S). cbn [rbind].
      destruct IH as [[V ->] | (key & Hin & Hk & ->)].
      * left. split; [now constructor | reflexivity].
      * right. exists key. cbn [map In rbind]. auto.
    + right. exists (fst e). rewrite (escapeIdentifier_err _ _ S).
      cbn [map In rbind]. auto.
Qed.



Lemma placeholders_assignments (entries : Fields) :
  validKeys entries ->
  list_sum (map placeholders (map (fun e => quote (fst e) +++ " = ?") entries))
  = length entries.
Proof.
  induction 1 as [|e rest S _ IH]; [reflexivity|].
  assert (E : list_sum (map placeholders
                          (map (fun e => quote (fst e) +++ " = ?") (e :: rest)))
              = placeholders (quote (fst e) +++ " = ?")
                + list_sum (map placeholders
                              (map (fun e => quote (fst e) +++ " = ?") rest)))
    by reflexivity.
  rewrite E, placeholders_append, (placeholders_quote _ S), IH. reflexivity.
Qed.

Section StatementFacts.
Context {World : Type} (driver : Driver World).

Lemma escapeTableReference_ok (table : string) (database : option string)
  (m : Machine World) (tableRef : string) :
  fst (escapeTableReference table database m) = Ok tableRef ->
  escapeTableReference table database m = (Ok tableRef, m) /\
  exists d, coalesce database (sessionDatabase (session m)) = Some d /\
            identifierShape d /\ identifierShape table /\
            tableRef = quote d +++ "." +++ quote table.
Proof.
  intros H.
  destruct (escapeTableReference_run table database m) as (r & E & _).
  rewrite E in H. cbn [fst] in H. subst r. split; [exact E|].
  revert E. unfold escapeTableReference, bind, liftR, getSession, throw, ret.
  destruct (escapeIdentifier table "table") as [q|e] eqn:T; [|discriminate].
  apply escapeIdentifier_inv in T as [-> St]. cbn [fst snd session].
  destruct (coalesce database (sessionDatabase (session m))) as [d|]; [|discriminate].
  destruct (Str.truthy d); cbn [negb]; [|discriminate].
  destruct (escapeIdentifier d "database") as [qd|e] eqn:D; [|discriminate].
  apply escapeIdentifier_inv in D as [-> Sd].
  intros E. injection E as <-. exists d. auto.
Qed.

Lemma tableRef_placeholders (table : string) (database : option string)
  (m : Machine World) (tableRef : string) :
  fst (escapeTableReference table database m) = Ok tableRef -> placeholders tableRef = 0.
Proof.
  intros H. apply escapeTableReference_ok in H as (_ & d & _ & Sd & St & ->).
  now rewrite !placeholders_append, (placeholders_quote d Sd), (placeholders_quote table St).
Qed.

Lemma execute_outcome {A : Type} (p : Pool) (sql : string) (values : list Value)
  (f : ResultSetHeader.t -> A) (m : Machine World) :
  let out := bind (execute driver p sql values) (fun result => ret (f result)) m in
  calls (snd out) = calls m ++ [CallPoolExecute p sql values] /\
  (forall h w', poolExecute driver p sql values (world m) = (Ok h, w') ->
                fst out = Ok (f h)) /\
  (forall e w', poolExecute driver p sql values (world m) = (Err e, w') -> fst out = Err e).
Proof.
  unfold bind, execute, perform, ret.
  destruct (poolExecute driver p sql values (world m)) as [[h|e] w1]; cbn;
    repeat split; intros; congruence.
Qed.


End StatementFacts.

Lemma mapR_keys_valid (prefix : string) (g : string -> string)
  (f : string * Value -> Result string) (entries : Fields) :
  (forall e, f e = rbind (escapeIdentifier (fst e) (prefix +++ fst e)) (fun k => Ok (g k))) ->
  validKeys entries ->
  mapR f entries = Ok (map (fun e => g (quote (fst e))) entries).
Proof.
  intros Hf V. destruct (mapR_keys prefix g f entries Hf) as [[_ M] | (key & Hin & Hk & _)];
    [exact M|].
  exfalso. unfold validKeys in V. rewrite Forall_forall in V.
  apply in_map_iff in Hin as (e & <- & He). now apply Hk, V.
Qed.

Lemma mapR_keys_invalid (prefix : string) (g : string -> string)
  (f : string * Value -> Result string) (entries : Fields) :
  (forall e, f e = rbind (escapeIdentifier (fst e) (prefix +++ fst e)) (fun k => Ok (g k))) ->
  ~ validKeys entries ->
  exists key, In key (map fst entries) /\ ~ identifierShape key /\
    mapR f entries = Err (invalidIdentifier (prefix +++ key)).
Proof.
  intros Hf N. destruct (mapR_keys prefix g f entries Hf) as [[V _] | H];
    [contradiction | exact H].
Qed.

Lemma buildWhereClause_valid (entries : Fields) :
  entries <> [] -> validKeys entries ->
  buildWhereClause (Some entries)
  = Ok (WhereClause.mk (" WHERE " +++ Str.join " AND " (map condition entries))
          (boundValues entries)).
Proof.
  intros N V. destruct (buildWhereClause_cases entries N) as [[_ E] | (key & Hin & Hk & _)];
    [exact E|].
  exfalso. unfold validKeys in V. rewrite Forall_forall in V.
  apply in_map_iff in Hin as (e & <- & He). now apply Hk, V.
Qed.

Lemma buildWhereClause_invalid (entries : Fields) :
  entries <> [] -> ~ validKeys entries ->
  exists key, In key (map fst entries) /\ ~ identifierShape key /\
    buildWhereClause (Some entries) = Err (invalidIdentifier ("where." +++ key)).
Proof.
  intros N V. destruct (buildWhereClause_cases entries N) as [[V' _] | H];
    [contradiction | exact H].
Qed.

Section MutationFacts.
Context {World : Type} (driver : Driver World).

Lemma updateRows_unfolded (args : UpdateRowsArgs.t) (m : Machine World) (p : Pool)
  (tableRef : string) :
  pool m = Some p ->
  escapeTableReference (UpdateRowsArgs.table args) (UpdateRowsArgs.database args) m
  = (Ok tableRef, m) ->
  updateRows driver args m
  = if Nat.eqb (length (UpdateRowsArgs.data args)) 0 then (Err dataCannotBeEmpty, m)
    else
      match mapR (fun e : string * Value =>
                    rbind (escapeIdentifier (fst e) ("data." +++ fst e))
                      (fun k => Ok (k +++ " = ?"))) (UpdateRowsArgs.data args) with
      | Err e => (Err e, m)
      | Ok assignments =>
          match buildWhereClause (Some (UpdateRowsArgs.where_ args)) with
          | Err e => (Err e, m)
          | Ok w =>
              if negb (Str.truthy (WhereClause.sql w))
              then (Err (mkError ValidationError
                           "Invalid parameter: where cannot be empty for update_rows"), m)
              else
                bind (execute driver p
                        ("UPDATE " +++ tableRef +++ " SET " +++ Str.join ", " assignments
                           +++ WhereClause.sql w)
                        (map snd (UpdateRowsArgs.data args) ++ WhereClause.values w))
                  (fun result => ret (ResultSetHeader.affectedRows result)) m
          end
      end.
Proof.
  intros Hp Ht. unfold updateRows. rewrite (ensure_some _ _ _ Hp). unfold bind at 1.
  rewrite Ht. cbv zeta.
  destruct (Nat.eqb (length (UpdateRowsArgs.data args)) 0); [reflexivity|].
  unfold bind at 1, liftR at 1.
  destruct (mapR _ (UpdateRowsArgs.data args)); [|reflexivity].
  unfold bind at 1, liftR at 1.
  destruct (buildWhereClause (Some (UpdateRowsArgs.where_ args))) as [w|]; [|reflexivity].
  destruct (negb (Str.truthy (WhereClause.sql w))); reflexivity.
Qed.

Lemma deleteRows_unfolded (args : DeleteRowsArgs.t) (m : Machine World) (p : Pool)
  (tableRef : string) :
  pool m = Some p ->
  escapeTableReference (DeleteRowsArgs.table args) (DeleteRowsArgs.database args) m
  = (Ok tableRef, m) ->
  deleteRows driver args m
  = match buildWhereClause (Some (DeleteRowsArgs.where_ args)) with
    | Err e => (Err e, m)
    | Ok w =>
        if negb (Str.truthy (WhereClause.sql w))
        then (Err (mkError ValidationError
                     "Invalid parameter: where cannot be empty for delete_rows"), m)
        else
          bind (execute driver p ("DELETE FROM " +++ tableRef +++ WhereClause.sql w)
                  (WhereClause.values w))
            (fun result => ret (ResultSetHeader.affectedRows result)) m
    end.
Proof.
  intros Hp Ht. unfold deleteRows. rewrite (ensure_some _ _ _ Hp). unfold bind at 1.
  rewrite Ht. unfold bind at 1, liftR at 1.
  destruct (buildWhereClause (Some (DeleteRowsArgs.where_ args))) as [w|]; [|reflexivity].
  destruct (negb (Str.truthy (WhereClause.sql w))); reflexivity.
Qed.

Lemma updateRows_cases (args : UpdateRowsArgs.t) (m : Machine World) (p : Pool)
  (tableRef : string) :
  pool m = Some p ->
  fst (escapeTableReference (UpdateRowsArgs.table args) (UpdateRowsArgs.database args) m)
  = Ok tableRef ->
  let data := UpdateRowsArgs.data args in
  let filter := UpdateRowsArgs.where_ args in
  (data = [] -> updateRows driver args m = (Err dataCannotBeEmpty, m)) /\
  (data <> [] -> ~ validKeys data ->
     exists key, In key (map fst data) /\ ~ identifierShape key /\
       updateRows driver args m = (Err (invalidIdentifier ("data." +++ key)), m)) /\
  (data <> [] -> validKeys data -> filter = [] ->
     updateRows driver args m
     = (Err (mkError ValidationError
               "Invalid parameter: where cannot be empty for update_rows"), m)) /\
  (data <> [] -> validKeys data -> filter <> [] -> ~ validKeys filter ->
     exists key, In key (map fst filter) /\ ~ identifierShape key /\
       updateRows driver args m = (Err (invalidIdentifier ("where." +++ key)), m)) /\
  (data <> [] -> validKeys data -> filter <> [] -> validKeys filter ->
     updateRows driver args m
     = bind (execute driver p (updateSql tableRef data filter)
               (map snd data ++ boundValues filter))
         (fun result => ret (ResultSetHeader.affectedRows result)) m /\
     placeholders (updateSql tableRef data filter)
     = length (map snd data ++ boundValues filter)).
Proof.
  intros Hp Ht data filter. subst data filter.
  pose proof (tableRef_placeholders _ _ _ _ Ht) as Pt.
  apply escapeTableReference_ok in Ht as (Ht & _).
  rewrite (updateRows_unfolded args m p tableRef Hp Ht).
  set (f := fun e : string * Value =>
              rbind (escapeIdentifier (fst e) ("data." +++ fst e))
                (fun k => Ok (k +++ " = ?"))).
  assert (Hf : forall e, f e = rbind (escapeIdentifier (fst e) ("data." +++ fst e))
                                 (fun k => Ok ((fun q => q +++ " = ?") k)))
    by (intros e; reflexivity).
  assert (L : forall entries : Fields,
             entries <> [] -> Nat.eqb (length entries) 0 = false)
    by (intros [|e rest] N; [contradiction | reflexivity]).
  split; [intros ->; reflexivity|].
  split.
  { intros N V. rewrite (L _ N).
    destruct (mapR_keys_invalid "data." _ f _ Hf V) as (key & Hin & Hk & ->).
    exists key. auto. }
  split.
  { intros N V ->. rewrite (L _ N), (mapR_keys_valid "data." _ f _ Hf V). reflexivity. }
  split.
  { intros N V Nw Vw. rewrite (L _ N), (mapR_keys_valid "data." _ f _ Hf V).
    destruct (buildWhereClause_invalid _ Nw Vw) as (key & Hin & Hk & ->).
    exists key. auto. }
  intros N V Nw Vw. rewrite (L _ N), (mapR_keys_valid "data." _ f _ Hf V).
  rewrite (buildWhereClause_valid _ Nw Vw). cbn [WhereClause.sql WhereClause.values].
  split; [reflexivity|].
  unfold updateSql. rewrite !placeholders_append, Pt.
  rewrite (placeholders_join ", "), (placeholders_join " AND ") by reflexivity.
  rewrite (placeholders_assignments _ V), (placeholders_conditions _ Vw).
  rewrite length_app, length_map. simpl. lia.
Qed.

(** X10.  With a pool and a table reference that resolves, [updateRows]
    checks, in this order, that the data are not empty, that the keys of the
    data are identifiers, that the filter is not empty and that the keys of
    the filter are identifiers, and fails with a ValidationError at the first
    check that does not hold, sending nothing.  Otherwise it sends one
    statement, [UPDATE ref SET k = ?, ... WHERE ...]: the values of the data
    are bound first, nulls included, then the non-null values of the filter,
    and the text has as many placeholders as there are bound values. *)
Theorem updateRows_statement (args : UpdateRowsArgs.t) (m : Machine World) (p : Pool)
  (tableRef : string) :
  pool m = Some p ->
  fst (escapeTableReference (UpdateRowsArgs.table args) (UpdateRowsArgs.database args) m)
  = Ok tableRef ->
  let data := UpdateRowsArgs.data args in
  let filter := UpdateRowsArgs.where_ args in
  (data = [] -> updateRows driver args m = (Err dataCannotBeEmpty, m)) /\
  (data <> [] -> ~ validKeys data ->
     exists key, In key (map fst data) /\ ~ identifierShape key /\
       updateRows driver args m = (Err (invalidIdentifier ("data." +++ key)), m)) /\
  (data <> [] -> validKeys data -> filter = [] ->
     updateRows driver args m
     = (Err (mkError ValidationError
               "Invalid parameter: where cannot be empty for update_rows"), m)) /\
  (data <> [] -> validKeys data -> filter <> [] -> ~ validKeys filter ->
     exists key, In key (map fst filter) /\ ~ identifierShape key /\
       updateRows driver args m = (Err (invalidIdentifier ("where." +++ key)), m)) /\
  (data <> [] -> validKeys data -> filter <> [] -> validKeys filter ->
     updateRows driver args m
     = bind (execute driver p (updateSql tableRef data filter)
               (map snd data ++ boundValues filter))
         (fun result => ret (ResultSetHeader.affectedRows result)) m /\
     placeholders (updateSql tableRef data filter)
     = length (map snd data ++ boundValues filter)).
Proof. exact (updateRows_cases args m p tableRef). Qed.

Lemma deleteRows_cases (args : DeleteRowsArgs.t) (m : Machine World) (p : Pool)
  (tableRef : string) :
  pool m = Some p ->
  fst (escapeTableReference (DeleteRowsArgs.table args) (DeleteRowsArgs.database args) m)
  = Ok tableRef ->
  let filter := DeleteRowsArgs.where_ args in
  (filter = [] ->
     deleteRows driver args m
     = (Err (mkError ValidationError
               "Invalid parameter: where cannot be empty for delete_rows"), m)) /\
  (filter <> [] -> ~ validKeys filter ->
     exists key, In key (map fst filter) /\ ~ identifierShape key /\
       deleteRows driver args m = (Err (invalidIdentifier ("where." +++ key)), m)) /\
  (filter <> [] -> validKeys filter ->
     deleteRows driver args m
     = bind (execute driver p (deleteSql tableRef filter) (boundValues filter))
         (fun result => ret (ResultSetHeader.affectedRows result)) m /\
     placeholders (deleteSql tableRef filter) = length (boundValues filter)).
Proof.
  intros Hp Ht filter. subst filter.
  pose proof (tableRef_placeholders _ _ _ _ Ht) as Pt.
  apply escapeTableReference_ok in Ht as (Ht & _).
  rewrite (deleteRows_unfolded args m p tableRef Hp Ht).
  split; [intros ->; reflexivity|]. split.
  { intros Nw Vw. destruct (buildWhereClause_invalid _ Nw Vw) as (key & Hin & Hk & ->).
    exists key. auto. }
  intros Nw Vw. rewrite (buildWhereClause_valid _ Nw Vw).
  cbn [WhereClause.sql WhereClause.values]. split; [reflexivity|].
  unfold deleteSql. rewrite !placeholders_append, Pt.
  rewrite (placeholders_join " AND ") by reflexivity.
  rewrite (placeholders_conditions _ Vw). simpl. lia.
Qed.


End MutationFacts.

Section FilteredFacts.
Context {World : Type} (driver : Driver World).

Lemma nil_dec (entries : Fields) : entries = [] \/ entries <> [].
Proof. destruct entries; [left; reflexivity | right; discriminate]. Qed.

(** X12.  [updateRows] and [deleteRows] never send a statement without a
    WHERE clause: whatever the arguments and the state, either no call is
    made, or the one call made is the UPDATE or DELETE statement of a filter
    that is not empty and whose keys are identifiers. *)
Theorem mutations_always_filtered (m : Machine World) :
  (forall args,
      let out := updateRows driver args m in
      calls (snd out) = calls m \/
      exists p tableRef,
        UpdateRowsArgs.where_ args <> [] /\ validKeys (UpdateRowsArgs.where_ args) /\
        calls (snd out)
        = calls m ++
          [CallPoolExecute p
             (updateSql tableRef (UpdateRowsArgs.data args) (UpdateRowsArgs.where_ args))
             (map snd (UpdateRowsArgs.data args)
                ++ boundValues (UpdateRowsArgs.where_ args))]) /\
  (forall args,
      let out := deleteRows driver args m in
      calls (snd out) = calls m \/
      exists p tableRef,
        DeleteRowsArgs.where_ args <> [] /\ validKeys (DeleteRowsArgs.where_ args) /\
        calls (snd out)
        = calls m ++
          [CallPoolExecute p (deleteSql tableRef (DeleteRowsArgs.where_ args))
             (boundValues (DeleteRowsArgs.where_ args))]).
Proof.
  split; intros args out; subst out.
  - destruct (pool m) as [p|] eqn:Hp.
    2:{ left. unfold updateRows. now rewrite (ensure_none _ _ Hp). }
    destruct (escapeTableReference_run (UpdateRowsArgs.table args)
                (UpdateRowsArgs.database args) m) as ([tableRef|e] & E & _).
    2:{ left. unfold updateRows. rewrite (ensure_some _ _ _ Hp). unfold bind at 1.
        now rewrite E. }
    assert (Ht : fst (escapeTableReference (UpdateRowsArgs.table args)
                        (UpdateRowsArgs.database args) m) = Ok tableRef)
      by now rewrite E.
    destruct (updateRows_cases driver args m p tableRef Hp Ht)
      as (H1 & H2 & H3 & H4 & H5).
    destruct (nil_dec (UpdateRowsArgs.data args)) as [D | D].
    { left. now rewrite (H1 D). }
    destruct (validKeys_dec (UpdateRowsArgs.data args)) as [V | V].
    2:{ left. destruct (H2 D V) as (key & _ & _ & ->). reflexivity. }
    destruct (nil_dec (UpdateRowsArgs.where_ args)) as [W | W].
    { left. now rewrite (H3 D V W). }
    destruct (validKeys_dec (UpdateRowsArgs.where_ args)) as [Vw | Vw].
    2:{ left. destruct (H4 D V W Vw) as (key & _ & _ & ->). reflexivity. }
    right. exists p, tableRef. split; [exact W|]. split; [exact Vw|].
    destruct (H5 D V W Vw) as [-> _].
    now destruct (execute_outcome driver p
                    (updateSql tableRef (UpdateRowsArgs.data args)
                       (UpdateRowsArgs.where_ args))
                    (map snd (UpdateRowsArgs.data args)
                       ++ boundValues (UpdateRowsArgs.where_ args))
                    ResultSetHeader.affectedRows m) as (Hc & _).
  - destruct (pool m) as [p|] eqn:Hp.
    2:{ left. unfold deleteRows. now rewrite (ensure_none _ _ Hp). }
    destruct (escapeTableReference_run (DeleteRowsArgs.table args)
                (DeleteRowsArgs.database args) m) as ([tableRef|e] & E & _).
    2:{ left. unfold deleteRows. rewrite (ensure_some _ _ _ Hp). unfold bind at 1.
        now rewrite E. }
    assert (Ht : fst (escapeTableReference (DeleteRowsArgs.table args)
                        (DeleteRowsArgs.database args) m) = Ok tableRef)
      by now rewrite E.
    destruct (deleteRows_cases driver args m p tableRef Hp Ht) as (H1 & H2 & H3).
    destruct (nil_dec (DeleteRowsArgs.where_ args)) as [W | W].
    { left. now rewrite (H1 W). }
    destruct (validKeys_dec (DeleteRowsArgs.where_ args)) as [Vw | Vw].
    2:{ left. destruct (H2 W Vw) as (key & _ & _ & ->). reflexivity. }
    right. exists p, tableRef. split; [exact W|]. split; [exact Vw|].
    destruct (H3 W Vw) as [-> _].
    now destruct (execute_outcome driver p
                    (deleteSql tableRef (DeleteRowsArgs.where_ args))
                    (boundValues (DeleteRowsArgs.where_ args))
                    ResultSetHeader.affectedRows m) as (Hc & _).
Qed.

End FilteredFacts.


Lemma updateRows_statement_witness :
  updateRows Demo.driver
    (UpdateRowsArgs.mk "users" None [("email", VNull)] [("id", VNum 1); ("gone", VNull)])
    (Demo.loggedIn Demo.online)
  = bind (execute Demo.driver (PoolHandle 0)
            "UPDATE `shop`.`users` SET `email` = ? WHERE `id` = ? AND `gone` IS NULL"
            [VNull; VNum 1])
      (fun result => ret (ResultSetHeader.affectedRows result))
      (Demo.loggedIn Demo.online).
Proof.
  apply (proj2 (proj2 (proj2 (proj2
           (updateRows_statement Demo.driver
              (UpdateRowsArgs.mk "users" None [("email", VNull)]
                 [("id", VNum 1); ("gone", VNull)])
              (Demo.loggedIn Demo.online) (PoolHandle 0) "`shop`.`users`"
              eq_refl eq_refl))))).
  - discriminate.
  - repeat constructor.
  - discriminate.
  - repeat constructor.
Defined.


(** ** [selectRows], once more *)

Lemma split_tokens (col d rest : string) :
  spaceFree col -> spaceFree d -> d <> "" ->
  exists more, Str.splitWhitespace (col +++ " " +++ d +++ " " +++ rest) = col :: d :: more.
Proof.
  intros Fc Fd Nd. unfold Str.splitWhitespace.
  change (col +++ " " +++ d +++ " " +++ rest) with (col +++ String " " (d +++ String " " rest)).
  rewrite (splitWs_separated col _ Fc). cbn [rev app]. rewrite of_chars.
  destruct d as [|c d']; [contradiction|].
  unfold spaceFree in Fd. simpl in Fd. inversion Fd as [|? ? Hc Hd]; subst.
  cbn [String.append Str.splitWs]. rewrite Hc.
  rewrite (splitWs_separated d' rest Hd [c]). cbn [rev app].
  change (string_of_list_ascii (c :: Str.chars d')) with (String c (string_of_list_ascii (Str.chars d'))).
  rewrite of_chars. eexists. reflexivity.
Qed.

(** X13.  [selectRows] validates the first token of [orderBy] as a column
    and appends the second token in upper case without checking it; tokens
    after the second are dropped.  The second token is any string of code
    units below 128 that holds no white space: on these the upper case of the
    model is that of JS. *)
Theorem orderBy_direction_unchecked (col d : string) :
  identifierShape col -> spaceFree d -> asciiOnly d -> d <> "" ->
  orderByClause (Some (col +++ " " +++ d))
  = Ok ((" ORDER BY `" +++ col +++ "`") +++ " " +++ Str.toUpperCase d) /\
  forall rest,
    orderByClause (Some (col +++ " " +++ d +++ " " +++ rest))
    = Ok ((" ORDER BY `" +++ col +++ "`") +++ " " +++ Str.toUpperCase d).
Proof.
  intros S Fd _ Nd.
  assert (Td : Str.truthy d = true) by (destruct d; [contradiction | reflexivity]).
  split.
  - unfold orderByClause.
    assert (T : Str.truthy (col +++ " " +++ d) = true)
      by (destruct col; [contradiction | reflexivity]).
    rewrite T, (split_two col d (shape_spaceFree col S) Fd).
    cbn [hd nth_error]. rewrite (escapeIdentifier_ok col "orderBy" S).
    cbn [rbind]. now rewrite Td.
  - intros rest. unfold orderByClause.
    assert (T : Str.truthy (col +++ " " +++ d +++ " " +++ rest) = true)
      by (destruct col; [contradiction | reflexivity]).
    destruct (split_tokens col d rest (shape_spaceFree col S) Fd Nd) as (more & ->).
    rewrite T. cbn [hd nth_error]. rewrite (escapeIdentifier_ok col "orderBy" S).
    cbn [rbind]. now rewrite Td.
Qed.

Lemma orderBy_direction_unchecked_witness :
  orderByClause (Some "id sideways") = Ok " ORDER BY `id` SIDEWAYS" /\
  orderByClause (Some "id desc nulls last") = Ok " ORDER BY `id` DESC".
Proof.
  split.
  - apply (proj1 (orderBy_direction_unchecked "id" "sideways"
                    ltac:(simpl; repeat constructor) ltac:(repeat constructor)
                    ltac:(unfold asciiOnly; simpl; repeat constructor; unfold Str.code; simpl; lia)
                    ltac:(discriminate))).
  - apply (proj2 (orderBy_direction_unchecked "id" "desc"
                    ltac:(simpl; repeat constructor) ltac:(repeat constructor)
                    ltac:(unfold asciiOnly; simpl; repeat constructor; unfold Str.code; simpl; lia)
                    ltac:(discriminate)) "nulls last").
Defined.

Section SelectResultFacts.
Context {World : Type} (driver : Driver World).

Lemma selectRows_stops (args : SelectRowsArgs.t) (m : Machine World) (p : Pool) :
  pool m = Some p ->
  (forall e, fst (escapeTableReference (SelectRowsArgs.table args)
                    (SelectRowsArgs.database args) m) = Err e \/
             columnList (SelectRowsArgs.columns args) = Err e \/
             buildWhereClause (SelectRowsArgs.where_ args) = Err e \/
             orderByClause (SelectRowsArgs.orderBy args) = Err e ->
             exists e', selectRows driver args m = (Err e', m)).
Proof.
  intros Hp e H. unfold selectRows. rewrite (ensure_some _ _ _ Hp). unfold bind at 1.
  destruct (escapeTableReference_run (SelectRowsArgs.table args)
              (SelectRowsArgs.database args) m) as (r & E & _).
  rewrite E in *. cbn [fst] in H. destruct r as [tableRef|e0]; [|eexists; reflexivity].
  unfold bind at 1, liftR at 1.
  destruct (columnList (SelectRowsArgs.columns args)) as [columns|e1];
    [|eexists; reflexivity].
  unfold bind at 1, liftR at 1.
  destruct (buildWhereClause (SelectRowsArgs.where_ args)) as [w|e2];
    [|eexists; reflexivity].
  cbv zeta. unfold bind at 1, liftR at 1.
  destruct (orderByClause (SelectRowsArgs.orderBy args)) as [o|e3];
    [|eexists; reflexivity].
  destruct H as [H | [H | [H | H]]]; discriminate.
Qed.

(** X14.  When [selectRows] succeeds it has sent exactly one statement, a
    query, and what it returns are the rows the server answered to that
    statement, unchanged and in order, with [count] their number. *)
Theorem selectRows_result (args : SelectRowsArgs.t) (m : Machine World)
  (r : SelectResult.t) :
  fst (selectRows driver args m) = Ok r ->
  SelectResult.count r = Z.of_nat (length (SelectResult.items r)) /\
  exists p sql values w',
    pool m = Some p /\
    poolQuery driver p sql values (world m) = (Ok (SelectResult.items r), w') /\
    snd (selectRows driver args m)
    = mkMachine (pool m) (session m) w' (calls m ++ [CallPoolQuery p sql values]).
Proof.
  intros H.
  destruct (pool m) as [p|] eqn:Hp.
  2:{ unfold selectRows in H. rewrite (ensure_none _ _ Hp) in H. discriminate. }
  destruct (escapeTableReference_run (SelectRowsArgs.table args)
              (SelectRowsArgs.database args) m) as (rt & Et & _).
  destruct rt as [tableRef|e].
  2:{ destruct (selectRows_stops args m p Hp e) as (e' & E);
        [left; now rewrite Et | rewrite E in H; discriminate]. }
  destruct (columnList (SelectRowsArgs.columns args)) as [columns|e] eqn:C.
  2:{ destruct (selectRows_stops args m p Hp e) as (e' & E);
        [auto | rewrite E in H; discriminate]. }
  destruct (buildWhereClause (SelectRowsArgs.where_ args)) as [w|e] eqn:W.
  2:{ destruct (selectRows_stops args m p Hp e) as (e' & E);
        [auto | rewrite E in H; discriminate]. }
  destruct (orderByClause (SelectRowsArgs.orderBy args)) as [o|e] eqn:O.
  2:{ destruct (selectRows_stops args m p Hp e) as (e' & E);
        [auto | rewrite E in H; discriminate]. }
  assert (Hpage : SelectRowsArgs.offset args = None \/ SelectRowsArgs.limit args <> None).
  { destruct (SelectRowsArgs.offset args) as [k|] eqn:Ok; [|now left].
    destruct (SelectRowsArgs.limit args) as [n|] eqn:Ln; [right; discriminate|].
    destruct (selectRows_rejects driver args m p k Hp Ok Ln) as (e & E & _).
    rewrite E in H. discriminate. }
  assert (Ht : fst (escapeTableReference (SelectRowsArgs.table args)
                      (SelectRowsArgs.database args) m) = Ok tableRef) by now rewrite Et.
  rewrite (selectRows_run driver args m p tableRef columns o w Hp Ht C W O Hpage) in *.
  revert H. unfold bind, query, perform, ret.
  match goal with
  | |- context [poolQuery driver p ?sql ?values (world m)] =>
      destruct (poolQuery driver p sql values (world m)) as [[rows|e] w'] eqn:Q;
      cbn [fst snd]; intros H; [|discriminate];
      injection H as <-; split; [reflexivity|];
      exists p, sql, values, w'
  end.
  cbn. rewrite Hp. auto.
Qed.

End SelectResultFacts.

Lemma selectRows_result_witness :
  SelectResult.count (SelectResult.mk [Demo.sample] 1)
  = Z.of_nat (length (SelectResult.items (SelectResult.mk [Demo.sample] 1))) /\
  exists p sql values w',
    pool (Demo.loggedIn Demo.online) = Some p /\
    poolQuery Demo.driver p sql values Demo.online = (Ok [Demo.sample], w') /\
    snd (selectRows Demo.driver
           (SelectRowsArgs.mk "users" None None None None (Some 2%Z) None)
           (Demo.loggedIn Demo.online))
    = mkMachine (pool (Demo.loggedIn Demo.online)) (session (Demo.loggedIn Demo.online)) w'
        ([] ++ [CallPoolQuery p sql values]).
Proof.
  exact (selectRows_result Demo.driver
           (SelectRowsArgs.mk "users" None None None None (Some 2%Z) None)
           (Demo.loggedIn Demo.online) (SelectResult.mk [Demo.sample] 1) eq_refl).
Defined.

(** ** [executeSql], step by step *)

Section ExecuteFacts.
Context {World : Type} (driver : Driver World).

Ltac run_execute Hp Hc :=
  unfold executeSql; rewrite (ensure_some _ _ _ Hp); cbv zeta;
  unfold bind at 1, perform at 1; rewrite Hc;
  unfold tryFinally, bind, getSession, ret, perform, liftR;
  cbn [pool session world calls fst snd].

(** X15.  Without a [database] argument, and with an empty one, [executeSql]
    acquires a connection, sends the statement as it is with its parameters
    ([[]] when absent) and releases the connection.  The mode of the result
    follows the shape of what the driver answers, rows or header, not the
    text of the statement, and the database it reports is the one of the
    session. *)
Theorem executeSql_plain (args : ExecuteSqlArgs.t) (m : Machine World) (p : Pool)
  (c : Connection) (w1 w2 w3 : World) (answer : Result QueryResult) :
  pool m = Some p ->
  getConnection driver p (world m) = (Ok c, w1) ->
  ExecuteSqlArgs.database args = None \/ ExecuteSqlArgs.database args = Some "" ->
  let params := match ExecuteSqlArgs.params args with Some ps => ps | None => [] end in
  connectionQuery driver c (ExecuteSqlArgs.sql args) params w1 = (answer, w2) ->
  connectionRelease driver c w2 = (Ok tt, w3) ->
  executeSql driver args m
  = (match answer with
     | Ok r => Ok (classify (ExecuteSqlArgs.sql args) (sessionDatabase (session m)) r)
     | Err e => Err e
     end,
     mkMachine (pool m) (session m) w3
       (calls m ++ [CallGetConnection p;
                    CallConnectionQuery c (ExecuteSqlArgs.sql args) params;
                    CallRelease c])).
Proof.
  intros Hp Hc Hd params Hq Hr. subst params.
  run_execute Hp Hc.
  destruct Hd as [-> | ->]; cbn [Str.truthy pool session world calls fst snd];
    rewrite Hq; destruct answer as [[rows|h]|e];
    cbn [pool session world calls fst snd classify]; rewrite Hr;
    rewrite <- !app_assoc; reflexivity.
Qed.

(** X16.  With a [database] argument that is not empty, [executeSql]
    validates it after the connection has been acquired.  A name that is not
    an identifier is a ValidationError and no statement is sent; otherwise
    [USE `name`] is sent on the connection first, and the statement only if
    that succeeded, the result then reporting that database.  In the three
    cases the connection is released last. *)
Theorem executeSql_scoped (args : ExecuteSqlArgs.t) (m : Machine World) (p : Pool)
  (c : Connection) (w1 : World) (d : string) :
  pool m = Some p ->
  getConnection driver p (world m) = (Ok c, w1) ->
  ExecuteSqlArgs.database args = Some d -> d <> "" ->
  let params := match ExecuteSqlArgs.params args with Some ps => ps | None => [] end in
  let use := "USE " +++ ("`" +++ d +++ "`") in
  (forall w2,
      ~ identifierShape d ->
      connectionRelease driver c w1 = (Ok tt, w2) ->
      executeSql driver args m
      = (Err (invalidIdentifier "database"),
         mkMachine (pool m) (session m) w2
           (calls m ++ [CallGetConnection p; CallRelease c]))) /\
  (forall e w2 w3,
      identifierShape d ->
      connectionQuery driver c use [] w1 = (Err e, w2) ->
      connectionRelease driver c w2 = (Ok tt, w3) ->
      executeSql driver args m
      = (Err e,
         mkMachine (pool m) (session m) w3
           (calls m ++ [CallGetConnection p; CallConnectionQuery c use [];
                        CallRelease c]))) /\
  (forall used answer w2 w3 w4,
      identifierShape d ->
      connectionQuery driver c use [] w1 = (Ok used, w2) ->
      connectionQuery driver c (ExecuteSqlArgs.sql args) params w2 = (answer, w3) ->
      connectionRelease driver c w3 = (Ok tt, w4) ->
      executeSql driver args m
      = (match answer with
         | Ok r => Ok (classify (ExecuteSqlArgs.sql args) (Some d) r)
         | Err e => Err e
         end,
         mkMachine (pool m) (session m) w4
           (calls m ++ [CallGetConnection p; CallConnectionQuery c use [];
                        CallConnectionQuery c (ExecuteSqlArgs.sql args) params;
                        CallRelease c]))).
Proof.
  intros Hp Hc Hd Nd params use. subst params use.
  assert (T : Str.truthy d = true) by (destruct d; [contradiction | reflexivity]).
  split; [|split].
  - intros w2 N Hr. run_execute Hp Hc. rewrite Hd, T.
    rewrite (assertIdentifier_err d "database" N).
    cbn [pool session world calls fst snd]. rewrite Hr.
    rewrite <- !app_assoc. reflexivity.
  - intros e w2 w3 S Hu Hr. run_execute Hp Hc. rewrite Hd, T.
    rewrite (assertIdentifier_ok d "database" S), (escapeIdentifier_ok d "database" S).
    cbn [pool session world calls fst snd]. rewrite Hu.
    cbn [pool session world calls fst snd]. rewrite Hr.
    rewrite <- !app_assoc. reflexivity.
  - intros used answer w2 w3 w4 S Hu Hq Hr. run_execute Hp Hc. rewrite Hd, T.
    rewrite (assertIdentifier_ok d "database" S), (escapeIdentifier_ok d "database" S).
    cbn [pool session world calls fst snd]. rewrite Hu.
    cbn [pool session world calls fst snd]. rewrite Hq.
    destruct answer as [[rows|h]|e];
      cbn [pool session world calls fst snd classify]; rewrite Hr;
      rewrite <- !app_assoc; reflexivity.
Qed.

End ExecuteFacts.

Lemma executeSql_plain_witness :
  executeSql Demo.driver (ExecuteSqlArgs.mk "UPDATE t SET a = 1" None None)
    (Demo.loggedIn Demo.online)
  = (Ok (QueryMode "UPDATE t SET a = 1" (Some "shop") 1 [Demo.sample]),
     mkMachine (Some (PoolHandle 0)) (session (Demo.loggedIn Demo.online))
       (Demo.mkServer ["shop"; "analytics"] true 1)
       [CallGetConnection (PoolHandle 0);
        CallConnectionQuery (ConnectionHandle 0) "UPDATE t SET a = 1" [];
        CallRelease (ConnectionHandle 0)]).
Proof.
  exact (executeSql_plain Demo.driver (ExecuteSqlArgs.mk "UPDATE t SET a = 1" None None)
           (Demo.loggedIn Demo.online) (PoolHandle 0) (ConnectionHandle 0)
           (Demo.mkServer ["shop"; "analytics"] true 1)
           (Demo.mkServer ["shop"; "analytics"] true 1)
           (Demo.mkServer ["shop"; "analytics"] true 1)
           (Ok (Rows [Demo.sample])) eq_refl eq_refl (or_introl eq_refl) eq_refl eq_refl).
Defined.

Lemma executeSql_scoped_witness :
  executeSql Demo.driver (ExecuteSqlArgs.mk "SELECT 1" None (Some "shop; DROP"))
    (Demo.loggedIn Demo.online)
  = (Err (invalidIdentifier "database"),
     mkMachine (Some (PoolHandle 0)) (session (Demo.loggedIn Demo.online))
       (Demo.mkServer ["shop"; "analytics"] true 1)
       [CallGetConnection (PoolHandle 0); CallRelease (ConnectionHandle 0)]).
Proof.
  apply (proj1 (executeSql_scoped Demo.driver
                  (ExecuteSqlArgs.mk "SELECT 1" None (Some "shop; DROP"))
                  (Demo.loggedIn Demo.online) (PoolHandle 0) (ConnectionHandle 0)
                  (Demo.mkServer ["shop"; "analytics"] true 1) "shop; DROP"
                  eq_refl eq_refl eq_refl ltac:(discriminate))).
  - intros S. apply (shape_chars _ ";"%char) in S; [discriminate | simpl; auto 10].
  - reflexivity.
Defined.

(** ** The catalog lookups *)

(** The two catalog statements, set against the text between the backticks
    of the source. *)
Example listTablesSql_text :
  listTablesSql = "
      SELECT TABLE_SCHEMA AS databaseName, TABLE_NAME AS tableName, TABLE_TYPE AS tableType
      FROM information_schema.tables
      WHERE TABLE_SCHEMA = ?
      ORDER BY TABLE_NAME
    ".
Proof. reflexivity. Qed.

Example describeTableSql_text :
  describeTableSql = "
      SELECT
        COLUMN_NAME AS columnName,
        DATA_TYPE AS dataType,
        IS_NULLABLE AS isNullable,
        COLUMN_KEY AS columnKey,
        COLUMN_DEFAULT AS defaultValue,
        EXTRA AS extra
      FROM information_schema.columns
      WHERE TABLE_SCHEMA = ?
        AND TABLE_NAME = ?
      ORDER BY ORDINAL_POSITION
    ".
Proof. reflexivity. Qed.

Section CatalogFacts.
Context {World : Type} (driver : Driver World).

Lemma resolveDatabase_cases (database : option string) (m : Machine World) :
  resolveDatabase database m
  = (match coalesce database (sessionDatabase (session m)) with
     | None => Err noDatabaseSelected
     | Some d =>
         if Str.truthy d then assertIdentifier d "database" else Err noDatabaseSelected
     end, m).
Proof.
  unfold resolveDatabase, bind, getSession, throw, liftR. cbn [fst snd session].
  destruct (coalesce database (sessionDatabase (session m))) as [d|]; [|reflexivity].
  destruct (Str.truthy d); reflexivity.
Qed.

Lemma listTables_cases (database : option string) (m : Machine World) (p : Pool) :
  pool m = Some p ->
  let resolved := coalesce database (sessionDatabase (session m)) in
  (resolved = None \/ resolved = Some "" ->
   listTables driver database m = (Err noDatabaseSelected, m)) /\
  (forall d, resolved = Some d -> d <> "" -> ~ identifierShape d ->
             listTables driver database m = (Err (invalidIdentifier "database"), m)) /\
  (forall d rows w',
      resolved = Some d -> identifierShape d ->
      poolQuery driver p listTablesSql [VStr d] (world m) = (Ok rows, w') ->
      listTables driver database m
      = (Ok (map tableOfRow rows),
         mkMachine (pool m) (session m) w'
           (calls m ++ [CallPoolQuery p listTablesSql [VStr d]]))).
Proof.
  intros Hp resolved. subst resolved.
  assert (U : listTables driver database m
              = match (match coalesce database (sessionDatabase (session m)) with
                       | None => Err noDatabaseSelected
                       | Some d =>
                           if Str.truthy d then assertIdentifier d "database"
                           else Err noDatabaseSelected
                       end) with
                | Ok d =>
                    bind (query driver p listTablesSql [VStr d])
                      (fun rows => ret (map tableOfRow rows)) m
                | Err e => (Err e, m)
                end).
  { unfold listTables. rewrite (ensure_some _ _ _ Hp). unfold bind at 1.
    now rewrite resolveDatabase_cases. }
  rewrite U. clear U. split; [|split].
  - intros [E | E]; rewrite E; reflexivity.
  - intros d E Nd N. rewrite E. destruct d as [|c d]; [contradiction|]. cbn [Str.truthy].
    now rewrite (assertIdentifier_err _ "database" N).
  - intros d rows w' E S Q. rewrite E.
    rewrite (shape_truthy d S), (assertIdentifier_ok d "database" S).
    unfold bind, query, perform, ret. cbn [world pool session calls]. now rewrite Q.
Qed.

(** X17.  With a pool, [listTables] resolves the database like the row
    methods do and fails with a ValidationError, sending nothing, when none
    is selected or when the name is not an identifier.  Otherwise it sends
    one catalog query, the template literal of lines 207-212 as it is
    written, whose text does not depend on the name, the name being its only
    bound value; when the server answers with rows whose numbers are safe
    integers it returns one entry per row, in order. *)
Theorem listTables_outcome (database : option string) (m : Machine World) (p : Pool) :
  pool m = Some p ->
  let resolved := coalesce database (sessionDatabase (session m)) in
  (resolved = None \/ resolved = Some "" ->
   listTables driver database m = (Err noDatabaseSelected, m)) /\
  (forall d, resolved = Some d -> d <> "" -> ~ identifierShape d ->
             listTables driver database m = (Err (invalidIdentifier "database"), m)) /\
  (forall d rows w',
      resolved = Some d -> identifierShape d ->
      poolQuery driver p listTablesSql [VStr d] (world m) = (Ok rows, w') ->
      Forall plainRow rows ->
      listTables driver database m
      = (Ok (map tableOfRow rows),
         mkMachine (pool m) (session m) w'
           (calls m ++ [CallPoolQuery p listTablesSql [VStr d]]))) /\
  placeholders listTablesSql = 1.
Proof.
  intros Hp resolved.
  destruct (listTables_cases database m p Hp) as (H1 & H2 & H3).
  split; [exact H1|]. split; [exact H2|]. split; [|reflexivity].
  intros d rows w' E S Q _. now apply (H3 d rows w').
Qed.

(** X18.  With a pool, [describeTable] rejects a table name that is not an
    identifier before the database is even resolved.  With a table name that
    is an identifier it resolves the database like [listTables] does: none
    selected, or a name that is not an identifier, is a ValidationError and
    nothing is sent.  With a database that resolves to an identifier it
    sends one catalog query, the template literal of lines 233-245 as it is
    written, whose bound values are the database and the table.  No row is
    the ApiError "Table not found"; rows whose numbers are safe integers give
    a result that names that table and that database and has one column per
    row, in order. *)
Theorem describeTable_outcome (args : DescribeTableArgs.t) (m : Machine World) (p : Pool) :
  pool m = Some p ->
  let table := DescribeTableArgs.table args in
  let resolved :=
    coalesce (DescribeTableArgs.database args) (sessionDatabase (session m)) in
  (~ identifierShape table ->
   describeTable driver args m = (Err (invalidIdentifier "table"), m)) /\
  (identifierShape table -> resolved = None \/ resolved = Some "" ->
   describeTable driver args m = (Err noDatabaseSelected, m)) /\
  (forall d,
      identifierShape table -> resolved = Some d -> d <> "" -> ~ identifierShape d ->
      describeTable driver args m = (Err (invalidIdentifier "database"), m)) /\
  placeholders describeTableSql = 2 /\
  (forall d rows w',
      identifierShape table ->
      resolved = Some d ->
      identifierShape d ->
      poolQuery driver p describeTableSql [VStr d; VStr table] (world m) = (Ok rows, w') ->
      Forall plainRow rows ->
      calls (snd (describeTable driver args m))
      = calls m ++ [CallPoolQuery p describeTableSql [VStr d; VStr table]] /\
      (rows = [] ->
       fst (describeTable driver args m)
       = Err (mkError ApiError ("Table not found: " +++ table))) /\
      (rows <> [] ->
       exists r,
         fst (describeTable driver args m) = Ok r /\
         DescribeResult.table r = table /\
         DescribeResult.database r = Some d /\
         map ColumnInfo.name (DescribeResult.columns r)
         = map (fun row => jsStringU (prop "columnName" row)) rows)).
Proof.
  intros Hp table resolved. subst table resolved.
  assert (U : describeTable driver args m
              = match assertIdentifier (DescribeTableArgs.table args) "table" with
                | Err e => (Err e, m)
                | Ok table =>
                    match (match coalesce (DescribeTableArgs.database args)
                                   (sessionDatabase (session m)) with
                           | None => Err noDatabaseSelected
                           | Some d =>
                               if Str.truthy d then assertIdentifier d "database"
                               else Err noDatabaseSelected
                           end) with
                    | Err e => (Err e, m)
                    | Ok database =>
                        match poolQuery driver p describeTableSql
                                [VStr database; VStr table] (world m) with
                        | (Err e, w') =>
                            (Err e,
                             mkMachine (pool m) (session m) w'
                               (calls m ++ [CallPoolQuery p describeTableSql
                                              [VStr database; VStr table]]))
                        | (Ok rows, w') =>
                            let m' :=
                              mkMachine (pool m) (session m) w'
                                (calls m ++ [CallPoolQuery p describeTableSql
                                               [VStr database; VStr table]]) in
                            if Nat.eqb (length rows) 0
                            then (Err (mkError ApiError ("Table not found: " +++ table)), m')
                            else
                              (Ok (DescribeResult.mk table (Some database)
                                     (map (fun row =>
                                             ColumnInfo.mk (jsStringU (prop "columnName" row))
                                               (jsStringU (prop "dataType" row))
                                               (String.eqb
                                                  (Str.toUpperCase
                                                     (jsStringU (prop "isNullable" row)))
                                                  "YES")
                                               (orEmpty (prop "columnKey" row))
                                               (prop "defaultValue" row)
                                               (orEmpty (prop "extra" row))) rows)), m')
                        end
                    end
                end).
  { unfold describeTable. rewrite (ensure_some _ _ _ Hp). unfold bind at 1, liftR at 1.
    destruct (assertIdentifier (DescribeTableArgs.table args) "table") as [table|e];
      [|reflexivity].
    unfold bind at 1. rewrite resolveDatabase_cases.
    destruct (match coalesce (DescribeTableArgs.database args)
                      (sessionDatabase (session m)) with
              | Some d => _ | None => _ end) as [database|e]; [|reflexivity].
    unfold bind at 1, query, perform. cbn [world pool session calls].
    destruct (poolQuery driver p describeTableSql [VStr database; VStr table] (world m))
      as [[rows|e] w']; [|reflexivity].
    cbv zeta. destruct (Nat.eqb (length rows) 0); reflexivity. }
  rewrite U. clear U. split; [|split; [|split; [|split]]].
  - intros N. now rewrite (assertIdentifier_err _ "table" N).
  - intros S [E | E]; rewrite (assertIdentifier_ok _ "table" S), E; reflexivity.
  - intros d S E Nd N. rewrite (assertIdentifier_ok _ "table" S), E.
    destruct d as [|c d]; [contradiction|]. cbn [Str.truthy].
    now rewrite (assertIdentifier_err _ "database" N).
  - reflexivity.
  - intros d rows w' S Hd Sd Q _. rewrite (assertIdentifier_ok _ "table" S), Hd.
    rewrite (shape_truthy d Sd), (assertIdentifier_ok d "database" Sd), Q. cbv zeta.
    destruct rows as [|row rows].
    + cbn. repeat split; try reflexivity. intros N. now contradiction N.
    + cbn [length Nat.eqb fst snd calls].
      split; [reflexivity|]. split; [discriminate|]. intros _.
      eexists. split; [reflexivity|].
      cbn [DescribeResult.table DescribeResult.database DescribeResult.columns].
      split; [reflexivity|]. split; [reflexivity|].
      rewrite map_map. reflexivity.
Qed.

End CatalogFacts.

Lemma listTables_outcome_witness :
  listTables Demo.driver (Some "") (Demo.loggedIn Demo.online)
  = (Err noDatabaseSelected, Demo.loggedIn Demo.online) /\
  listTables Demo.driver None (Demo.loggedIn Demo.online)
  = (Ok (map tableOfRow [Demo.sample]),
     mkMachine (Some (PoolHandle 0)) (session (Demo.loggedIn Demo.online)) Demo.online
       [CallPoolQuery (PoolHandle 0) listTablesSql [VStr "shop"]]).
Proof.
  destruct (listTables_outcome Demo.driver (Some "") (Demo.loggedIn Demo.online)
              (PoolHandle 0) eq_refl) as (H1 & _).
  destruct (listTables_outcome Demo.driver None (Demo.loggedIn Demo.online)
              (PoolHandle 0) eq_refl) as (_ & _ & H3 & _).
  split.
  - apply H1. right. reflexivity.
  - apply (H3 "shop" [Demo.sample] Demo.online eq_refl).
    + simpl. repeat constructor.
    + reflexivity.
    + repeat constructor.
Defined.

Lemma describeTable_outcome_witness :
  describeTable Demo.driver (DescribeTableArgs.mk "order items" None)
    (Demo.loggedIn Demo.online)
  = (Err (invalidIdentifier "table"), Demo.loggedIn Demo.online) /\
  exists r,
    fst (describeTable Demo.driver (DescribeTableArgs.mk "users" None)
           (Demo.loggedIn Demo.online)) = Ok r /\
    DescribeResult.table r = "users" /\
    DescribeResult.database r = Some "shop" /\
    map ColumnInfo.name (DescribeResult.columns r)
    = map (fun row => jsStringU (prop "columnName" row)) [Demo.sample].
Proof.
  split.
  - apply (proj1 (describeTable_outcome Demo.driver (DescribeTableArgs.mk "order items" None)
                    (Demo.loggedIn Demo.online) (PoolHandle 0) eq_refl)).
    intros S. apply (shape_chars _ " "%char) in S; [discriminate | simpl; auto 10].
  - destruct (describeTable_outcome Demo.driver (DescribeTableArgs.mk "users" None)
                (Demo.loggedIn Demo.online) (PoolHandle 0) eq_refl)
      as (_ & _ & _ & _ & H5).
    destruct (H5 "shop" [Demo.sample] Demo.online) as (_ & _ & H);
      try reflexivity; try (simpl; repeat constructor).
    apply H. discriminate.
Defined.

(** ** Resources *)

Lemma lang_literal (p s : string) : Regex.lang (regexLiteral p) s <-> s = p.
Proof.
  revert s. induction p as [|c p IH]; intros s; simpl.
  - split; [intros H; now inversion H | intros ->; constructor].
  - split.
    + intros H. inversion H as [| |? ? u v Hu Hv| | | |]; subst.
      inversion Hu as [|? d Hd| | | | |]; subst.
      apply Ascii.eqb_eq in Hd. subst d. apply IH in Hv. now subst v.
    + intros ->. change (String c p) with (String c "" +++ p).
      constructor; [constructor; apply Ascii.eqb_refl | now apply IH].
Qed.

Lemma lang_plus_class (f : ascii -> bool) (s : string) :
  Regex.lang (regexPlus (Regex.Class f)) s <->
  s <> "" /\ Forall (fun c => f c = true) (Str.chars s).
Proof.
  unfold regexPlus. split.
  - intros H. inversion H as [| |? ? u v Hu Hv| | | |]; subst.
    inversion Hu as [|? d Hd| | | | |]; subst. apply lang_star_class in Hv.
    split; [discriminate | simpl; now constructor].
  - intros [N F]. destruct s as [|c s]; [contradiction|].
    simpl in F. inversion F; subst.
    change (String c s) with (String c "" +++ s).
    constructor; [now constructor | now apply lang_star_class].
Qed.

Lemma stripPrefix_append (p x : string) : stripPrefix p (p +++ x) = Some x.
Proof.
  induction p as [|c p IH]; simpl; [now destruct x|]. now rewrite Ascii.eqb_refl.
Qed.

Lemma untilSlash_append (d t : string) :
  slashFree d -> untilSlash (d +++ String "/" t) = (d, Some t).
Proof.
  unfold slashFree. induction d as [|c d IH]; simpl; intros F; [reflexivity|].
  inversion F as [|? ? Hc Hd]; subst. unfold notSlash in Hc.
  apply negb_true_iff in Hc. rewrite Hc, (IH Hd). reflexivity.
Qed.

Lemma lang_seq_inv (a b : Regex.re) (s : string) :
  Regex.lang (Regex.Seq a b) s ->
  exists u v, s = u +++ v /\ Regex.lang a u /\ Regex.lang b v.
Proof. intros H. inversion H; subst. eauto. Qed.

Lemma lang_resource (uri : string) :
  Regex.lang resourcePattern uri <->
  exists d t,
    uri = resourcePrefix +++ d +++ "/" +++ t /\
    d <> "" /\ t <> "" /\ slashFree d /\ slashFree t.
Proof.
  unfold resourcePattern. split.
  - intros H. apply lang_seq_inv in H as (u & v & -> & Hu & Hv).
    apply lang_literal in Hu. subst u.
    apply lang_seq_inv in Hv as (d & v' & -> & Hd & Hv').
    apply lang_seq_inv in Hv' as (sl & t & -> & Hsl & Ht).
    inversion Hsl as [|? c Hc| | | | |]; subst. apply Ascii.eqb_eq in Hc. subst c.
    apply lang_plus_class in Hd as [Nd Fd]. apply lang_plus_class in Ht as [Nt Ft].
    exists d, t. repeat split; assumption.
  - intros (d & t & -> & Nd & Nt & Fd & Ft).
    constructor; [now apply lang_literal|].
    constructor; [now apply lang_plus_class|].
    change ("/" +++ t) with (String "/" "" +++ t).
    constructor; [constructor; reflexivity | now apply lang_plus_class].
Qed.

Lemma matchResourceUri_iff (uri d t : string) :
  matchResourceUri uri = Some (d, t) <->
  uri = "mysql://table/" +++ d +++ "/" +++ t /\
  d <> "" /\ t <> "" /\ slashFree d /\ slashFree t.
Proof.
  unfold matchResourceUri. split.
  - destruct (Regex.test resourcePattern uri) eqn:T; [|discriminate].
    apply test_lang, lang_resource in T as (d' & t' & -> & Nd & Nt & Fd & Ft).
    rewrite stripPrefix_append.
    change (d' +++ "/" +++ t') with (d' +++ String "/" t').
    rewrite (untilSlash_append d' t' Fd). intros H. injection H as <- <-.
    repeat split; assumption.
  - intros (-> & Nd & Nt & Fd & Ft).
    assert (T : Regex.test resourcePattern ("mysql://table/" +++ d +++ "/" +++ t) = true).
    { apply test_lang, lang_resource. exists d, t. repeat split; assumption. }
    rewrite T. change ("mysql://table/" +++ d +++ "/" +++ t)
      with (resourcePrefix +++ d +++ String "/" t).
    now rewrite stripPrefix_append, (untilSlash_append d t Fd).
Qed.

(** X19.  [readResource] accepts exactly the URIs [mysql://table/d/t] with
    [d] and [t] not empty and free of slashes, and then takes [d] for the
    database and [t] for the table: no other pair, and no URI with a further
    segment. *)
Theorem matchResourceUri_spec (uri d t : string) :
  matchResourceUri uri = Some (d, t) <->
  uri = "mysql://table/" +++ d +++ "/" +++ t /\
  d <> "" /\ t <> "" /\ slashFree d /\ slashFree t.
Proof. exact (matchResourceUri_iff uri d t). Qed.

Lemma matchResourceUri_spec_witness :
  matchResourceUri "mysql://table/shop/users" = Some ("shop", "users").
Proof.
  apply (proj2 (matchResourceUri_spec "mysql://table/shop/users" "shop" "users")).
  repeat split; try discriminate; repeat constructor.
Defined.

Lemma matchResourceUri_none (uri : string) :
  (forall d t, uri = "mysql://table/" +++ d +++ "/" +++ t ->
               d <> "" -> t <> "" -> slashFree d -> slashFree t -> False) ->
  matchResourceUri uri = None.
Proof.
  intros H. destruct (matchResourceUri uri) as [[d t]|] eqn:E; [|reflexivity].
  apply matchResourceUri_iff in E as (-> & Nd & Nt & Fd & Ft).
  exfalso. now apply (H d t).
Qed.

Section ResourceFacts.
Context {World : Type} (driver : Driver World).
Variable stringify : DescribeResult.t -> string.

(** X20.  A table entry whose database and name are not empty and hold no
    slash round-trips through its resource URI: [readResource] on the URI
    that [listResources] builds for the entry describes that table of that
    database, and answers with the same URI. *)
Theorem resource_round_trip (table : TableInfo.t) (m : Machine World) :
  TableInfo.database table <> "" -> TableInfo.name table <> "" ->
  slashFree (TableInfo.database table) -> slashFree (TableInfo.name table) ->
  let uri := ResourceInfo.uri (resourceOf table) in
  matchResourceUri uri = Some (TableInfo.database table, TableInfo.name table) /\
  readResource driver stringify uri m
  = bind (describeTable driver
            (DescribeTableArgs.mk (TableInfo.name table) (Some (TableInfo.database table))))
      (fun result => ret (ResourceContent.mk uri "application/json" (stringify result))) m.
Proof.
  intros Nd Nt Fd Ft uri. subst uri.
  assert (E : matchResourceUri (ResourceInfo.uri (resourceOf table))
              = Some (TableInfo.database table, TableInfo.name table)).
  { apply matchResourceUri_iff. repeat split; assumption. }
  split; [exact E|]. unfold readResource. now rewrite E.
Qed.

(** X21.  [readResource] rejects a URI of any other form with the
    ValidationError "Invalid resource URI" before it looks at the session:
    the instance is untouched and nothing is sent, authenticated or not.  A
    URI of the right form whose table is not an identifier is rejected by
    [describeTable] once a pool is held, again with nothing sent, and a URI
    of the right form read without a pool is the AuthError. *)
Theorem readResource_rejects (uri : string) (m : Machine World) :
  ((forall d t, uri = "mysql://table/" +++ d +++ "/" +++ t ->
                d <> "" -> t <> "" -> slashFree d -> slashFree t -> False) ->
   readResource driver stringify uri m
   = (Err (mkError ValidationError "Invalid resource URI"), m)) /\
  (forall d t p,
      uri = "mysql://table/" +++ d +++ "/" +++ t ->
      d <> "" -> t <> "" -> slashFree d -> slashFree t ->
      pool m = Some p -> ~ identifierShape t ->
      readResource driver stringify uri m = (Err (invalidIdentifier "table"), m)) /\
  (forall d t,
      uri = "mysql://table/" +++ d +++ "/" +++ t ->
      d <> "" -> t <> "" -> slashFree d -> slashFree t ->
      pool m = None ->
      readResource driver stringify uri m = (Err notAuthenticated, m)).
Proof.
  split; [|split].
  - intros H. unfold readResource. now rewrite (matchResourceUri_none uri H).
  - intros d t p E Nd Nt Fd Ft Hp N.
    assert (M : matchResourceUri uri = Some (d, t))
      by (apply matchResourceUri_iff; auto).
    unfold readResource. rewrite M. unfold bind at 1, describeTable.
    rewrite (ensure_some _ _ _ Hp). unfold bind at 1, liftR at 1.
    cbn [DescribeTableArgs.table]. now rewrite (assertIdentifier_err t "table" N).
  - intros d t E Nd Nt Fd Ft Hp.
    assert (M : matchResourceUri uri = Some (d, t))
      by (apply matchResourceUri_iff; auto).
    unfold readResource. rewrite M. unfold bind at 1, describeTable.
    now rewrite (ensure_none _ _ Hp).
Qed.

(** X22.  With a pool, [listResources] lists the tables of the database that
    the session records and of no other.  [authMySql] records the database
    it was given without validating it, so the name is resolved here as
    [listTables] resolves it: no database, or the empty name, fails with "No
    database selected", and a name that is not an identifier fails with a
    ValidationError; nothing is sent in either case.  With a name that is an
    identifier it sends the catalog query of [listTables] for that database,
    and for rows whose numbers are safe integers it returns one resource per
    row, in order, whose URI is [mysql://table/] followed by the database,
    a slash and the name of the row. *)
Theorem listResources_outcome (m : Machine World) (p : Pool) :
  pool m = Some p ->
  let selected := sessionDatabase (session m) in
  (selected = None \/ selected = Some "" ->
   listResources driver m = (Err noDatabaseSelected, m)) /\
  (forall d, selected = Some d -> d <> "" -> ~ identifierShape d ->
             listResources driver m = (Err (invalidIdentifier "database"), m)) /\
  (forall d rows w',
      selected = Some d -> identifierShape d ->
      poolQuery driver p listTablesSql [VStr d] (world m) = (Ok rows, w') ->
      Forall plainRow rows ->
      listResources driver m
      = (Ok (map (fun row => resourceOf (tableOfRow row)) rows),
         mkMachine (pool m) (session m) w'
           (calls m ++ [CallPoolQuery p listTablesSql [VStr d]])) /\
      map ResourceInfo.uri (map (fun row => resourceOf (tableOfRow row)) rows)
      = map (fun row =>
               "mysql://table/" +++ jsStringU (prop "databaseName" row) +++ "/"
                 +++ jsStringU (prop "tableName" row)) rows).
Proof.
  intros Hp selected. subst selected.
  destruct (listTables_cases driver (sessionDatabase (session m)) m p Hp) as (H1 & H2 & H3).
  assert (R : coalesce (sessionDatabase (session m)) (sessionDatabase (session m))
              = sessionDatabase (session m))
    by (unfold coalesce; now destruct (sessionDatabase (session m))).
  cbv zeta in H1, H2, H3. rewrite R in H1, H2, H3.
  unfold listResources, bind at 1, getSession. cbn [fst snd].
  split; [|split].
  - intros E. unfold bind. now rewrite (H1 E).
  - intros d E Nd N. unfold bind. now rewrite (H2 d E Nd N).
  - intros d rows w' E S Q _. split.
    + unfold bind. rewrite (H3 d rows w' E S Q). unfold ret. now rewrite map_map.
    + rewrite map_map. reflexivity.
Qed.

End ResourceFacts.

Lemma resource_round_trip_witness :
  matchResourceUri (ResourceInfo.uri (resourceOf (TableInfo.mk "shop" "order-items" "VIEW")))
  = Some ("shop", "order-items").
Proof.
  apply (resource_round_trip Demo.driver (fun _ => "{}")
           (TableInfo.mk "shop" "order-items" "VIEW") (Demo.loggedIn Demo.online));
    try discriminate; repeat constructor.
Defined.

Lemma readResource_rejects_witness :
  readResource Demo.driver (fun _ => "{}") "mysql://table/shop/users/extra"
    (Demo.fresh Demo.online)
  = (Err (mkError ValidationError "Invalid resource URI"), Demo.fresh Demo.online) /\
  readResource Demo.driver (fun _ => "{}") "mysql://table/shop/order-items"
    (Demo.loggedIn Demo.online)
  = (Err (invalidIdentifier "table"), Demo.loggedIn Demo.online).
Proof.
  split.
  - apply (proj1 (readResource_rejects Demo.driver (fun _ => "{}")
                    "mysql://table/shop/users/extra" (Demo.fresh Demo.online))).
    intros d t E Nd Nt Fd Ft.
    assert (M : matchResourceUri "mysql://table/shop/users/extra" = Some (d, t))
      by (apply matchResourceUri_iff; auto).
    discriminate M.
  - apply (proj1 (proj2 (readResource_rejects Demo.driver (fun _ => "{}")
                           "mysql://table/shop/order-items" (Demo.loggedIn Demo.online)))
             "shop" "order-items" (PoolHandle 0));
      try reflexivity; try discriminate; try (repeat constructor).
    intros S. apply (shape_chars _ "-"%char) in S; [discriminate | simpl; auto 10].
Defined.

Lemma listResources_outcome_witness :
  listResources Stuck.driver Stuck.loggedIn = (Err noDatabaseSelected, Stuck.loggedIn) /\
  (let m :=
     snd (authMySql Demo.driver
            (MySqlAuthArgs.mk "127.0.0.1" None "root" "secret" (Some "my-db") None)
            (Demo.fresh Demo.online)) in
   sessionDatabase (session m) = Some "my-db" /\
   listResources Demo.driver m = (Err (invalidIdentifier "database"), m)) /\
  fst (listResources Demo.driver (Demo.loggedIn Demo.online))
  = Ok (map (fun row => resourceOf (tableOfRow row)) [Demo.sample]).
Proof.
  split; [|split].
  - apply (proj1 (listResources_outcome Stuck.driver Stuck.loggedIn (PoolHandle 0) eq_refl)).
    left. reflexivity.
  - cbv zeta. split; [reflexivity|].
    apply (proj1 (proj2 (listResources_outcome Demo.driver
                           (snd (authMySql Demo.driver
                                   (MySqlAuthArgs.mk "127.0.0.1" None "root" "secret"
                                      (Some "my-db") None)
                                   (Demo.fresh Demo.online)))
                           (PoolHandle 0) eq_refl)) "my-db" eq_refl).
    + discriminate.
    + intros S. apply (shape_chars _ "-"%char) in S; [discriminate | simpl; auto 10].
  - assert (S : identifierShape "shop") by (simpl; repeat constructor).
    destruct (proj2 (proj2 (listResources_outcome Demo.driver (Demo.loggedIn Demo.online)
                              (PoolHandle 0) eq_refl)) "shop" [Demo.sample] Demo.online
                eq_refl S eq_refl) as (H & _).
    + repeat constructor.
    + now rewrite H.
Defined.

(** ** What the validators let through *)

(** X23.  Arguments that pass the record validators are in range: a parsed
    select has a limit of at least 1 and an offset of at least 0 when it has
    them, and never an empty filter, and a parsed update or delete has a
    filter that is not empty. *)
Theorem parsed_arguments_in_range :
  (forall args a,
      parseSelectRowsArgs args = Ok a ->
      (forall n, SelectRowsArgs.limit a = Some n -> (1 <= n)%Z) /\
      (forall k, SelectRowsArgs.offset a = Some k -> (0 <= k)%Z) /\
      SelectRowsArgs.where_ a <> Some []) /\
  (forall args a, parseUpdateRowsArgs args = Ok a -> UpdateRowsArgs.where_ a <> []) /\
  (forall args a, parseDeleteRowsArgs args = Ok a -> DeleteRowsArgs.where_ a <> []).
Proof.
  split; [|split].
  - intros args a H. unfold parseSelectRowsArgs in H.
    repeat match type of H with
           | rbind ?r _ = _ => destruct r eqn:?; cbn [rbind] in H; [|discriminate]
           end.
    injection H as <-. cbn [SelectRowsArgs.limit SelectRowsArgs.offset SelectRowsArgs.where_].
    repeat split.
    + intros n ->.
      match goal with
      | E : (if Z.ltb n 1 then _ else _) = Ok _ |- _ =>
          destruct (Z.ltb_spec n 1); [discriminate E | lia]
      end.
    + intros k ->.
      match goal with
      | E : (if Z.ltb k 0 then _ else _) = Ok _ |- _ =>
          destruct (Z.ltb_spec k 0); [discriminate E | lia]
      end.
    + intros ->.
      match goal with
      | E : parseWhere _ _ = Ok (Some []) |- _ =>
          unfold parseWhere in E; destruct (prop "where" args) as [v|]; [|discriminate E];
          destruct (requireObject (Some v) "where") as [[|e rest]|]; cbn in E; discriminate E
      end.
  - intros args a H. unfold parseUpdateRowsArgs in H.
    destruct (requireObject (prop "where" args) "where") as [[|e rest]|]; cbn in H;
      try discriminate.
    repeat match type of H with
           | rbind ?r _ = _ => destruct r eqn:?; cbn [rbind] in H; [|discriminate]
           end.
    injection H as <-. discriminate.
  - intros args a H. unfold parseDeleteRowsArgs in H.
    destruct (requireObject (prop "where" args) "where") as [[|e rest]|]; cbn in H;
      try discriminate.
    repeat match type of H with
           | rbind ?r _ = _ => destruct r eqn:?; cbn [rbind] in H; [|discriminate]
           end.
    injection H as <-. discriminate.
Qed.

Lemma parsed_arguments_in_range_witness :
  (forall n,
      SelectRowsArgs.limit
        (SelectRowsArgs.mk "users" None None None None (Some 10%Z) (Some 0%Z)) = Some n ->
      (1 <= n)%Z) /\
  parseSelectRowsArgs [("table", VStr "users"); ("limit", VNum 0)]
  = Err (invalid "Invalid parameter: limit must be greater than 0").
Proof.
  split.
  - apply (proj1 parsed_arguments_in_range
             [("table", VStr "users"); ("limit", VNum 10); ("offset", VNum 0)]
             (SelectRowsArgs.mk "users" None None None None (Some 10%Z) (Some 0%Z))).
    reflexivity.
  - reflexivity.
Defined.
